(** * hello-triangle-vk: device negotiation, swapchain construction and
      command recording of [hello-triangle.c], embedded in Rocq.

    The program is a single C file driving the Vulkan API.  Its own
    functions are embedded one by one, under their C names; the Vulkan
    implementation they talk to is an explicit [Driver] (what the
    implementation reports) and an explicit [World] (the objects the
    implementation has been asked to create). *)

From Stdlib Require Import ZArith Lia Bool String.
From stdpp Require Import base numbers option list gmap strings.

Local Open Scope Z_scope.

(** ** Machine integers *)

Module U32.

Definition modulus : Z := 2 ^ 32.

(** [UINT32_MAX] of <stdint.h>. *)
Definition UINT32_MAX : Z := modulus - 1.

Definition wrap (x : Z) : Z := x mod modulus.

(** [x + y] on [uint32_t]. *)
Definition add (x y : Z) : Z := wrap (x + y).

Definition in_range (x : Z) : Prop := 0 <= x < modulus.

End U32.

(** [#define MAX(x, y) (((x) > (y)) ? (x) : (y))] *)
Definition MAX (x y : Z) : Z := if x >? y then x else y.

(** [#define MIN(x, y) (((x) < (y)) ? (x) : (y))] *)
Definition MIN (x y : Z) : Z := if x <? y then x else y.

Definition WIDTH : Z := 800.
Definition HEIGHT : Z := 600.

(** ** Vulkan constants used by the program (values of <vulkan/vulkan_core.h>) *)

Definition VK_NULL_HANDLE : Z := 0.
Definition VK_SUCCESS : Z := 0.
Definition VK_FALSE : Z := 0.
Definition VK_TRUE : Z := 1.

Definition VK_PHYSICAL_DEVICE_TYPE_DISCRETE_GPU : Z := 2.

Definition VK_QUEUE_GRAPHICS_BIT : Z := 1.

Definition VK_FORMAT_B8G8R8A8_UNORM : Z := 44.
Definition VK_COLOR_SPACE_SRGB_NONLINEAR_KHR : Z := 0.

Definition VK_PRESENT_MODE_MAILBOX_KHR : Z := 1.
Definition VK_PRESENT_MODE_FIFO_KHR : Z := 2.

Definition VK_SHARING_MODE_EXCLUSIVE : Z := 0.
Definition VK_SHARING_MODE_CONCURRENT : Z := 1.

Definition VK_IMAGE_USAGE_COLOR_ATTACHMENT_BIT : Z := 16.
Definition VK_COMPOSITE_ALPHA_OPAQUE_BIT_KHR : Z := 1.

Definition VK_IMAGE_VIEW_TYPE_2D : Z := 1.
Definition VK_COMPONENT_SWIZZLE_IDENTITY : Z := 0.
Definition VK_IMAGE_ASPECT_COLOR_BIT : Z := 1.
Definition VK_SUBPASS_CONTENTS_INLINE : Z := 0.
Definition VK_PIPELINE_BIND_POINT_GRAPHICS : Z := 0.

Definition VK_KHR_SWAPCHAIN_EXTENSION_NAME : string := "VK_KHR_swapchain".

(** ** Data model *)

Record VkExtent2D := mkExtent {
  width : Z;
  height : Z;
}.

Record VkSurfaceCapabilitiesKHR := mkCapabilities {
  minImageCount : Z;
  maxImageCount : Z;
  currentExtent : VkExtent2D;
  minImageExtent : VkExtent2D;
  maxImageExtent : VkExtent2D;
  currentTransform : Z;
}.

Record VkSurfaceFormatKHR := mkSurfaceFormat {
  format : Z;
  colorSpace : Z;
}.

Definition VkPresentModeKHR := Z.

(** [swapchain_support_details_t].  The C struct carries each array as a
    pointer and an element count; here an array is the list of its
    elements and the count is its length. *)
Record swapchain_support_details_t := mkDetails {
  capabilities : VkSurfaceCapabilitiesKHR;
  formats : list VkSurfaceFormatKHR;
  presentModes : list VkPresentModeKHR;
}.

Definition formatCount (details : swapchain_support_details_t) : Z :=
  Z.of_nat (length (formats details)).

Definition presentModeCount (details : swapchain_support_details_t) : Z :=
  Z.of_nat (length (presentModes details)).

(** [queue_family_indices_t] *)
Record queue_family_indices_t := mkIndices {
  graphicsFamily : Z;
  didSetGraphicsFamily : bool;
  presentFamily : Z;
  didSetPresentFamily : bool;
}.

(** ** Swapchain negotiation: the pure choosers *)

Definition is_preferred_format (f : VkSurfaceFormatKHR) : bool :=
  (format f =? VK_FORMAT_B8G8R8A8_UNORM)
  && (colorSpace f =? VK_COLOR_SPACE_SRGB_NONLINEAR_KHR).

(** The [for] loop of [ChooseSwapSurfaceFormat]: the first entry, in array
    order, that passes the test is returned from inside the loop. *)
Fixpoint ChooseSwapSurfaceFormat_loop (fs : list VkSurfaceFormatKHR)
  : option VkSurfaceFormatKHR :=
  match fs with
  | [] => None
  | f :: rest =>
      if is_preferred_format f then Some f
      else ChooseSwapSurfaceFormat_loop rest
  end.

(** [ChooseSwapSurfaceFormat].  [None] is the read of [formats[0]] from an
    array without elements, which C leaves undefined. *)
Definition ChooseSwapSurfaceFormat (details : swapchain_support_details_t)
  : option VkSurfaceFormatKHR :=
  match ChooseSwapSurfaceFormat_loop (formats details) with
  | Some f => Some f
  | None => formats details !! 0%nat
  end.

Fixpoint ChoosePresentMode_loop (ms : list VkPresentModeKHR)
  : option VkPresentModeKHR :=
  match ms with
  | [] => None
  | m :: rest =>
      if m =? VK_PRESENT_MODE_MAILBOX_KHR then Some m
      else ChoosePresentMode_loop rest
  end.

(** [ChoosePresentMode] *)
Definition ChoosePresentMode (details : swapchain_support_details_t)
  : VkPresentModeKHR :=
  match ChoosePresentMode_loop (presentModes details) with
  | Some m => m
  | None => VK_PRESENT_MODE_FIFO_KHR
  end.

(** [ChooseSwapExtent] *)
Definition ChooseSwapExtent (details : swapchain_support_details_t)
  : VkExtent2D :=
  let caps := capabilities details in
  if negb (width (currentExtent caps) =? U32.UINT32_MAX) then
    currentExtent caps
  else
    let actualExtent := mkExtent WIDTH HEIGHT in
    let w := MAX (width (minImageExtent caps))
                 (MIN (width (maxImageExtent caps)) (width actualExtent)) in
    let h := MAX (height (minImageExtent caps))
                 (MIN (height (maxImageExtent caps)) (height actualExtent)) in
    mkExtent w h.

(** The image count [CreateSwapChain] computes before it fills in the
    create info. *)
Definition CreateSwapChain_imageCount (caps : VkSurfaceCapabilitiesKHR) : Z :=
  let imageCount := U32.add (minImageCount caps) 1 in
  if (maxImageCount caps >? 0) && (imageCount >? maxImageCount caps)
  then maxImageCount caps
  else imageCount.

(** ** Structures handed to the Vulkan implementation *)

Record VkDeviceQueueCreateInfo := mkQueueCreateInfo {
  dq_queueFamilyIndex : Z;
  dq_queueCount : Z;
  dq_queuePriority : Z;            (* bit pattern of the [float] pointed to *)
}.

Record VkDeviceCreateInfo := mkDeviceCreateInfo {
  dc_pQueueCreateInfos : list VkDeviceQueueCreateInfo;
  dc_queueCreateInfoCount : Z;
  dc_enabledExtensionCount : Z;
  dc_ppEnabledExtensionNames : list string;
  dc_enabledLayerCount : Z;
}.

(** The entries of [pQueueCreateInfos] the implementation reads: the first
    [queueCreateInfoCount] ones. *)
Definition queue_create_entries (info : VkDeviceCreateInfo)
  : list VkDeviceQueueCreateInfo :=
  take (Z.to_nat (dc_queueCreateInfoCount info)) (dc_pQueueCreateInfos info).

(** A pointer to an array of [uint32_t]: [NULL], or an array of automatic
    storage duration together with whether its lifetime is still running.
    The lifetime of such an array ends when the block that declares it is
    left; the pointer keeps pointing at where the array was. *)
Inductive array_pointer :=
| NullPointer
| AutomaticArray (alive : bool) (contents : list Z).

(** What becomes of a pointer to an array declared in a block when the block
    is left. *)
Definition end_of_block (p : array_pointer) : array_pointer :=
  match p with
  | NullPointer => NullPointer
  | AutomaticArray _ contents => AutomaticArray false contents
  end.

Record VkSwapchainCreateInfoKHR := mkSwapchainCreateInfo {
  sc_surface : Z;
  sc_minImageCount : Z;
  sc_imageFormat : Z;
  sc_imageColorSpace : Z;
  sc_imageExtent : VkExtent2D;
  sc_imageArrayLayers : Z;
  sc_imageUsage : Z;
  sc_preTransform : Z;
  sc_compositeAlpha : Z;
  sc_presentMode : VkPresentModeKHR;
  sc_clipped : Z;
  sc_oldSwapchain : Z;
  sc_imageSharingMode : Z;
  sc_queueFamilyIndexCount : Z;
  sc_pQueueFamilyIndices : array_pointer;
}.

(** [VkViewport]; each [float] is given by its value, an integer in all six
    fields. *)
Record VkViewport := mkViewport {
  vp_x : Z;
  vp_y : Z;
  vp_width : Z;
  vp_height : Z;
  vp_minDepth : Z;
  vp_maxDepth : Z;
}.

(** [(float)x] for a [uint32_t] [x], by value: the nearest number with a
    24-bit significand, ties to the even significand (IEC 60559 binary32 in
    its default rounding mode).  Up to [2^24] the conversion is exact. *)
Definition float_of_uint32 (x : Z) : Z :=
  if x <? 2 ^ 24 then x
  else
    let ulp := 2 ^ (Z.log2 x - 23) in
    let q := x / ulp in
    let r := x mod ulp in
    if 2 * r <? ulp then q * ulp
    else if ulp <? 2 * r then (q + 1) * ulp
    else if Z.even q then q * ulp
    else (q + 1) * ulp.

Record VkImageViewCreateInfo := mkImageViewCreateInfo {
  iv_image : Z;
  iv_viewType : Z;
  iv_format : Z;
  iv_components : list Z;               (* r, g, b, a swizzles *)
  iv_aspectMask : Z;
  iv_baseMipLevel : Z;
  iv_levelCount : Z;
  iv_baseArrayLayer : Z;
  iv_layerCount : Z;
}.

Record VkFramebufferCreateInfo := mkFramebufferCreateInfo {
  fb_renderPass : Z;
  fb_attachmentCount : Z;
  fb_pAttachments : list Z;
  fb_width : Z;
  fb_height : Z;
  fb_layers : Z;
}.

Record VkRenderPassBeginInfo := mkRenderPassBeginInfo {
  rp_renderPass : Z;
  rp_framebuffer : Z;
  rp_renderArea_offset : Z * Z;
  rp_renderArea_extent : VkExtent2D;
  rp_clearValueCount : Z;
  rp_pClearValues : list (list Z);      (* each colour as four binary32 bit patterns *)
}.

(** What [vkCmd*] calls put into a command buffer. *)
Inductive Command :=
| CmdBeginRenderPass (info : VkRenderPassBeginInfo) (contents : Z)
| CmdBindPipeline (pipelineBindPoint : Z) (pipeline : Z)
| CmdDraw (vertexCount instanceCount firstVertex firstInstance : Z)
| CmdEndRenderPass.

(** ** The Vulkan implementation

    [Driver] is what the implementation and the window system report when
    asked; the program only reads it.  Handles are integers and
    [VK_NULL_HANDLE] is 0.  The enumerations and queries whose [VkResult]
    the source never looks at are modelled by what they deliver when they
    succeed: a query that fails is outside the model, as are a failing
    [calloc] and a failing [fopen]. *)

Record VkQueueFamilyProperties := mkQueueFamilyProperties {
  queueFlags : Z;
}.

Record Driver := mkDriver {
  (* SDL_Vulkan_GetInstanceExtensions *)
  drv_instanceExtensions : list string;
  (* vkEnumeratePhysicalDevices, in enumeration order *)
  drv_physicalDevices : list Z;
  (* vkGetPhysicalDeviceProperties: deviceType of a device *)
  drv_deviceType : Z -> Z;
  (* vkEnumerateDeviceExtensionProperties: extensionName of each entry *)
  drv_deviceExtensions : Z -> list string;
  (* vkGetPhysicalDeviceQueueFamilyProperties *)
  drv_queueFamilies : Z -> list VkQueueFamilyProperties;
  (* vkGetPhysicalDeviceSurfaceSupportKHR device family surface: the VkBool32 *)
  drv_surfaceSupport : Z -> Z -> Z -> Z;
  (* vkGetPhysicalDeviceSurfaceCapabilitiesKHR device surface *)
  drv_surfaceCapabilities : Z -> Z -> VkSurfaceCapabilitiesKHR;
  (* vkGetPhysicalDeviceSurfaceFormatsKHR device surface *)
  drv_surfaceFormats : Z -> Z -> list VkSurfaceFormatKHR;
  (* vkGetPhysicalDeviceSurfacePresentModesKHR device surface *)
  drv_presentModes : Z -> Z -> list VkPresentModeKHR;
  (* vkGetDeviceQueue device family index *)
  drv_deviceQueue : Z -> Z -> Z -> Z;
  (* how many images a swapchain created from this request owns *)
  drv_swapchainImages : VkSwapchainCreateInfoKHR -> nat;
  (* SDL_GetError *)
  drv_SDL_GetError : string;
  (* result of the n-th call that can be rejected, counted from the start
     of the program; 0 ([VK_SUCCESS]) accepts it *)
  drv_result : nat -> Z;
}.

(** The objects the implementation holds, by handle.  Each object keeps
    what it was created from; a command buffer keeps what has been recorded
    into it. *)
Inductive Object :=
| ObjInstance (extensions : list string)
| ObjSurface (instance : Z)
| ObjDevice (physical : Z) (info : VkDeviceCreateInfo)
| ObjSwapchain (info : VkSwapchainCreateInfoKHR) (images : list Z)
| ObjImage
| ObjImageView (info : VkImageViewCreateInfo)
| ObjShaderModule (resource : string)
| ObjRenderPass (attachmentFormat : Z)
| ObjPipelineLayout
| ObjPipeline (layout renderPass : Z) (viewport : VkViewport)
              (scissor : VkExtent2D) (stages : list Z)
| ObjFramebuffer (info : VkFramebufferCreateInfo)
| ObjCommandPool (queueFamilyIndex : Z)
| ObjCommandBuffer (pool : Z) (recorded : list Command)
| ObjSemaphore.

#[projections(primitive)]
Record World := mkWorld {
  w_calls : nat;                 (* rejectable calls made so far *)
  w_fresh : Z;                   (* the next handle to be handed out *)
  w_objects : gmap Z Object;
}.

#[projections(primitive)]
Record Globals := mkGlobals {
  vulkanInstance : Z;
  physicalDevice : Z;
  logicalDevice : Z;
  graphicsQueue : Z;
  presentQueue : Z;
  vulkanSurface : Z;
  queueFamilyIndices : queue_family_indices_t;
  swapChain : Z;
  swapchainImages : list Z;
  swapchainImageCount : Z;
  swapchainImageFormat : Z;
  swapchainExtent : VkExtent2D;
  swapChainImageViews : list Z;
  renderPass : Z;
  pipelineLayout : Z;
  graphicsPipeline : Z;
  swapchainFramebuffers : list Z;
  commandPool : Z;
  commandBuffers : list Z;
  imageAvailableSemaphore : Z;
  renderFinishedSemaphore : Z;
}.

Definition set_vulkanInstance (v : Z) (g : Globals) : Globals :=
  let '(mkGlobals _ x1 x2 x3 x4 x5 x6 x7 x8 x9 x10 x11 x12 x13 x14 x15 x16 x17 x18 x19 x20) := g in
  mkGlobals v x1 x2 x3 x4 x5 x6 x7 x8 x9 x10 x11 x12 x13 x14 x15 x16 x17 x18 x19 x20.

Definition set_physicalDevice (v : Z) (g : Globals) : Globals :=
  let '(mkGlobals x0 _ x2 x3 x4 x5 x6 x7 x8 x9 x10 x11 x12 x13 x14 x15 x16 x17 x18 x19 x20) := g in
  mkGlobals x0 v x2 x3 x4 x5 x6 x7 x8 x9 x10 x11 x12 x13 x14 x15 x16 x17 x18 x19 x20.

Definition set_logicalDevice (v : Z) (g : Globals) : Globals :=
  let '(mkGlobals x0 x1 _ x3 x4 x5 x6 x7 x8 x9 x10 x11 x12 x13 x14 x15 x16 x17 x18 x19 x20) := g in
  mkGlobals x0 x1 v x3 x4 x5 x6 x7 x8 x9 x10 x11 x12 x13 x14 x15 x16 x17 x18 x19 x20.

Definition set_graphicsQueue (v : Z) (g : Globals) : Globals :=
  let '(mkGlobals x0 x1 x2 _ x4 x5 x6 x7 x8 x9 x10 x11 x12 x13 x14 x15 x16 x17 x18 x19 x20) := g in
  mkGlobals x0 x1 x2 v x4 x5 x6 x7 x8 x9 x10 x11 x12 x13 x14 x15 x16 x17 x18 x19 x20.

Definition set_presentQueue (v : Z) (g : Globals) : Globals :=
  let '(mkGlobals x0 x1 x2 x3 _ x5 x6 x7 x8 x9 x10 x11 x12 x13 x14 x15 x16 x17 x18 x19 x20) := g in
  mkGlobals x0 x1 x2 x3 v x5 x6 x7 x8 x9 x10 x11 x12 x13 x14 x15 x16 x17 x18 x19 x20.

Definition set_vulkanSurface (v : Z) (g : Globals) : Globals :=
  let '(mkGlobals x0 x1 x2 x3 x4 _ x6 x7 x8 x9 x10 x11 x12 x13 x14 x15 x16 x17 x18 x19 x20) := g in
  mkGlobals x0 x1 x2 x3 x4 v x6 x7 x8 x9 x10 x11 x12 x13 x14 x15 x16 x17 x18 x19 x20.

Definition set_queueFamilyIndices (v : queue_family_indices_t) (g : Globals) : Globals :=
  let '(mkGlobals x0 x1 x2 x3 x4 x5 _ x7 x8 x9 x10 x11 x12 x13 x14 x15 x16 x17 x18 x19 x20) := g in
  mkGlobals x0 x1 x2 x3 x4 x5 v x7 x8 x9 x10 x11 x12 x13 x14 x15 x16 x17 x18 x19 x20.

Definition set_swapChain (v : Z) (g : Globals) : Globals :=
  let '(mkGlobals x0 x1 x2 x3 x4 x5 x6 _ x8 x9 x10 x11 x12 x13 x14 x15 x16 x17 x18 x19 x20) := g in
  mkGlobals x0 x1 x2 x3 x4 x5 x6 v x8 x9 x10 x11 x12 x13 x14 x15 x16 x17 x18 x19 x20.

Definition set_swapchainImages (v : list Z) (g : Globals) : Globals :=
  let '(mkGlobals x0 x1 x2 x3 x4 x5 x6 x7 _ x9 x10 x11 x12 x13 x14 x15 x16 x17 x18 x19 x20) := g in
  mkGlobals x0 x1 x2 x3 x4 x5 x6 x7 v x9 x10 x11 x12 x13 x14 x15 x16 x17 x18 x19 x20.

Definition set_swapchainImageCount (v : Z) (g : Globals) : Globals :=
  let '(mkGlobals x0 x1 x2 x3 x4 x5 x6 x7 x8 _ x10 x11 x12 x13 x14 x15 x16 x17 x18 x19 x20) := g in
  mkGlobals x0 x1 x2 x3 x4 x5 x6 x7 x8 v x10 x11 x12 x13 x14 x15 x16 x17 x18 x19 x20.

Definition set_swapchainImageFormat (v : Z) (g : Globals) : Globals :=
  let '(mkGlobals x0 x1 x2 x3 x4 x5 x6 x7 x8 x9 _ x11 x12 x13 x14 x15 x16 x17 x18 x19 x20) := g in
  mkGlobals x0 x1 x2 x3 x4 x5 x6 x7 x8 x9 v x11 x12 x13 x14 x15 x16 x17 x18 x19 x20.

Definition set_swapchainExtent (v : VkExtent2D) (g : Globals) : Globals :=
  let '(mkGlobals x0 x1 x2 x3 x4 x5 x6 x7 x8 x9 x10 _ x12 x13 x14 x15 x16 x17 x18 x19 x20) := g in
  mkGlobals x0 x1 x2 x3 x4 x5 x6 x7 x8 x9 x10 v x12 x13 x14 x15 x16 x17 x18 x19 x20.

Definition set_swapChainImageViews (v : list Z) (g : Globals) : Globals :=
  let '(mkGlobals x0 x1 x2 x3 x4 x5 x6 x7 x8 x9 x10 x11 _ x13 x14 x15 x16 x17 x18 x19 x20) := g in
  mkGlobals x0 x1 x2 x3 x4 x5 x6 x7 x8 x9 x10 x11 v x13 x14 x15 x16 x17 x18 x19 x20.

Definition set_renderPass (v : Z) (g : Globals) : Globals :=
  let '(mkGlobals x0 x1 x2 x3 x4 x5 x6 x7 x8 x9 x10 x11 x12 _ x14 x15 x16 x17 x18 x19 x20) := g in
  mkGlobals x0 x1 x2 x3 x4 x5 x6 x7 x8 x9 x10 x11 x12 v x14 x15 x16 x17 x18 x19 x20.

Definition set_pipelineLayout (v : Z) (g : Globals) : Globals :=
  let '(mkGlobals x0 x1 x2 x3 x4 x5 x6 x7 x8 x9 x10 x11 x12 x13 _ x15 x16 x17 x18 x19 x20) := g in
  mkGlobals x0 x1 x2 x3 x4 x5 x6 x7 x8 x9 x10 x11 x12 x13 v x15 x16 x17 x18 x19 x20.

Definition set_graphicsPipeline (v : Z) (g : Globals) : Globals :=
  let '(mkGlobals x0 x1 x2 x3 x4 x5 x6 x7 x8 x9 x10 x11 x12 x13 x14 _ x16 x17 x18 x19 x20) := g in
  mkGlobals x0 x1 x2 x3 x4 x5 x6 x7 x8 x9 x10 x11 x12 x13 x14 v x16 x17 x18 x19 x20.

Definition set_swapchainFramebuffers (v : list Z) (g : Globals) : Globals :=
  let '(mkGlobals x0 x1 x2 x3 x4 x5 x6 x7 x8 x9 x10 x11 x12 x13 x14 x15 _ x17 x18 x19 x20) := g in
  mkGlobals x0 x1 x2 x3 x4 x5 x6 x7 x8 x9 x10 x11 x12 x13 x14 x15 v x17 x18 x19 x20.

Definition set_commandPool (v : Z) (g : Globals) : Globals :=
  let '(mkGlobals x0 x1 x2 x3 x4 x5 x6 x7 x8 x9 x10 x11 x12 x13 x14 x15 x16 _ x18 x19 x20) := g in
  mkGlobals x0 x1 x2 x3 x4 x5 x6 x7 x8 x9 x10 x11 x12 x13 x14 x15 x16 v x18 x19 x20.

Definition set_commandBuffers (v : list Z) (g : Globals) : Globals :=
  let '(mkGlobals x0 x1 x2 x3 x4 x5 x6 x7 x8 x9 x10 x11 x12 x13 x14 x15 x16 x17 _ x19 x20) := g in
  mkGlobals x0 x1 x2 x3 x4 x5 x6 x7 x8 x9 x10 x11 x12 x13 x14 x15 x16 x17 v x19 x20.

Definition set_imageAvailableSemaphore (v : Z) (g : Globals) : Globals :=
  let '(mkGlobals x0 x1 x2 x3 x4 x5 x6 x7 x8 x9 x10 x11 x12 x13 x14 x15 x16 x17 x18 _ x20) := g in
  mkGlobals x0 x1 x2 x3 x4 x5 x6 x7 x8 x9 x10 x11 x12 x13 x14 x15 x16 x17 x18 v x20.

Definition set_renderFinishedSemaphore (v : Z) (g : Globals) : Globals :=
  let '(mkGlobals x0 x1 x2 x3 x4 x5 x6 x7 x8 x9 x10 x11 x12 x13 x14 x15 x16 x17 x18 x19 _) := g in
  mkGlobals x0 x1 x2 x3 x4 x5 x6 x7 x8 x9 x10 x11 x12 x13 x14 x15 x16 x17 x18 x19 v.


#[projections(primitive)]
Record State := mkState {
  globals : Globals;
  world : World;
}.

(** The values of the C globals when [main] starts: handles are
    [VK_NULL_HANDLE], [swapchainImageCount] is 0, everything else is
    zero-initialised static storage. *)
Definition initial_globals : Globals :=
  mkGlobals VK_NULL_HANDLE VK_NULL_HANDLE VK_NULL_HANDLE VK_NULL_HANDLE
    VK_NULL_HANDLE VK_NULL_HANDLE (mkIndices 0 false 0 false)
    0 [] 0 0 (mkExtent 0 0) [] 0 0 0 [] 0 [] 0 0.

Definition initial_world : World := mkWorld 0 1 ∅.

Definition initial_state : State := mkState initial_globals initial_world.

(** ** Control flow: state, fatal errors, undefined behaviour *)

Inductive outcome (A : Type) : Type :=
| Ok (a : A)
| Fatal (msg : string)     (* [_FatalError]: message on stderr, [exit(EXIT_FAILURE)] *)
| Undefined.               (* behaviour C or the Vulkan specification leaves undefined *)

Arguments Ok {A} a.
Arguments Fatal {A} msg.
Arguments Undefined {A}.

Definition M (A : Type) : Type := State -> outcome (A * State).

Definition ret {A} (a : A) : M A := fun st => Ok (a, st).

Definition bind {A B} (m : M A) (k : A -> M B) : M B :=
  fun st =>
    match m st with
    | Ok (a, st') => k a st'
    | Fatal msg => Fatal msg
    | Undefined => Undefined
    end.

Declare Scope prog_scope.
Delimit Scope prog_scope with prog.
Notation "x <- m ;; k" := (bind m (fun x => k))
  (at level 100, m at next level, right associativity) : prog_scope.
Notation "m ;; k" := (bind m (fun _ => k))
  (at level 100, right associativity) : prog_scope.
Local Open Scope prog_scope.

(** [FatalError(...)] *)
Definition FatalError {A} (msg : string) : M A := fun _ => Fatal msg.

Definition undefined {A} : M A := fun _ => Undefined.

Definition get_globals : M Globals := fun st => Ok (globals st, st).

Definition modify_globals (f : Globals -> Globals) : M unit :=
  fun st => Ok (tt, mkState (f (globals st)) (world st)).

Definition get_world : M World := fun st => Ok (world st, st).

Definition put_world (w : World) : M unit :=
  fun st => Ok (tt, mkState (globals st) w).

(** Reading [a[i]]; outside the array the behaviour is undefined. *)
Definition array_get {A} (a : list A) (i : nat) : M A :=
  match a !! i with
  | Some x => ret x
  | None => undefined
  end.

(** [if (c) FatalError(msg);] *)
Definition fatal_if (c : bool) (msg : string) : M unit :=
  if c then FatalError msg else ret tt.

(** [for (size_t i = start; i < start + n; i++) body(i)] *)
Fixpoint for_loop (n : nat) (i : nat) (body : nat -> M unit) : M unit :=
  match n with
  | O => ret tt
  | S n' => body i ;; for_loop n' (S i) body
  end.

(** ** Entry points of the implementation *)

(** The result code of the next rejectable call. *)
Definition next_result (drv : Driver) : M Z :=
  w <- get_world ;;
  put_world (mkWorld (S (w_calls w)) (w_fresh w) (w_objects w)) ;;
  ret (drv_result drv (w_calls w)).

(** Hand out a fresh handle bound to [o]. *)
Definition new_object (o : Object) : M Z :=
  w <- get_world ;;
  put_world (mkWorld (w_calls w) (w_fresh w + 1)
                     (<[w_fresh w := o]> (w_objects w))) ;;
  ret (w_fresh w).

Fixpoint new_objects (n : nat) (o : Object) : M (list Z) :=
  match n with
  | O => ret []
  | S n' => h <- new_object o ;; hs <- new_objects n' o ;; ret (h :: hs)
  end.

(** [vkCreate*]: the result code and, on success, the new handle.  On
    rejection the output handle is left as it was ([old]). *)
Definition vkCreate (drv : Driver) (o : Object) (old : Z) : M (Z * Z) :=
  r <- next_result drv ;;
  if r =? VK_SUCCESS then h <- new_object o ;; ret (r, h)
  else ret (r, old).

Definition lookup_object (h : Z) : M (option Object) :=
  w <- get_world ;; ret (w_objects w !! h).

Definition store_object (h : Z) (o : Object) : M unit :=
  w <- get_world ;;
  put_world (mkWorld (w_calls w) (w_fresh w) (<[h := o]> (w_objects w))).

(** What [vkCreateSwapchainKHR] reads through [pQueueFamilyIndices]: in
    concurrent sharing mode, [queueFamilyIndexCount] indices of an array
    that has to be alive; in exclusive mode the pointer is not looked at. *)
Definition family_indices_readable (info : VkSwapchainCreateInfoKHR) : bool :=
  if sc_imageSharingMode info =? VK_SHARING_MODE_CONCURRENT then
    match sc_pQueueFamilyIndices info with
    | AutomaticArray true contents =>
        sc_queueFamilyIndexCount info <=? Z.of_nat (length contents)
    | _ => false
    end
  else true.

(** [vkCreateSwapchainKHR]: the create info is read, family indices
    included; on success the swapchain owns as many images as the
    implementation decides for this request. *)
Definition vkCreateSwapchainKHR (drv : Driver)
    (info : VkSwapchainCreateInfoKHR) (old : Z) : M (Z * Z) :=
  if family_indices_readable info then
    r <- next_result drv ;;
    if r =? VK_SUCCESS then
      images <- new_objects (drv_swapchainImages drv info) ObjImage ;;
      h <- new_object (ObjSwapchain info images) ;;
      ret (r, h)
    else ret (r, old)
  else undefined.

(** [vkGetSwapchainImagesKHR]: the images of a swapchain. *)
Definition vkGetSwapchainImagesKHR (swapchain : Z) : M (list Z) :=
  o <- lookup_object swapchain ;;
  match o with
  | Some (ObjSwapchain _ images) => ret images
  | _ => undefined
  end.

(** [vkDestroyShaderModule] *)
Definition vkDestroyShaderModule (h : Z) : M unit :=
  o <- lookup_object h ;;
  match o with
  | Some (ObjShaderModule _) =>
      w <- get_world ;;
      put_world (mkWorld (w_calls w) (w_fresh w) (delete h (w_objects w)))
  | _ => undefined
  end.

(** [vkAllocateCommandBuffers]: [count] new, empty command buffers. *)
Definition vkAllocateCommandBuffers (drv : Driver) (pool : Z) (count : Z)
    (old : list Z) : M (Z * list Z) :=
  r <- next_result drv ;;
  if r =? VK_SUCCESS then
    hs <- new_objects (Z.to_nat count) (ObjCommandBuffer pool []) ;;
    ret (r, hs)
  else ret (r, old).

(** [vkBeginCommandBuffer]: recording starts from an empty buffer. *)
Definition vkBeginCommandBuffer (drv : Driver) (cb : Z) : M Z :=
  o <- lookup_object cb ;;
  match o with
  | Some (ObjCommandBuffer pool _) =>
      r <- next_result drv ;;
      if r =? VK_SUCCESS then store_object cb (ObjCommandBuffer pool []) ;; ret r
      else ret r
  | _ => undefined
  end.

(** Any [vkCmd*] call: the command is appended to the buffer. *)
Definition vkCmd (cb : Z) (c : Command) : M unit :=
  o <- lookup_object cb ;;
  match o with
  | Some (ObjCommandBuffer pool recorded) =>
      store_object cb (ObjCommandBuffer pool (recorded ++ [c]))
  | _ => undefined
  end.

(** [vkEndCommandBuffer] *)
Definition vkEndCommandBuffer (drv : Driver) (cb : Z) : M Z :=
  o <- lookup_object cb ;;
  match o with
  | Some (ObjCommandBuffer _ _) => next_result drv
  | _ => undefined
  end.

(** ** The program *)

Definition requiredExtensions : list string :=
  [VK_KHR_SWAPCHAIN_EXTENSION_NAME].

Definition rejected (result : Z) : bool := negb (result =? VK_SUCCESS).

(** [InitVulkanInstance] *)
Definition InitVulkanInstance (drv : Driver) : M unit :=
  g <- get_globals ;;
  rh <- vkCreate drv (ObjInstance (drv_instanceExtensions drv))
                 (vulkanInstance g) ;;
  modify_globals (set_vulkanInstance (snd rh)) ;;
  fatal_if (rejected (fst rh)) "Failed to create instance".

(** [IsDiscreteGPU] *)
Definition IsDiscreteGPU (drv : Driver) (device : Z) : bool :=
  drv_deviceType drv device =? VK_PHYSICAL_DEVICE_TYPE_DISCRETE_GPU.

(** The first loop of [PickPhysicalVulkanDevice]: the value of the global
    [physicalDevice] when the loop is left. *)
Fixpoint PickPhysicalVulkanDevice_loop (drv : Driver) (devices : list Z)
    (physicalDevice : Z) : Z :=
  match devices with
  | [] => physicalDevice
  | d :: rest =>
      if IsDiscreteGPU drv d then d
      else PickPhysicalVulkanDevice_loop drv rest physicalDevice
  end.

(** The inner loop over [properties], with its [found] flag. *)
Fixpoint extension_found (name : string) (properties : list string) : bool :=
  match properties with
  | [] => false
  | p :: rest => if String.eqb name p then true else extension_found name rest
  end.

Fixpoint check_required_extensions (required properties : list string)
  : M unit :=
  match required with
  | [] => ret tt
  | name :: rest =>
      fatal_if (negb (extension_found name properties))
               ("Could not find required extension " ++ name ++ ".") ;;
      check_required_extensions rest properties
  end.

(** [PickPhysicalVulkanDevice]; the note printed on stdout before the
    fallback to [devices[0]] is not part of the state. *)
Definition PickPhysicalVulkanDevice (drv : Driver) : M unit :=
  let devices := drv_physicalDevices drv in
  let deviceCount := Z.of_nat (length devices) in
  fatal_if (deviceCount =? 0) "Failed to find Vulkan-capable GPU" ;;
  modify_globals (fun g =>
    set_physicalDevice
      (PickPhysicalVulkanDevice_loop drv devices (physicalDevice g)) g) ;;
  g <- get_globals ;;
  (if physicalDevice g =? VK_NULL_HANDLE then
     d0 <- array_get devices 0 ;; modify_globals (set_physicalDevice d0)
   else ret tt) ;;
  g <- get_globals ;;
  let properties := drv_deviceExtensions drv (physicalDevice g) in
  let extensionCount := Z.of_nat (length properties) in
  fatal_if (extensionCount =? 0)
           "Returned zero available extensions for device." ;;
  check_required_extensions requiredExtensions properties.

(** The loop of [FindQueueFamilies], [n] iterations from index [i]. *)
Fixpoint FindQueueFamilies_loop (drv : Driver) (physicalDevice surface : Z)
    (n : nat) (i : Z) (indices : queue_family_indices_t)
  : queue_family_indices_t :=
  match n with
  | O => indices
  | S n' =>
      let indices :=
        mkIndices i true
                  (presentFamily indices) (didSetPresentFamily indices) in
      let surfaceSupported :=
        drv_surfaceSupport drv physicalDevice i surface in
      let indices :=
        if negb (surfaceSupported =? 0) then
          mkIndices (graphicsFamily indices) (didSetGraphicsFamily indices)
                    i true
        else indices in
      FindQueueFamilies_loop drv physicalDevice surface n' (i + 1) indices
  end.

(** [FindQueueFamilies] *)
Definition FindQueueFamilies (drv : Driver) : M queue_family_indices_t :=
  g <- get_globals ;;
  let indices := mkIndices 0 false 0 false in
  let queueFamilyCount :=
    Z.of_nat (length (drv_queueFamilies drv (physicalDevice g))) in
  if queueFamilyCount =? 0 then ret indices
  else
    ret (FindQueueFamilies_loop drv (physicalDevice g) (vulkanSurface g)
           (Z.to_nat queueFamilyCount) 0 indices).

(** Bit pattern of [1.0f]. *)
Definition float_1_0 : Z := 1065353216.

(** Bit pattern of [0.3f]. *)
Definition float_0_3 : Z := 1050253722.

(** The [VkDeviceCreateInfo] built by [CreateLogicalDevice]. *)
Definition CreateLogicalDevice_deviceCreateInfo
    (queueFamilyIndices : queue_family_indices_t) : VkDeviceCreateInfo :=
  let queuePriority := float_1_0 in
  let queueCreateInfos :=
    [ mkQueueCreateInfo (graphicsFamily queueFamilyIndices) 1 queuePriority;
      mkQueueCreateInfo (presentFamily queueFamilyIndices) 1 queuePriority ] in
  let queueCreateInfoCount :=
    if graphicsFamily queueFamilyIndices =? presentFamily queueFamilyIndices
    then 1 else 2 in
  mkDeviceCreateInfo queueCreateInfos queueCreateInfoCount
                     1 requiredExtensions 0.

(** [CreateLogicalDevice] *)
Definition CreateLogicalDevice (drv : Driver) : M unit :=
  indices <- FindQueueFamilies drv ;;
  modify_globals (set_queueFamilyIndices indices) ;;
  g <- get_globals ;;
  fatal_if (negb (didSetGraphicsFamily (queueFamilyIndices g)))
           "Failed to find graphics queue family." ;;
  fatal_if (negb (didSetPresentFamily (queueFamilyIndices g)))
           "Failed to find present queue family." ;;
  let deviceCreateInfo :=
    CreateLogicalDevice_deviceCreateInfo (queueFamilyIndices g) in
  rh <- vkCreate drv (ObjDevice (physicalDevice g) deviceCreateInfo)
                 (logicalDevice g) ;;
  modify_globals (set_logicalDevice (snd rh)) ;;
  fatal_if (rejected (fst rh)) "Failed to create logical device." ;;
  g <- get_globals ;;
  modify_globals (set_graphicsQueue
    (drv_deviceQueue drv (logicalDevice g)
                     (graphicsFamily (queueFamilyIndices g)) 0)) ;;
  modify_globals (set_presentQueue
    (drv_deviceQueue drv (logicalDevice g)
                     (presentFamily (queueFamilyIndices g)) 0)).

(** [CreateVulkanSurface]; [SDL_Vulkan_CreateSurface] either binds a new
    surface or reports failure. *)
Definition CreateVulkanSurface (drv : Driver) : M unit :=
  g <- get_globals ;;
  rh <- vkCreate drv (ObjSurface (vulkanInstance g)) (vulkanSurface g) ;;
  modify_globals (set_vulkanSurface (snd rh)) ;;
  fatal_if (rejected (fst rh))
           ("Failed to create Vulkan surface: " ++ drv_SDL_GetError drv).

(** [QuerySwapchainSupport]; the three queries are taken to deliver (the
    source does not look at their results). *)
Definition QuerySwapchainSupport (drv : Driver)
  : M swapchain_support_details_t :=
  g <- get_globals ;;
  ret (mkDetails
         (drv_surfaceCapabilities drv (physicalDevice g) (vulkanSurface g))
         (drv_surfaceFormats drv (physicalDevice g) (vulkanSurface g))
         (drv_presentModes drv (physicalDevice g) (vulkanSurface g))).

(** The [VkSwapchainCreateInfoKHR] built by [CreateSwapChain], as it is
    after the branch on the two queue families, when [vkCreateSwapchainKHR]
    gets it.  The array [indices] is declared in the block of the [if]: by
    then that block has been left. *)
Definition CreateSwapChain_createInfo (details : swapchain_support_details_t)
    (surfaceFormat : VkSurfaceFormatKHR) (vulkanSurface : Z)
    (queueFamilyIndices : queue_family_indices_t) : VkSwapchainCreateInfoKHR :=
  let presentMode := ChoosePresentMode details in
  let extent := ChooseSwapExtent details in
  let imageCount := CreateSwapChain_imageCount (capabilities details) in
  let createInfo (imageSharingMode queueFamilyIndexCount : Z)
                 (pQueueFamilyIndices : array_pointer) :=
    mkSwapchainCreateInfo vulkanSurface imageCount
      (format surfaceFormat) (colorSpace surfaceFormat) extent 1
      VK_IMAGE_USAGE_COLOR_ATTACHMENT_BIT
      (currentTransform (capabilities details))
      VK_COMPOSITE_ALPHA_OPAQUE_BIT_KHR presentMode VK_TRUE VK_NULL_HANDLE
      imageSharingMode queueFamilyIndexCount pQueueFamilyIndices in
  if negb (graphicsFamily queueFamilyIndices
             =? presentFamily queueFamilyIndices) then
    let indices :=
      AutomaticArray true [ graphicsFamily queueFamilyIndices;
                            presentFamily queueFamilyIndices ] in
    createInfo VK_SHARING_MODE_CONCURRENT 2 (end_of_block indices)
  else
    createInfo VK_SHARING_MODE_EXCLUSIVE 0 NullPointer.

(** [CreateSwapChain] *)
Definition CreateSwapChain (drv : Driver)
    (details : swapchain_support_details_t) : M unit :=
  match ChooseSwapSurfaceFormat details with
  | None => undefined
  | Some surfaceFormat =>
      let extent := ChooseSwapExtent details in
      g <- get_globals ;;
      let createInfo :=
        CreateSwapChain_createInfo details surfaceFormat (vulkanSurface g)
                                   (queueFamilyIndices g) in
      rh <- vkCreateSwapchainKHR drv createInfo (swapChain g) ;;
      modify_globals (set_swapChain (snd rh)) ;;
      fatal_if (rejected (fst rh)) "Failed to create swapchain." ;;
      g <- get_globals ;;
      images <- vkGetSwapchainImagesKHR (swapChain g) ;;
      modify_globals (set_swapchainImageCount (Z.of_nat (length images))) ;;
      modify_globals (set_swapchainImages images) ;;
      modify_globals (set_swapchainImageFormat (format surfaceFormat)) ;;
      modify_globals (set_swapchainExtent extent)
  end.

(** [calloc(count, sizeof(handle))] *)
Definition calloc (count : Z) : list Z :=
  replicate (Z.to_nat count) VK_NULL_HANDLE.

(** [CreateImageViews] *)
Definition CreateImageViews (drv : Driver) : M unit :=
  g <- get_globals ;;
  modify_globals (set_swapChainImageViews (calloc (swapchainImageCount g))) ;;
  for_loop (Z.to_nat (swapchainImageCount g)) 0 (fun i =>
    g <- get_globals ;;
    image <- array_get (swapchainImages g) i ;;
    let createInfo :=
      mkImageViewCreateInfo image VK_IMAGE_VIEW_TYPE_2D
        (swapchainImageFormat g)
        [ VK_COMPONENT_SWIZZLE_IDENTITY; VK_COMPONENT_SWIZZLE_IDENTITY;
          VK_COMPONENT_SWIZZLE_IDENTITY; VK_COMPONENT_SWIZZLE_IDENTITY ]
        VK_IMAGE_ASPECT_COLOR_BIT 0 1 0 1 in
    old <- array_get (swapChainImageViews g) i ;;
    rh <- vkCreate drv (ObjImageView createInfo) old ;;
    modify_globals (fun g =>
      set_swapChainImageViews (<[i := snd rh]> (swapChainImageViews g)) g) ;;
    fatal_if (rejected (fst rh)) "Failed to create image views.").

(** [CreateShaderModule]; the code is named by the resource it was read
    from. *)
Definition CreateShaderModule (drv : Driver) (resource : string) : M Z :=
  rh <- vkCreate drv (ObjShaderModule resource) VK_NULL_HANDLE ;;
  fatal_if (rejected (fst rh)) "Failed to create shader module." ;;
  ret (snd rh).

(** [CreateRenderPass]; of the constant description only the attachment
    format, which comes from the swapchain, is kept. *)
Definition CreateRenderPass (drv : Driver) : M unit :=
  g <- get_globals ;;
  rh <- vkCreate drv (ObjRenderPass (swapchainImageFormat g)) (renderPass g) ;;
  modify_globals (set_renderPass (snd rh)) ;;
  fatal_if (rejected (fst rh)) "Failed to create render pass.".

(** The [VkViewport] filled in by [CreateGraphicsPipeline]. *)
Definition CreateGraphicsPipeline_viewport (swapchainExtent : VkExtent2D)
  : VkViewport :=
  mkViewport 0 0 (float_of_uint32 (width swapchainExtent))
             (float_of_uint32 (height swapchainExtent)) 0 1.

(** [CreateGraphicsPipeline]; of the constant fixed-function state only what
    depends on earlier steps is kept: layout, render pass, the viewport with
    its two sizes converted to [float], the extent of the scissor rectangle
    (its offset is zero) and the two shader stages. *)
Definition CreateGraphicsPipeline (drv : Driver) : M unit :=
  vertexShaderModule <- CreateShaderModule drv "vertex.spv" ;;
  fragmentShaderModule <- CreateShaderModule drv "fragment.spv" ;;
  let shaderStages := [vertexShaderModule; fragmentShaderModule] in
  g <- get_globals ;;
  rh <- vkCreate drv ObjPipelineLayout (pipelineLayout g) ;;
  modify_globals (set_pipelineLayout (snd rh)) ;;
  fatal_if (rejected (fst rh)) "Failed to create pipeline layout." ;;
  g <- get_globals ;;
  let viewport := CreateGraphicsPipeline_viewport (swapchainExtent g) in
  let scissor := swapchainExtent g in
  rh <- vkCreate drv
          (ObjPipeline (pipelineLayout g) (renderPass g) viewport scissor
                       shaderStages)
          (graphicsPipeline g) ;;
  modify_globals (set_graphicsPipeline (snd rh)) ;;
  fatal_if (rejected (fst rh)) "Failed to create graphics pipeline." ;;
  vkDestroyShaderModule fragmentShaderModule ;;
  vkDestroyShaderModule vertexShaderModule.

(** [CreateFramebuffers] *)
Definition CreateFramebuffers (drv : Driver) : M unit :=
  g <- get_globals ;;
  modify_globals
    (set_swapchainFramebuffers (calloc (swapchainImageCount g))) ;;
  for_loop (Z.to_nat (swapchainImageCount g)) 0 (fun i =>
    g <- get_globals ;;
    view <- array_get (swapChainImageViews g) i ;;
    let attachments := [view] in
    let framebufferInfo :=
      mkFramebufferCreateInfo (renderPass g) 1 attachments
        (width (swapchainExtent g)) (height (swapchainExtent g)) 1 in
    old <- array_get (swapchainFramebuffers g) i ;;
    rh <- vkCreate drv (ObjFramebuffer framebufferInfo) old ;;
    modify_globals (fun g =>
      set_swapchainFramebuffers
        (<[i := snd rh]> (swapchainFramebuffers g)) g) ;;
    fatal_if (rejected (fst rh)) "Failed to create framebuffer.").

(** [CreateCommandPool] *)
Definition CreateCommandPool (drv : Driver) : M unit :=
  g <- get_globals ;;
  rh <- vkCreate drv
          (ObjCommandPool (graphicsFamily (queueFamilyIndices g)))
          (commandPool g) ;;
  modify_globals (set_commandPool (snd rh)) ;;
  fatal_if (rejected (fst rh)) "Failed to create command pool.".

(** The commands [CreateCommandBuffers] records for one image. *)
Definition clearColor : list Z :=
  [float_0_3; float_0_3; float_0_3; float_1_0].

(** One iteration of the recording loop of [CreateCommandBuffers]. *)
Definition CreateCommandBuffers_record (drv : Driver) (i : nat) : M unit :=
  g <- get_globals ;;
  cb <- array_get (commandBuffers g) i ;;
  r <- vkBeginCommandBuffer drv cb ;;
  fatal_if (rejected r) "Failed to begin recording command buffer." ;;
  framebuffer <- array_get (swapchainFramebuffers g) i ;;
  let renderPassInfo :=
    mkRenderPassBeginInfo (renderPass g) framebuffer (0, 0)
                          (swapchainExtent g) 1 [clearColor] in
  vkCmd cb (CmdBeginRenderPass renderPassInfo VK_SUBPASS_CONTENTS_INLINE) ;;
  vkCmd cb (CmdBindPipeline VK_PIPELINE_BIND_POINT_GRAPHICS
                            (graphicsPipeline g)) ;;
  vkCmd cb (CmdDraw 3 1 0 0) ;;
  vkCmd cb CmdEndRenderPass ;;
  r <- vkEndCommandBuffer drv cb ;;
  fatal_if (rejected r) "Failed to record command buffer.".

(** [CreateCommandBuffers] *)
Definition CreateCommandBuffers (drv : Driver) : M unit :=
  g <- get_globals ;;
  modify_globals (set_commandBuffers (calloc (swapchainImageCount g))) ;;
  g <- get_globals ;;
  rhs <- vkAllocateCommandBuffers drv (commandPool g) (swapchainImageCount g)
                                  (commandBuffers g) ;;
  modify_globals (set_commandBuffers (snd rhs)) ;;
  fatal_if (rejected (fst rhs)) "Failed to allocate command buffers." ;;
  for_loop (Z.to_nat (swapchainImageCount g)) 0
           (CreateCommandBuffers_record drv).

(** [CreateSemaphores] *)
Definition CreateSemaphores (drv : Driver) : M unit :=
  g <- get_globals ;;
  rh <- vkCreate drv ObjSemaphore (imageAvailableSemaphore g) ;;
  modify_globals (set_imageAvailableSemaphore (snd rh)) ;;
  fatal_if (rejected (fst rh)) "Failed to create image available semaphore." ;;
  g <- get_globals ;;
  rh <- vkCreate drv ObjSemaphore (renderFinishedSemaphore g) ;;
  modify_globals (set_renderFinishedSemaphore (snd rh)) ;;
  fatal_if (rejected (fst rh)) "Failed to create render finished semaphore.".

(** The initialisation sequence of [main]: every call between the creation
    of the window and [DrawFrame]. *)
Definition main_initialization (drv : Driver) : M unit :=
  InitVulkanInstance drv ;;
  CreateVulkanSurface drv ;;
  PickPhysicalVulkanDevice drv ;;
  CreateLogicalDevice drv ;;
  swapchainDetails <- QuerySwapchainSupport drv ;;
  fatal_if ((formatCount swapchainDetails =? 0)
            || (presentModeCount swapchainDetails =? 0))
           "No valid swapchain configuration found." ;;
  CreateSwapChain drv swapchainDetails ;;
  CreateImageViews drv ;;
  CreateRenderPass drv ;;
  CreateGraphicsPipeline drv ;;
  CreateFramebuffers drv ;;
  CreateCommandPool drv ;;
  CreateCommandBuffers drv ;;
  CreateSemaphores drv.

(** ** Vocabulary of the statements *)

(** Component-wise order on extents. *)
Definition extent_le (a b : VkExtent2D) : Prop :=
  width a <= width b /\ height a <= height b.

(** The test [ChooseSwapExtent] applies to recognise the "undefined"
    current extent. *)
Definition extent_undefined (e : VkExtent2D) : Prop :=
  width e = U32.UINT32_MAX.

(** The preferred surface format: 8-bit BGRA with the sRGB non-linear
    colour space. *)
Definition preferred_format (f : VkSurfaceFormatKHR) : Prop :=
  format f = VK_FORMAT_B8G8R8A8_UNORM
  /\ colorSpace f = VK_COLOR_SPACE_SRGB_NONLINEAR_KHR.

(** A queue family exposes graphics capability when its flags contain
    [VK_QUEUE_GRAPHICS_BIT]. *)
Definition supports_graphics (q : VkQueueFamilyProperties) : bool :=
  negb (Z.land (queueFlags q) VK_QUEUE_GRAPHICS_BIT =? 0).

(** Presentation support of family [i] of [physicalDevice] to [surface]. *)
Definition supports_present (drv : Driver) (physicalDevice surface : Z)
    (i : Z) : bool :=
  negb (drv_surfaceSupport drv physicalDevice i surface =? 0).

(** [i] is the last index below [n] at which [p] holds. *)
Definition last_index_below (p : Z -> bool) (n i : Z) : Prop :=
  0 <= i < n /\ p i = true /\ forall j, i < j < n -> p j = false.

(** Graphics capability of family [i] in a family list. *)
Definition graphics_at (families : list VkQueueFamilyProperties) (i : Z)
  : bool :=
  match families !! Z.to_nat i with
  | Some q => supports_graphics q
  | None => false
  end.

(** The recording expected in the command buffer of the image whose
    framebuffer is [framebuffer]. *)
Definition recorded_commands (g : Globals) (framebuffer : Z) : list Command :=
  [ CmdBeginRenderPass
      (mkRenderPassBeginInfo (renderPass g) framebuffer (0, 0)
                             (swapchainExtent g) 1 [clearColor])
      VK_SUBPASS_CONTENTS_INLINE;
    CmdBindPipeline VK_PIPELINE_BIND_POINT_GRAPHICS (graphicsPipeline g);
    CmdDraw 3 1 0 0;
    CmdEndRenderPass ].

(** Outcomes that end the process through [FatalError]. *)
Definition fails_fatally {A} (o : outcome A) : Prop :=
  exists msg, o = Fatal msg.


(** ** Reasoning about runs

    [wp m Q st]: if [m] run from [st] returns, it returns a value and a
    state that satisfy [Q]. *)
Definition wp {A} (m : M A) (Q : A -> State -> Prop) (st : State) : Prop :=
  match m st with
  | Ok (a, st') => Q a st'
  | Fatal _ => True
  | Undefined => True
  end.

(** The states the implementation moves through. *)
Definition bump (st : State) : State :=
  mkState (globals st)
          (mkWorld (S (w_calls (world st))) (w_fresh (world st))
                   (w_objects (world st))).

Definition alloc (o : Object) (st : State) : State :=
  mkState (globals st)
          (mkWorld (w_calls (world st)) (w_fresh (world st) + 1)
                   (<[w_fresh (world st) := o]> (w_objects (world st)))).

Definition store (h : Z) (o : Object) (st : State) : State :=
  mkState (globals st)
          (mkWorld (w_calls (world st)) (w_fresh (world st))
                   (<[h := o]> (w_objects (world st)))).

Definition remove (h : Z) (st : State) : State :=
  mkState (globals st)
          (mkWorld (w_calls (world st)) (w_fresh (world st))
                   (delete h (w_objects (world st)))).

Definition with_globals (f : Globals -> Globals) (st : State) : State :=
  mkState (f (globals st)) (world st).

Definition objects (st : State) : gmap Z Object := w_objects (world st).

Definition fresh (st : State) : Z := w_fresh (world st).

(** Every handle in use lies below the next fresh one. *)
Definition sound (st : State) : Prop :=
  forall h o, objects st !! h = Some o -> h < fresh st.

(** [st'] has every object of [st], unchanged. *)
Definition grows (st st' : State) : Prop :=
  fresh st <= fresh st'
  /\ forall h o, objects st !! h = Some o -> objects st' !! h = Some o.

(** The per-image resources agree: the four arrays have the length read
    back from the swapchain, and at every index the view looks at the image,
    the framebuffer wraps the view, and the command buffer holds the
    recording for the framebuffer. *)
Definition images_consistent (st : State) : Prop :=
  let g := globals st in
  let n := Z.to_nat (swapchainImageCount g) in
  length (swapchainImages g) = n
  /\ length (swapChainImageViews g) = n
  /\ length (swapchainFramebuffers g) = n
  /\ length (commandBuffers g) = n
  /\ forall i cb,
      commandBuffers g !! i = Some cb ->
      exists image view fb vinfo finfo,
        swapchainImages g !! i = Some image
        /\ swapChainImageViews g !! i = Some view
        /\ swapchainFramebuffers g !! i = Some fb
        /\ objects st !! view = Some (ObjImageView vinfo)
        /\ iv_image vinfo = image
        /\ objects st !! fb = Some (ObjFramebuffer finfo)
        /\ fb_pAttachments finfo = [view]
        /\ fb_attachmentCount finfo = 1
        /\ objects st !! cb
           = Some (ObjCommandBuffer (commandPool g) (recorded_commands g fb)).

(** The logical device and the swapchain were created from the recorded
    queue family indices. *)
Definition queues_consistent (st : State) : Prop :=
  let g := globals st in
  exists physical details surfaceFormat images,
    objects st !! logicalDevice g
    = Some (ObjDevice physical
              (CreateLogicalDevice_deviceCreateInfo (queueFamilyIndices g)))
    /\ objects st !! swapChain g
       = Some (ObjSwapchain
                 (CreateSwapChain_createInfo details surfaceFormat
                    (vulkanSurface g) (queueFamilyIndices g))
                 images)
    /\ swapchainImages g = images
    /\ swapchainImageCount g = Z.of_nat (length images).

(** ** Sample inputs *)

Module Samples.

Definition undefined_extent : VkExtent2D :=
  mkExtent U32.UINT32_MAX U32.UINT32_MAX.

(** A surface that leaves the extent to the swapchain, with the usual
    bounds. *)
Definition caps_free : VkSurfaceCapabilitiesKHR :=
  mkCapabilities 2 3 undefined_extent (mkExtent 1 1) (mkExtent 4096 4096) 1.

(** Bounds that do not contain the window size. *)
Definition caps_small : VkSurfaceCapabilitiesKHR :=
  mkCapabilities 2 3 undefined_extent (mkExtent 1 1) (mkExtent 640 480) 1.

(** Inverted bounds: the minimum exceeds the maximum. *)
Definition caps_inverted : VkSurfaceCapabilitiesKHR :=
  mkCapabilities 2 3 undefined_extent
                 (mkExtent 1000 1000) (mkExtent 500 500) 1.

(** A surface with a fixed extent. *)
Definition caps_fixed : VkSurfaceCapabilitiesKHR :=
  mkCapabilities 2 3 (mkExtent 1024 768) (mkExtent 1024 768)
                 (mkExtent 1024 768) 1.

(** A current extent whose height alone carries the sentinel value and
    whose width lies outside the bounds. *)
Definition caps_odd : VkSurfaceCapabilitiesKHR :=
  mkCapabilities 2 3 (mkExtent 5000 U32.UINT32_MAX) (mkExtent 1 1)
                 (mkExtent 4096 4096) 1.

Definition details_of (caps : VkSurfaceCapabilitiesKHR)
  : swapchain_support_details_t :=
  mkDetails caps [mkSurfaceFormat 50 0; mkSurfaceFormat 44 0] [2; 1].

(** A platform with one discrete GPU on which every call succeeds and a
    swapchain gets as many images as requested.  The queue families and
    their presentation support are parameters. *)
Definition platform (families : list VkQueueFamilyProperties)
    (present : Z -> Z) : Driver :=
  mkDriver ["VK_KHR_surface"] [7]
    (fun _ => VK_PHYSICAL_DEVICE_TYPE_DISCRETE_GPU)
    (fun _ => ["VK_KHR_maintenance1"; "VK_KHR_swapchain"])
    (fun _ => families)
    (fun _ i _ => present i)
    (fun _ _ => caps_free)
    (fun _ _ => [mkSurfaceFormat 50 0; mkSurfaceFormat 44 0])
    (fun _ _ => [2; 1])
    (fun _ family _ => 100 + family)
    (fun info => Z.to_nat (sc_minImageCount info))
    "no error"
    (fun _ => VK_SUCCESS).

(** One family that does graphics and presentation. *)
Definition combined : Driver :=
  platform [mkQueueFamilyProperties 7] (fun _ => VK_TRUE).

(** A presentation-only family followed by a graphics family that cannot
    present. *)
Definition separate : Driver :=
  platform [mkQueueFamilyProperties 4; mkQueueFamilyProperties 1]
           (fun i => if i =? 0 then VK_TRUE else VK_FALSE).

(** An integrated GPU enumerated before two discrete ones. *)
Definition three_gpus : Driver :=
  mkDriver ["VK_KHR_surface"] [5; 7; 9]
    (fun d => if d =? 5 then 1 else VK_PHYSICAL_DEVICE_TYPE_DISCRETE_GPU)
    (fun _ => ["VK_KHR_maintenance1"; "VK_KHR_swapchain"])
    (fun _ => [mkQueueFamilyProperties 7])
    (fun _ _ _ => VK_TRUE)
    (fun _ _ => caps_free)
    (fun _ _ => [mkSurfaceFormat 44 0])
    (fun _ _ => [2])
    (fun _ family _ => 100 + family)
    (fun info => Z.to_nat (sc_minImageCount info))
    "no error"
    (fun _ => VK_SUCCESS).

(** A family that does graphics and presentation, followed by a
    compute-only family that cannot present. *)
Definition compute_last : Driver :=
  platform [mkQueueFamilyProperties 1; mkQueueFamilyProperties 2]
           (fun i => if i =? 0 then VK_TRUE else VK_FALSE).

(** A single compute-only family that can present. *)
Definition compute_only : Driver :=
  platform [mkQueueFamilyProperties 2] (fun _ => VK_TRUE).

(** A single graphics family that cannot present. *)
Definition graphics_only : Driver :=
  platform [mkQueueFamilyProperties 1] (fun _ => VK_FALSE).

(** The state in which [main] reaches [DrawFrame]. *)
Definition ready (drv : Driver) : State :=
  match main_initialization drv initial_state with
  | Ok (_, st) => st
  | _ => initial_state
  end.

End Samples.

(** ** The frame and the teardown

    What [main] does once the initialisation has returned. *)

Definition UINT64_MAX : Z := 2 ^ 64 - 1.
Definition VK_SUBOPTIMAL_KHR : Z := 1000001003.
Definition VK_PIPELINE_STAGE_COLOR_ATTACHMENT_OUTPUT_BIT : Z := 1024.

Record VkSubmitInfo := mkSubmitInfo {
  si_waitSemaphoreCount : Z;
  si_pWaitSemaphores : list Z;
  si_pWaitDstStageMask : list Z;
  si_commandBufferCount : Z;
  si_pCommandBuffers : list Z;
  si_signalSemaphoreCount : Z;
  si_pSignalSemaphores : list Z;
}.

Record VkPresentInfoKHR := mkPresentInfo {
  pi_waitSemaphoreCount : Z;
  pi_pWaitSemaphores : list Z;
  pi_swapchainCount : Z;
  pi_pSwapchains : list Z;
  pi_pImageIndices : list Z;
}.

(** The calls [DrawFrame] makes on the swapchain and the queues, in order. *)
Inductive QueueCall :=
| AcquireNextImage (device swapchain timeout semaphore fence : Z)
| QueueSubmit (queue submitCount : Z) (info : VkSubmitInfo) (fence : Z)
| QueuePresent (queue : Z) (info : VkPresentInfoKHR).

(** [vkAcquireNextImageKHR] stores an image index only when it returns one
    of its two success codes. *)
Definition acquire_stores (result : Z) : bool :=
  (result =? VK_SUCCESS) || (result =? VK_SUBOPTIMAL_KHR).

(** Reading [a[i]] for a [uint32_t] index. *)
Definition array_get_u32 {A} (a : list A) (i : Z) : M A :=
  if i <? 0 then undefined else array_get a (Z.to_nat i).

(** [vkQueueSubmit] of one command buffer; the buffer has to be a live
    command buffer. *)
Definition vkQueueSubmit (drv : Driver) (cb : Z) : M Z :=
  o <- lookup_object cb ;;
  match o with
  | Some (ObjCommandBuffer _ _) => next_result drv
  | _ => undefined
  end.

(** [DrawFrame].  [next_image] is the index the implementation hands out if
    the acquire succeeds; the local [imageIndex] is uninitialised otherwise,
    and the program reads it without looking at the result of the acquire.
    The value returned is the list of calls made. *)
Definition DrawFrame (drv : Driver) (next_image : Z) : M (list QueueCall) :=
  g <- get_globals ;;
  acquired <- next_result drv ;;
  let acquire :=
    AcquireNextImage (logicalDevice g) (swapChain g) UINT64_MAX
                     (imageAvailableSemaphore g) VK_NULL_HANDLE in
  imageIndex <- (if acquire_stores acquired then ret next_image
                 else undefined) ;;
  let waitSemaphores := [imageAvailableSemaphore g] in
  let waitStages := [VK_PIPELINE_STAGE_COLOR_ATTACHMENT_OUTPUT_BIT] in
  let signalSemaphores := [renderFinishedSemaphore g] in
  cb <- array_get_u32 (commandBuffers g) imageIndex ;;
  let submitInfo :=
    mkSubmitInfo 1 waitSemaphores waitStages 1 [cb] 1 signalSemaphores in
  r <- vkQueueSubmit drv cb ;;
  fatal_if (rejected r) "Failed to submit draw command buffer." ;;
  let swapchains := [swapChain g] in
  let presentInfo :=
    mkPresentInfo 1 signalSemaphores 1 swapchains [imageIndex] in
  _ <- next_result drv ;;
  ret [ acquire;
        QueueSubmit (graphicsQueue g) 1 submitInfo VK_NULL_HANDLE;
        QueuePresent (presentQueue g) presentInfo ].

(** Kinds of objects, as the destroy calls tell them apart. *)
Definition is_semaphore (o : Object) : bool :=
  match o with ObjSemaphore => true | _ => false end.

Definition is_framebuffer (o : Object) : bool :=
  match o with ObjFramebuffer _ => true | _ => false end.

Definition is_pipeline (o : Object) : bool :=
  match o with ObjPipeline _ _ _ _ _ => true | _ => false end.

Definition is_pipeline_layout (o : Object) : bool :=
  match o with ObjPipelineLayout => true | _ => false end.

Definition is_render_pass (o : Object) : bool :=
  match o with ObjRenderPass _ => true | _ => false end.

Definition is_image_view (o : Object) : bool :=
  match o with ObjImageView _ => true | _ => false end.

Definition is_command_pool (o : Object) : bool :=
  match o with ObjCommandPool _ => true | _ => false end.

Definition is_surface (o : Object) : bool :=
  match o with ObjSurface _ => true | _ => false end.

Definition is_device (o : Object) : bool :=
  match o with ObjDevice _ _ => true | _ => false end.

Definition is_instance (o : Object) : bool :=
  match o with ObjInstance _ => true | _ => false end.

(** Objects that are children of the instance rather than of a device. *)
Definition instance_level (o : Object) : bool :=
  is_instance o || is_surface o.

Definition put_objects (objs : gmap Z Object) : M unit :=
  w <- get_world ;; put_world (mkWorld (w_calls w) (w_fresh w) objs).

(** A [vkDestroy*] call on a handle of the kind [kind]: nothing happens on
    [VK_NULL_HANDLE]; a live object of that kind goes away; anything else (a
    handle destroyed before, or of another kind) is invalid. *)
Definition destroy_object (kind : Object -> bool) (h : Z) : M unit :=
  if h =? VK_NULL_HANDLE then ret tt
  else
    o <- lookup_object h ;;
    match o with
    | Some x =>
        if kind x then w <- get_world ;; put_objects (delete h (w_objects w))
        else undefined
    | None => undefined
    end.

(** The command buffers allocated from [pool]. *)
Definition allocated_from (pool : Z) (o : Object) : bool :=
  match o with ObjCommandBuffer p _ => p =? pool | _ => false end.

(** [vkDestroyCommandPool]: the pool goes away together with every command
    buffer allocated from it. *)
Definition vkDestroyCommandPool (h : Z) : M unit :=
  if h =? VK_NULL_HANDLE then ret tt
  else
    o <- lookup_object h ;;
    match o with
    | Some (ObjCommandPool _) =>
        w <- get_world ;;
        put_objects
          (omap (fun x => if allocated_from h x then None else Some x)
                (delete h (w_objects w)))
    | _ => undefined
    end.

(** [vkDestroySwapchainKHR]: the swapchain goes away together with the
    images it owns. *)
Definition vkDestroySwapchainKHR (h : Z) : M unit :=
  if h =? VK_NULL_HANDLE then ret tt
  else
    o <- lookup_object h ;;
    match o with
    | Some (ObjSwapchain _ images) =>
        w <- get_world ;;
        put_objects (foldr delete (delete h (w_objects w)) images)
    | _ => undefined
    end.

(** No swapchain created for [surface] is left. *)
Definition surface_unused (surface : Z) (objs : gmap Z Object) : bool :=
  forallb (fun '(_, o) =>
             match o with
             | ObjSwapchain info _ => negb (sc_surface info =? surface)
             | _ => true
             end)
          (map_to_list objs).

(** [vkDestroySurfaceKHR]: every swapchain created for the surface has to
    be gone. *)
Definition vkDestroySurfaceKHR (h : Z) : M unit :=
  if h =? VK_NULL_HANDLE then ret tt
  else
    w <- get_world ;;
    if surface_unused h (w_objects w) then destroy_object is_surface h
    else undefined.

(** Everything but [h] itself passes [keep]. *)
Definition only_left (keep : Object -> bool) (h : Z) (objs : gmap Z Object)
  : bool :=
  forallb (fun '(k, o) => (k =? h) || keep o) (map_to_list objs).

(** [vkDestroyDevice]: every object created on the device has to be gone. *)
Definition vkDestroyDevice (h : Z) : M unit :=
  if h =? VK_NULL_HANDLE then ret tt
  else
    w <- get_world ;;
    if only_left instance_level h (w_objects w) then destroy_object is_device h
    else undefined.

(** [vkDestroyInstance]: every object created from the instance has to be
    gone. *)
Definition vkDestroyInstance (h : Z) : M unit :=
  if h =? VK_NULL_HANDLE then ret tt
  else
    w <- get_world ;;
    if only_left (fun _ => false) h (w_objects w)
    then destroy_object is_instance h
    else undefined.

(** The teardown at the end of [main], from [vkDestroySemaphore] to
    [vkDestroyInstance]. *)
Definition main_teardown : M unit :=
  g <- get_globals ;;
  destroy_object is_semaphore (renderFinishedSemaphore g) ;;
  destroy_object is_semaphore (imageAvailableSemaphore g) ;;
  vkDestroyCommandPool (commandPool g) ;;
  for_loop (Z.to_nat (swapchainImageCount g)) 0 (fun i =>
    g <- get_globals ;;
    fb <- array_get (swapchainFramebuffers g) i ;;
    destroy_object is_framebuffer fb) ;;
  g <- get_globals ;;
  destroy_object is_pipeline (graphicsPipeline g) ;;
  destroy_object is_pipeline_layout (pipelineLayout g) ;;
  destroy_object is_render_pass (renderPass g) ;;
  for_loop (Z.to_nat (swapchainImageCount g)) 0 (fun i =>
    g <- get_globals ;;
    view <- array_get (swapChainImageViews g) i ;;
    destroy_object is_image_view view) ;;
  g <- get_globals ;;
  vkDestroySwapchainKHR (swapChain g) ;;
  vkDestroySurfaceKHR (vulkanSurface g) ;;
  vkDestroyDevice (logicalDevice g) ;;
  vkDestroyInstance (vulkanInstance g).

(** ** Vocabulary of the whole-run statements *)

(** [safe m Q st]: [m] run from [st] stays within defined behaviour, and if
    it returns, it returns a value and a state that satisfy [Q]. *)
Definition safe {A} (m : M A) (Q : A -> State -> Prop) (st : State) : Prop :=
  match m st with
  | Ok (a, st') => Q a st'
  | Fatal _ => True
  | Undefined => False
  end.

(** Every rejectable call made so far was accepted. *)
Definition accepted (drv : Driver) (st : State) : Prop :=
  forall k, (k < w_calls (world st))%nat -> drv_result drv k = VK_SUCCESS.

(** [n] consecutive handles from [base]. *)
Definition handles (base : Z) (n : nat) : list Z :=
  map (fun i => base + Z.of_nat i) (seq 0 n).

(** One step of the initialisation, from [st] to [st']: the step keeps the
    store sound, had all its calls accepted, handed out [k] handles and left
    every older object as it was. *)
Definition stage (drv : Driver) (st st' : State) (k : Z) : Prop :=
  sound st' /\ accepted drv st'
  /\ fresh st' = fresh st + k
  /\ forall h, h < fresh st -> objects st' !! h = objects st !! h.

(** The create infos [CreateImageViews] and [CreateFramebuffers] fill in. *)
Definition image_view_info (image format : Z) : VkImageViewCreateInfo :=
  mkImageViewCreateInfo image VK_IMAGE_VIEW_TYPE_2D format
    [ VK_COMPONENT_SWIZZLE_IDENTITY; VK_COMPONENT_SWIZZLE_IDENTITY;
      VK_COMPONENT_SWIZZLE_IDENTITY; VK_COMPONENT_SWIZZLE_IDENTITY ]
    VK_IMAGE_ASPECT_COLOR_BIT 0 1 0 1.

Definition framebuffer_info (renderPass view : Z) (extent : VkExtent2D)
  : VkFramebufferCreateInfo :=
  mkFramebufferCreateInfo renderPass 1 [view] (width extent) (height extent) 1.

(** The store after a successful initialisation that found [n] swapchain
    images, handle by handle. *)
Definition inventory (drv : Driver) (g : Globals)
    (info : VkSwapchainCreateInfoKHR) (n : nat) (h : Z) : option Object :=
  let m := Z.of_nat n in
  if h <? 1 then None
  else if h =? 1 then Some (ObjInstance (drv_instanceExtensions drv))
  else if h =? 2 then Some (ObjSurface 1)
  else if h =? 3 then
    Some (ObjDevice (physicalDevice g)
            (CreateLogicalDevice_deviceCreateInfo (queueFamilyIndices g)))
  else if h <? 4 + m then Some ObjImage
  else if h =? 4 + m then Some (ObjSwapchain info (handles 4 n))
  else if h <? 5 + 2 * m then
    Some (ObjImageView
            (image_view_info (h - (1 + m)) (swapchainImageFormat g)))
  else if h =? 5 + 2 * m then Some (ObjRenderPass (swapchainImageFormat g))
  else if h <? 8 + 2 * m then None
  else if h =? 8 + 2 * m then Some ObjPipelineLayout
  else if h =? 9 + 2 * m then
    Some (ObjPipeline (8 + 2 * m) (5 + 2 * m)
            (CreateGraphicsPipeline_viewport (swapchainExtent g))
            (swapchainExtent g)
            [6 + 2 * m; 7 + 2 * m])
  else if h <? 10 + 3 * m then
    Some (ObjFramebuffer
            (framebuffer_info (5 + 2 * m) (h - (5 + m)) (swapchainExtent g)))
  else if h =? 10 + 3 * m then
    Some (ObjCommandPool (graphicsFamily (queueFamilyIndices g)))
  else if h <? 11 + 4 * m then
    Some (ObjCommandBuffer (10 + 3 * m) (recorded_commands g (h - (1 + m))))
  else if h <? 13 + 4 * m then Some ObjSemaphore
  else None.

(** What [QuerySwapchainSupport] returns while the globals are [g]. *)
Definition reported_details (drv : Driver) (g : Globals)
  : swapchain_support_details_t :=
  mkDetails
    (drv_surfaceCapabilities drv (physicalDevice g) (vulkanSurface g))
    (drv_surfaceFormats drv (physicalDevice g) (vulkanSurface g))
    (drv_presentModes drv (physicalDevice g) (vulkanSurface g)).

(** The state after a successful initialisation that found [n] swapchain
    images: where every global points, what the store holds, and that every
    call was accepted. *)
Definition laid_out (drv : Driver) (n : nat) (st : State) : Prop :=
  let g := globals st in
  let m := Z.of_nat n in
  accepted drv st
  /\ fresh st = 13 + 4 * m
  /\ vulkanInstance g = 1
  /\ vulkanSurface g = 2
  /\ logicalDevice g = 3
  /\ swapchainImages g = handles 4 n
  /\ swapchainImageCount g = m
  /\ swapChain g = 4 + m
  /\ swapChainImageViews g = handles (5 + m) n
  /\ renderPass g = 5 + 2 * m
  /\ pipelineLayout g = 8 + 2 * m
  /\ graphicsPipeline g = 9 + 2 * m
  /\ swapchainFramebuffers g = handles (10 + 2 * m) n
  /\ commandPool g = 10 + 3 * m
  /\ commandBuffers g = handles (11 + 3 * m) n
  /\ imageAvailableSemaphore g = 11 + 4 * m
  /\ renderFinishedSemaphore g = 12 + 4 * m
  /\ exists surfaceFormat,
      let details := reported_details drv g in
      let info :=
        CreateSwapChain_createInfo details surfaceFormat 2
          (queueFamilyIndices g) in
      ChooseSwapSurfaceFormat details = Some surfaceFormat
      /\ swapchainImageFormat g = format surfaceFormat
      /\ swapchainExtent g = ChooseSwapExtent details
      /\ n = drv_swapchainImages drv info
      /\ forall h, objects st !! h = inventory drv g info n h.



(** [returns m Q st]: [m] run from [st] returns, with a value and a state
    that satisfy [Q]. *)
Definition returns {A} (m : M A) (Q : A -> State -> Prop) (st : State)
  : Prop :=
  match m st with
  | Ok (a, st') => Q a st'
  | Fatal _ => False
  | Undefined => False
  end.


(** Every handle the globals hold. *)
Definition owned (g : Globals) : list Z :=
  [ vulkanInstance g; vulkanSurface g; logicalDevice g; swapChain g;
    renderPass g; pipelineLayout g; graphicsPipeline g; commandPool g;
    imageAvailableSemaphore g; renderFinishedSemaphore g ]
  ++ swapchainImages g ++ swapChainImageViews g
  ++ swapchainFramebuffers g ++ commandBuffers g.

(** The part of a store description below the handle [b]. *)
Definition cut (I : Z -> option Object) (b h : Z) : option Object :=
  if h <? b then I h else None.

(** The part below [hi], without the [j] handles from [lo] on. *)
Definition gap (I : Z -> option Object) (lo j hi h : Z) : option Object :=
  if (lo <=? h) && (h <? lo + j) then None else cut I hi h.

(** A state with the globals [g] whose store is [f], handle by handle. *)
Definition described (g : Globals) (f : Z -> option Object) (st : State)
  : Prop :=
  globals st = g /\ forall h, objects st !! h = f h.

(** What [FindQueueFamilies] returns for a device and a surface. *)
Definition scanned_families (drv : Driver) (physicalDevice surface : Z)
  : queue_family_indices_t :=
  let n := length (drv_queueFamilies drv physicalDevice) in
  match n with
  | O => mkIndices 0 false 0 false
  | S _ =>
      FindQueueFamilies_loop drv physicalDevice surface n 0
        (mkIndices 0 false 0 false)
  end.

(** On every device that can be selected, and for every surface, the scan
    records one and the same family for graphics and for presentation. *)
Definition one_family (drv : Driver) : Prop :=
  forall d s, d ∈ drv_physicalDevices drv ->
              graphicsFamily (scanned_families drv d s)
              = presentFamily (scanned_families drv d s).

(** [safe_unless U m Q st]: as [safe m Q st], except that [m] may run into
    undefined behaviour when [U] holds. *)
Definition safe_unless (U : Prop) {A} (m : M A) (Q : A -> State -> Prop)
    (st : State) : Prop :=
  match m st with
  | Ok (a, st') => Q a st'
  | Fatal _ => True
  | Undefined => U
  end.


(** The frame [main] draws on a platform once it is ready, for the image
    index 0: the calls made and the state left. *)
Definition ready_frame (drv : Driver) : list QueueCall * State :=
  match DrawFrame drv 0 (Samples.ready drv) with
  | Ok r => r
  | _ => ([], initial_state)
  end.

(** ** Arithmetic of the macros *)

Lemma MAX_spec x y : MAX x y = Z.max x y.
Proof. unfold MAX. destruct (Z.gtb_spec x y); lia. Qed.

Lemma MIN_spec x y : MIN x y = Z.min x y.
Proof. unfold MIN. destruct (Z.ltb_spec x y); lia. Qed.

(** ** ChooseSwapExtent *)

Lemma ChooseSwapExtent_current details :
  ~ extent_undefined (currentExtent (capabilities details)) ->
  ChooseSwapExtent details = currentExtent (capabilities details).
Proof.
  unfold extent_undefined, ChooseSwapExtent. intros Hne.
  destruct (Z.eqb_spec (width (currentExtent (capabilities details)))
                       U32.UINT32_MAX) as [Heq | _]; [contradiction | reflexivity].
Qed.

Lemma ChooseSwapExtent_clamped details :
  extent_undefined (currentExtent (capabilities details)) ->
  ChooseSwapExtent details =
    mkExtent
      (Z.max (width (minImageExtent (capabilities details)))
             (Z.min (width (maxImageExtent (capabilities details))) 800))
      (Z.max (height (minImageExtent (capabilities details)))
             (Z.min (height (maxImageExtent (capabilities details))) 600)).
Proof.
  unfold extent_undefined, ChooseSwapExtent. intros ->.
  rewrite Z.eqb_refl. cbn [negb width height].
  now rewrite !MAX_spec, !MIN_spec.
Qed.

(** C3 as stated fails: with inverted bounds no extent lies between the
    minimum and the maximum, and the one returned exceeds the maximum. *)
Lemma ChooseSwapExtent_inverted_bounds :
  extent_undefined (currentExtent Samples.caps_inverted)
  /\ ~ (extent_le (minImageExtent Samples.caps_inverted)
                  (ChooseSwapExtent (Samples.details_of Samples.caps_inverted))
        /\ extent_le (ChooseSwapExtent (Samples.details_of Samples.caps_inverted))
                     (maxImageExtent Samples.caps_inverted)).
Proof.
  split; [reflexivity |].
  intros [_ [Hw _]]. vm_compute in Hw. apply Hw. reflexivity.
Qed.

(** C3, amended: when the current extent is the undefined sentinel (the
    width is [UINT32_MAX]) and the minimum extent does not exceed the maximum
    component-wise, the extent chosen for the request (800,600) lies between
    the minimum and the maximum component-wise, and is (800,600) itself when
    that lies within the bounds; when the current extent is not the sentinel,
    the current extent is returned as reported. *)
Theorem ChooseSwapExtent_spec (details : swapchain_support_details_t) :
  let caps := capabilities details in
  (extent_undefined (currentExtent caps) ->
   extent_le (minImageExtent caps) (maxImageExtent caps) ->
   extent_le (minImageExtent caps) (ChooseSwapExtent details)
   /\ extent_le (ChooseSwapExtent details) (maxImageExtent caps)
   /\ (extent_le (minImageExtent caps) (mkExtent 800 600) ->
       extent_le (mkExtent 800 600) (maxImageExtent caps) ->
       ChooseSwapExtent details = mkExtent 800 600))
  /\ (~ extent_undefined (currentExtent caps) ->
      ChooseSwapExtent details = currentExtent caps).
Proof.
  intros caps. split.
  - intros Hu [Hw Hh]. rewrite (ChooseSwapExtent_clamped details Hu).
    fold caps. unfold extent_le. cbn [width height].
    repeat split; try lia.
    intros [Hw1 Hh1] [Hw2 Hh2]. cbn [width height] in *. f_equal; lia.
  - apply ChooseSwapExtent_current.
Qed.

Lemma ChooseSwapExtent_spec_witness :
  ChooseSwapExtent (Samples.details_of Samples.caps_free) = mkExtent 800 600
  /\ extent_le (ChooseSwapExtent (Samples.details_of Samples.caps_small))
               (mkExtent 640 480)
  /\ ChooseSwapExtent (Samples.details_of Samples.caps_fixed)
     = mkExtent 1024 768.
Proof.
  split; [| split].
  - apply (ChooseSwapExtent_spec (Samples.details_of Samples.caps_free)).
    + reflexivity.
    + split; vm_compute; discriminate.
    + split; vm_compute; discriminate.
    + split; vm_compute; discriminate.
  - apply (ChooseSwapExtent_spec (Samples.details_of Samples.caps_small)).
    + reflexivity.
    + split; vm_compute; discriminate.
  - apply (ChooseSwapExtent_spec (Samples.details_of Samples.caps_fixed)).
    vm_compute. discriminate.
Defined.

(** C10: only the width of the current extent is inspected.  Whenever the
    width differs from [UINT32_MAX] the current extent is returned as
    reported, whatever its height and whatever the bounds; whenever the width
    is [UINT32_MAX] the result is clamped from (800,600) and does not depend
    on the reported height. *)
Theorem ChooseSwapExtent_width_only (details : swapchain_support_details_t) :
  let caps := capabilities details in
  (width (currentExtent caps) <> U32.UINT32_MAX ->
   ChooseSwapExtent details = currentExtent caps)
  /\ (width (currentExtent caps) = U32.UINT32_MAX ->
      forall h : Z,
        ChooseSwapExtent details =
        ChooseSwapExtent
          (mkDetails
             (mkCapabilities (minImageCount caps) (maxImageCount caps)
                (mkExtent U32.UINT32_MAX h)
                (minImageExtent caps) (maxImageExtent caps)
                (currentTransform caps))
             (formats details) (presentModes details))).
Proof.
  intros caps. split.
  - intros Hne. now apply ChooseSwapExtent_current.
  - intros Heq h. rewrite !ChooseSwapExtent_clamped; [reflexivity | reflexivity | exact Heq].
Qed.

Lemma ChooseSwapExtent_width_only_witness :
  ChooseSwapExtent (Samples.details_of Samples.caps_odd)
  = mkExtent 5000 U32.UINT32_MAX
  /\ ChooseSwapExtent (Samples.details_of Samples.caps_free)
     = ChooseSwapExtent
         (mkDetails
            (mkCapabilities 2 3 (mkExtent U32.UINT32_MAX 7)
                            (mkExtent 1 1) (mkExtent 4096 4096) 1)
            [mkSurfaceFormat 50 0; mkSurfaceFormat 44 0] [2; 1]).
Proof.
  split.
  - apply (ChooseSwapExtent_width_only (Samples.details_of Samples.caps_odd)).
    vm_compute. discriminate.
  - apply (ChooseSwapExtent_width_only (Samples.details_of Samples.caps_free)).
    reflexivity.
Defined.

(** ** Image count *)

Lemma U32_add_small x y :
  0 <= x + y < U32.modulus -> U32.add x y = x + y.
Proof. intros H. unfold U32.add, U32.wrap. now apply Z.mod_small. Qed.

(** C4: the image count is [minImageCount + 1] in [uint32_t] arithmetic
    (the plain sum whenever it fits in 32 bits); it is used as it is when
    [maxImageCount] is zero and is capped to [maxImageCount] otherwise.  For
    min=2, max=2 the count is 2 and for min=1, max=0 it is 2. *)
Theorem CreateSwapChain_imageCount_spec (caps : VkSurfaceCapabilitiesKHR) :
  U32.in_range (minImageCount caps) ->
  U32.in_range (maxImageCount caps) ->
  (maxImageCount caps = 0 ->
   CreateSwapChain_imageCount caps = U32.add (minImageCount caps) 1)
  /\ (maxImageCount caps <> 0 ->
      CreateSwapChain_imageCount caps
      = Z.min (U32.add (minImageCount caps) 1) (maxImageCount caps))
  /\ (minImageCount caps < U32.UINT32_MAX ->
      U32.add (minImageCount caps) 1 = minImageCount caps + 1)
  /\ (minImageCount caps = 2 -> maxImageCount caps = 2 ->
      CreateSwapChain_imageCount caps = 2)
  /\ (minImageCount caps = 1 -> maxImageCount caps = 0 ->
      CreateSwapChain_imageCount caps = 2).
Proof.
  unfold U32.in_range, U32.UINT32_MAX. intros Hmin Hmax.
  unfold CreateSwapChain_imageCount.
  repeat split.
  - intros ->. reflexivity.
  - intros Hnz.
    destruct (Z.gtb_spec (maxImageCount caps) 0); [| lia].
    cbn [andb].
    destruct (Z.gtb_spec (U32.add (minImageCount caps) 1)
                         (maxImageCount caps)); lia.
  - intros Hlt. apply U32_add_small. lia.
  - intros -> ->. reflexivity.
  - intros -> ->. reflexivity.
Qed.

Lemma CreateSwapChain_imageCount_spec_witness :
  CreateSwapChain_imageCount
    (mkCapabilities 2 2 Samples.undefined_extent
                    (mkExtent 1 1) (mkExtent 4096 4096) 1) = 2
  /\ CreateSwapChain_imageCount
       (mkCapabilities 1 0 Samples.undefined_extent
                       (mkExtent 1 1) (mkExtent 4096 4096) 1) = 2.
Proof.
  split.
  - destruct (CreateSwapChain_imageCount_spec
                (mkCapabilities 2 2 Samples.undefined_extent
                                (mkExtent 1 1) (mkExtent 4096 4096) 1))
      as (_ & _ & _ & H & _).
    + vm_compute. split; [discriminate | reflexivity].
    + vm_compute. split; [discriminate | reflexivity].
    + apply H; reflexivity.
  - destruct (CreateSwapChain_imageCount_spec
                (mkCapabilities 1 0 Samples.undefined_extent
                                (mkExtent 1 1) (mkExtent 4096 4096) 1))
      as (_ & _ & _ & _ & H).
    + vm_compute. split; [discriminate | reflexivity].
    + vm_compute. split; [discriminate | reflexivity].
    + apply H; reflexivity.
Defined.

(** ** Format and present-mode selection *)

Lemma is_preferred_format_spec f :
  is_preferred_format f = true <-> preferred_format f.
Proof.
  unfold is_preferred_format, preferred_format.
  rewrite andb_true_iff, !Z.eqb_eq. tauto.
Qed.

Lemma ChooseSwapSurfaceFormat_loop_found fs f :
  ChooseSwapSurfaceFormat_loop fs = Some f ->
  f ∈ fs /\ preferred_format f.
Proof.
  induction fs as [| e rest IH]; cbn; [discriminate |].
  destruct (is_preferred_format e) eqn:He.
  - intros [= ->]. split; [left | now apply is_preferred_format_spec].
  - intros H. destruct (IH H) as [Hin Hp]. split; [now right | exact Hp].
Qed.

Lemma ChooseSwapSurfaceFormat_loop_none fs :
  ChooseSwapSurfaceFormat_loop fs = None <->
  forall e, e ∈ fs -> ~ preferred_format e.
Proof.
  induction fs as [| e rest IH]; cbn.
  - split; [| reflexivity]. intros _ e He. inversion He.
  - destruct (is_preferred_format e) eqn:He.
    + split; [discriminate |]. intros H. exfalso.
      apply (H e); [left | now apply is_preferred_format_spec].
    + rewrite IH. split.
      * intros H x Hx. inversion Hx; subst; [| now apply H].
        rewrite <- is_preferred_format_spec. congruence.
      * intros H x Hx. apply H. now right.
Qed.

(** C6: on a non-empty format list [ChooseSwapSurfaceFormat] returns a
    format; the result is the (BGRA 8-bit, sRGB non-linear) pair when some
    entry of the list is that pair and the first entry of the list when none
    is. *)
Theorem ChooseSwapSurfaceFormat_spec (details : swapchain_support_details_t) :
  formats details <> [] ->
  exists f,
    ChooseSwapSurfaceFormat details = Some f
    /\ ((exists e, e ∈ formats details /\ preferred_format e) ->
        f = mkSurfaceFormat VK_FORMAT_B8G8R8A8_UNORM
                            VK_COLOR_SPACE_SRGB_NONLINEAR_KHR)
    /\ ((forall e, e ∈ formats details -> ~ preferred_format e) ->
        formats details !! 0%nat = Some f).
Proof.
  intros Hne. unfold ChooseSwapSurfaceFormat.
  destruct (ChooseSwapSurfaceFormat_loop (formats details)) as [f |] eqn:Hloop.
  - exists f. destruct (ChooseSwapSurfaceFormat_loop_found _ _ Hloop)
      as [Hin [Hf Hc]].
    split; [reflexivity | split].
    + intros _. destruct f as [a b]. cbn in Hf, Hc. now subst.
    + intros Hnone. exfalso. apply (Hnone f Hin). now split.
  - destruct (formats details) as [| f0 rest] eqn:Hfs; [contradiction |].
    exists f0. split; [reflexivity | split].
    + intros [e [Hin Hp]]. exfalso.
      rewrite ChooseSwapSurfaceFormat_loop_none in Hloop.
      exact (Hloop e Hin Hp).
    + intros _. reflexivity.
Qed.

Lemma ChooseSwapSurfaceFormat_spec_witness :
  exists f,
    ChooseSwapSurfaceFormat
      (mkDetails Samples.caps_free
                 [mkSurfaceFormat 50 0; mkSurfaceFormat 37 0] [2]) = Some f
    /\ f = mkSurfaceFormat 50 0.
Proof.
  destruct (ChooseSwapSurfaceFormat_spec
              (mkDetails Samples.caps_free
                 [mkSurfaceFormat 50 0; mkSurfaceFormat 37 0] [2]))
    as [f [Hf [_ Hfirst]]]; [discriminate |].
  exists f. split; [exact Hf |].
  assert (Hsome : Some (mkSurfaceFormat 50 0) = Some f).
  { apply Hfirst. intros e He [Hfmt _].
    cbn in He. rewrite !elem_of_cons in He.
    destruct He as [-> | [-> | He]]; [discriminate | discriminate | inversion He]. }
  now inversion Hsome.
Defined.

Lemma ChoosePresentMode_loop_found ms m :
  ChoosePresentMode_loop ms = Some m ->
  m = VK_PRESENT_MODE_MAILBOX_KHR /\ m ∈ ms.
Proof.
  induction ms as [| e rest IH]; cbn; [discriminate |].
  destruct (Z.eqb_spec e VK_PRESENT_MODE_MAILBOX_KHR) as [He | He].
  - intros [= <-]. split; [exact He | left].
  - intros H. destruct (IH H). split; [assumption | now right].
Qed.

Lemma ChoosePresentMode_loop_none ms :
  ChoosePresentMode_loop ms = None <-> VK_PRESENT_MODE_MAILBOX_KHR ∉ ms.
Proof.
  induction ms as [| e rest IH]; cbn.
  - split; [| reflexivity]. intros _ H. inversion H.
  - destruct (Z.eqb_spec e VK_PRESENT_MODE_MAILBOX_KHR) as [He | He].
    + split; [discriminate |]. intros H. exfalso. apply H. subst. left.
    + rewrite IH, not_elem_of_cons. split; [now split | tauto].
Qed.

(** C7: [ChoosePresentMode] returns the mailbox mode when the list contains
    it and FIFO when it does not, whether or not FIFO is in the list. *)
Theorem ChoosePresentMode_spec (details : swapchain_support_details_t) :
  (VK_PRESENT_MODE_MAILBOX_KHR ∈ presentModes details ->
   ChoosePresentMode details = VK_PRESENT_MODE_MAILBOX_KHR)
  /\ (VK_PRESENT_MODE_MAILBOX_KHR ∉ presentModes details ->
      ChoosePresentMode details = VK_PRESENT_MODE_FIFO_KHR).
Proof.
  unfold ChoosePresentMode.
  destruct (ChoosePresentMode_loop (presentModes details)) as [m |] eqn:Hloop.
  - destruct (ChoosePresentMode_loop_found _ _ Hloop) as [-> Hin].
    split; [reflexivity | contradiction].
  - rewrite ChoosePresentMode_loop_none in Hloop.
    split; [contradiction | reflexivity].
Qed.

Lemma ChoosePresentMode_spec_witness :
  ChoosePresentMode (mkDetails Samples.caps_free [] [2; 1; 0])
  = VK_PRESENT_MODE_MAILBOX_KHR
  /\ ChoosePresentMode (mkDetails Samples.caps_free [] [0; 3])
     = VK_PRESENT_MODE_FIFO_KHR.
Proof.
  split.
  - apply (ChoosePresentMode_spec (mkDetails Samples.caps_free [] [2; 1; 0])).
    cbn. rewrite !elem_of_cons. right. left. reflexivity.
  - apply (ChoosePresentMode_spec (mkDetails Samples.caps_free [] [0; 3])).
    cbn. rewrite !not_elem_of_cons. repeat split; try discriminate.
    apply not_elem_of_nil.
Defined.

(** ** Rules for [wp] *)

Section WpRules.

Context {A B : Type}.

Lemma wp_ret (a : A) (Q : A -> State -> Prop) st :
  Q a st -> wp (ret a) Q st.
Proof. intros H. exact H. Qed.

Lemma wp_bind (m : M A) (k : A -> M B) (Q : B -> State -> Prop) st :
  wp m (fun a st' => wp (k a) Q st') st -> wp (bind m k) Q st.
Proof.
  unfold wp, bind. destruct (m st) as [[a st'] | msg |]; auto.
Qed.

Lemma wp_mono (m : M A) (Q Q' : A -> State -> Prop) st :
  (forall a st', Q a st' -> Q' a st') -> wp m Q st -> wp m Q' st.
Proof.
  unfold wp. intros HQ. destruct (m st) as [[a st'] | msg |]; auto.
Qed.

Lemma wp_Ok (m : M A) (Q : A -> State -> Prop) st a st' :
  wp m Q st -> m st = Ok (a, st') -> Q a st'.
Proof. unfold wp. intros H Hrun. now rewrite Hrun in H. Qed.

Lemma wp_FatalError (msg : string) (Q : A -> State -> Prop) st :
  wp (FatalError msg) Q st.
Proof. exact I. Qed.

Lemma wp_undefined (Q : A -> State -> Prop) st : wp undefined Q st.
Proof. exact I. Qed.

Lemma wp_array_get (a : list A) i (Q : A -> State -> Prop) st :
  (forall x, a !! i = Some x -> Q x st) -> wp (array_get a i) Q st.
Proof.
  intros H. unfold array_get. destruct (a !! i) as [x |]; [| exact I].
  now apply H.
Qed.

End WpRules.

Lemma wp_get_globals (Q : Globals -> State -> Prop) st :
  Q (globals st) st -> wp get_globals Q st.
Proof. intros H. exact H. Qed.

Lemma wp_modify_globals f (Q : unit -> State -> Prop) st :
  Q tt (with_globals f st) -> wp (modify_globals f) Q st.
Proof. intros H. exact H. Qed.

Lemma wp_fatal_if c msg (Q : unit -> State -> Prop) st :
  (c = false -> Q tt st) -> wp (fatal_if c msg) Q st.
Proof. intros H. destruct c; [exact I | now apply H]. Qed.

(** The loop rule: [I j] holds before iteration [j]. *)
Lemma wp_for_loop (I : nat -> State -> Prop) body n :
  forall i st,
    I i st ->
    (forall j st', (i <= j < i + n)%nat -> I j st' ->
                   wp (body j) (fun _ st'' => I (S j) st'') st') ->
    wp (for_loop n i body) (fun _ st' => I (i + n)%nat st') st.
Proof.
  induction n as [| n IH]; intros i st Hi Hbody; cbn [for_loop].
  - apply wp_ret. now rewrite Nat.add_0_r.
  - apply wp_bind. eapply wp_mono; [| apply (Hbody i st); [lia | exact Hi]].
    intros u st' Hst'. cbn beta in *.
    replace (i + S n)%nat with (S i + n)%nat by lia.
    apply IH; [exact Hst' |].
    intros j st'' Hj. apply Hbody. lia.
Qed.

(** ** The object store *)

Lemma grows_refl st : grows st st.
Proof. split; [reflexivity | auto]. Qed.

Lemma grows_trans st1 st2 st3 : grows st1 st2 -> grows st2 st3 -> grows st1 st3.
Proof. intros [H1 K1] [H2 K2]. split; [lia | auto]. Qed.

Lemma sound_with_globals f st : sound st -> sound (with_globals f st).
Proof. intros H. exact H. Qed.

Lemma grows_with_globals f st : grows st (with_globals f st).
Proof. exact (grows_refl st). Qed.

Lemma sound_bump st : sound st -> sound (bump st).
Proof. intros H. exact H. Qed.

Lemma grows_bump st : grows st (bump st).
Proof. exact (grows_refl st). Qed.

Lemma objects_alloc_eq o st : objects (alloc o st) !! fresh st = Some o.
Proof. apply lookup_insert_eq. Qed.

Lemma objects_alloc_ne o st h :
  h <> fresh st -> objects (alloc o st) !! h = objects st !! h.
Proof. intros Hne. apply lookup_insert_ne. unfold fresh in Hne. congruence. Qed.

Lemma sound_alloc o st : sound st -> sound (alloc o st).
Proof.
  intros Hs h o' Hh. change (fresh (alloc o st)) with (fresh st + 1).
  destruct (decide (h = fresh st)) as [-> | Hne]; [lia |].
  rewrite objects_alloc_ne in Hh by exact Hne. apply Hs in Hh. lia.
Qed.

Lemma grows_alloc o st : sound st -> grows st (alloc o st).
Proof.
  intros Hs. split.
  - change (fresh (alloc o st)) with (fresh st + 1). lia.
  - intros h o' Hh. rewrite objects_alloc_ne; [exact Hh |].
    apply Hs in Hh. lia.
Qed.

Lemma objects_store_eq h o st : objects (store h o st) !! h = Some o.
Proof. apply lookup_insert_eq. Qed.

Lemma objects_store_ne h o st h' :
  h' <> h -> objects (store h o st) !! h' = objects st !! h'.
Proof. intros Hne. apply lookup_insert_ne. congruence. Qed.

Lemma sound_store h o o' st :
  objects st !! h = Some o' -> sound st -> sound (store h o st).
Proof.
  intros Hh Hs k ok Hk. change (fresh (store h o st)) with (fresh st).
  destruct (decide (k = h)) as [-> | Hne]; [now apply Hs in Hh |].
  rewrite objects_store_ne in Hk by exact Hne. now apply Hs in Hk.
Qed.

Lemma objects_remove_ne h st h' :
  h' <> h -> objects (remove h st) !! h' = objects st !! h'.
Proof. intros Hne. apply lookup_delete_ne. congruence. Qed.

Lemma sound_remove h st : sound st -> sound (remove h st).
Proof.
  intros Hs k ok Hk. change (fresh (remove h st)) with (fresh st).
  destruct (decide (k = h)) as [-> | Hne].
  - unfold objects, remove in Hk. cbn in Hk.
    rewrite lookup_delete_eq in Hk. discriminate.
  - rewrite objects_remove_ne in Hk by exact Hne. now apply Hs in Hk.
Qed.

Lemma grows_with_globals_r f st0 st :
  grows st0 st -> grows st0 (with_globals f st).
Proof. intros H. exact H. Qed.

Lemma grows_bump_r st0 st : grows st0 st -> grows st0 (bump st).
Proof. intros H. exact H. Qed.

Lemma grows_alloc_r o st0 st :
  sound st -> grows st0 st -> grows st0 (alloc o st).
Proof. intros Hs H. eapply grows_trans; [exact H | now apply grows_alloc]. Qed.

Lemma objects_with_globals f st : objects (with_globals f st) = objects st.
Proof. reflexivity. Qed.

Lemma objects_bump st : objects (bump st) = objects st.
Proof. reflexivity. Qed.

Lemma fresh_with_globals f st : fresh (with_globals f st) = fresh st.
Proof. reflexivity. Qed.

Lemma fresh_bump st : fresh (bump st) = fresh st.
Proof. reflexivity. Qed.

Lemma fresh_alloc o st : fresh (alloc o st) = fresh st + 1.
Proof. reflexivity. Qed.

Lemma fresh_store h o st : fresh (store h o st) = fresh st.
Proof. reflexivity. Qed.

Lemma fresh_remove h st : fresh (remove h st) = fresh st.
Proof. reflexivity. Qed.

Lemma globals_with_globals f st : globals (with_globals f st) = f (globals st).
Proof. reflexivity. Qed.

Lemma globals_bump st : globals (bump st) = globals st.
Proof. reflexivity. Qed.

Lemma globals_alloc o st : globals (alloc o st) = globals st.
Proof. reflexivity. Qed.

Lemma globals_store h o st : globals (store h o st) = globals st.
Proof. reflexivity. Qed.

Lemma globals_remove h st : globals (remove h st) = globals st.
Proof. reflexivity. Qed.

Ltac st_simpl :=
  repeat progress
    rewrite ?objects_with_globals, ?objects_bump, ?fresh_with_globals,
      ?fresh_bump, ?fresh_alloc, ?fresh_store, ?fresh_remove,
      ?globals_with_globals, ?globals_bump, ?globals_alloc, ?globals_store,
      ?globals_remove.

Create HintDb world.

#[local] Hint Resolve grows_refl sound_with_globals sound_bump sound_alloc
  grows_with_globals_r grows_bump_r grows_alloc_r : world.

(** ** Rules for the entry points of the implementation *)

Lemma wp_next_result drv (Q : Z -> State -> Prop) st :
  Q (drv_result drv (w_calls (world st))) (bump st) ->
  wp (next_result drv) Q st.
Proof. intros H. exact H. Qed.

Lemma wp_new_object o (Q : Z -> State -> Prop) st :
  Q (fresh st) (alloc o st) -> wp (new_object o) Q st.
Proof. intros H. exact H. Qed.

Lemma wp_vkCreate drv o old (Q : Z * Z -> State -> Prop) st :
  (forall r, rejected r = true -> Q (r, old) (bump st)) ->
  Q (VK_SUCCESS, fresh st) (alloc o (bump st)) ->
  wp (vkCreate drv o old) Q st.
Proof.
  intros Hrej Hok. unfold vkCreate. apply wp_bind, wp_next_result.
  destruct (Z.eqb_spec (drv_result drv (w_calls (world st))) VK_SUCCESS)
    as [Heq | Hne].
  - rewrite Heq. apply wp_bind, wp_new_object, wp_ret. exact Hok.
  - apply wp_ret, Hrej. unfold rejected.
    now destruct (Z.eqb_spec (drv_result drv (w_calls (world st))) VK_SUCCESS).
Qed.

Lemma wp_lookup_object h (Q : option Object -> State -> Prop) st :
  Q (objects st !! h) st -> wp (lookup_object h) Q st.
Proof. intros H. exact H. Qed.

Lemma wp_store_object h o (Q : unit -> State -> Prop) st :
  Q tt (store h o st) -> wp (store_object h o) Q st.
Proof. intros H. exact H. Qed.

(** The handles [new_objects] hands out are consecutive. *)
Lemma wp_new_objects o n :
  forall (Q : list Z -> State -> Prop) st,
    (forall hs st',
        length hs = n ->
        (forall i, (i < n)%nat -> hs !! i = Some (fresh st + Z.of_nat i)) ->
        globals st' = globals st ->
        w_calls (world st') = w_calls (world st) ->
        fresh st' = fresh st + Z.of_nat n ->
        (forall h, h < fresh st -> objects st' !! h = objects st !! h) ->
        (forall i, (i < n)%nat ->
                   objects st' !! (fresh st + Z.of_nat i) = Some o) ->
        (sound st -> sound st') ->
        Q hs st') ->
    wp (new_objects n o) Q st.
Proof.
  induction n as [| n IH]; intros Q st HQ; cbn [new_objects].
  - apply wp_ret, HQ; auto; try lia; intros i Hi; lia.
  - apply wp_bind, wp_new_object, wp_bind, IH.
    intros hs st' Hlen Hhs Hg Hc Hf Hold Hnew Hsound.
    apply wp_ret, HQ.
    + cbn. now rewrite Hlen.
    + intros [| i] Hi; cbn.
      * f_equal. lia.
      * rewrite Hhs by lia. f_equal.
        change (fresh (alloc o st)) with (fresh st + 1). lia.
    + exact Hg.
    + exact Hc.
    + rewrite Hf. change (fresh (alloc o st)) with (fresh st + 1). lia.
    + intros h Hh. rewrite Hold.
      * apply objects_alloc_ne. lia.
      * change (fresh (alloc o st)) with (fresh st + 1). lia.
    + intros [| i] Hi.
      * rewrite Hold.
        -- replace (fresh st + Z.of_nat 0) with (fresh st) by lia.
           apply objects_alloc_eq.
        -- change (fresh (alloc o st)) with (fresh st + 1). lia.
      * specialize (Hnew i ltac:(lia)).
        change (fresh (alloc o st)) with (fresh st + 1) in Hnew.
        rewrite <- Hnew. f_equal. lia.
    + intros Hs. apply Hsound. now apply sound_alloc.
Qed.

Ltac wp_step :=
  lazymatch goal with
  | |- wp (bind _ _) _ _ => apply wp_bind
  | |- wp get_globals _ _ => apply wp_get_globals
  | |- wp (modify_globals _) _ _ => apply wp_modify_globals
  | |- wp (ret _) _ _ => apply wp_ret
  | |- wp (FatalError _) _ _ => apply wp_FatalError
  | |- wp undefined _ _ => apply wp_undefined
  | |- wp (fatal_if _ _) _ _ =>
      let Hc := fresh "Hc" in apply wp_fatal_if; intros Hc
  | |- wp (array_get _ _) _ _ =>
      let x := fresh "x" in
      let Hx := fresh "Hx" in apply wp_array_get; intros x Hx
  | |- wp (lookup_object _) _ _ => apply wp_lookup_object
  | |- wp (store_object _ _) _ _ => apply wp_store_object
  | |- wp (next_result _) _ _ => apply wp_next_result
  end.

Ltac wp_steps := repeat (wp_step; cbn beta).

(** Closes the branch in which a call was rejected: the [fatal_if] that
    follows the call ends the run. *)
Ltac wp_rejected :=
  let r := fresh "r" in
  let Hr := fresh "Hr" in
  intros r Hr; wp_steps; cbn [fst snd] in *; congruence.

(** ** What each step of the initialisation establishes *)

Lemma InitVulkanInstance_spec drv st :
  sound st ->
  wp (InitVulkanInstance drv)
     (fun _ st' =>
        sound st' /\ grows st st'
        /\ exists v, globals st' = set_vulkanInstance v (globals st)) st.
Proof.
  intros Hs. unfold InitVulkanInstance. wp_steps.
  apply wp_vkCreate; [wp_rejected |]. wp_steps.
  split; [| split]; [auto 10 with world .. |].
  eexists. reflexivity.
Qed.

Lemma CreateVulkanSurface_spec drv st :
  sound st ->
  wp (CreateVulkanSurface drv)
     (fun _ st' =>
        sound st' /\ grows st st'
        /\ exists v, globals st' = set_vulkanSurface v (globals st)) st.
Proof.
  intros Hs. unfold CreateVulkanSurface. wp_steps.
  apply wp_vkCreate; [wp_rejected |]. wp_steps.
  split; [| split]; [auto 10 with world .. |].
  eexists. reflexivity.
Qed.

Lemma check_required_extensions_spec required properties
    (Q : unit -> State -> Prop) st :
  Q tt st -> wp (check_required_extensions required properties) Q st.
Proof.
  intros HQ. induction required as [| name rest IH];
    cbn [check_required_extensions]; wp_steps; assumption.
Qed.

Lemma PickPhysicalVulkanDevice_spec drv st :
  sound st ->
  wp (PickPhysicalVulkanDevice drv)
     (fun _ st' =>
        sound st' /\ grows st st'
        /\ exists v, globals st' = set_physicalDevice v (globals st)) st.
Proof.
  intros Hs. unfold PickPhysicalVulkanDevice. wp_steps.
  match goal with
  | |- context [if ?c then _ else _] => destruct c
  end; wp_steps; apply check_required_extensions_spec;
    (split; [exact Hs | split; [exact (grows_refl st) |]]);
    eexists; reflexivity.
Qed.

Lemma FindQueueFamilies_spec drv (Q : queue_family_indices_t -> State -> Prop)
    st :
  (forall q, Q q st) -> wp (FindQueueFamilies drv) Q st.
Proof.
  intros HQ. unfold FindQueueFamilies. wp_steps.
  match goal with
  | |- context [if ?c then _ else _] => destruct c
  end; wp_steps; apply HQ.
Qed.

Lemma CreateLogicalDevice_spec drv st :
  sound st ->
  wp (CreateLogicalDevice drv)
     (fun _ st' =>
        sound st' /\ grows st st'
        /\ exists q dev gq pq,
            globals st'
            = set_presentQueue pq
                (set_graphicsQueue gq
                   (set_logicalDevice dev
                      (set_queueFamilyIndices q (globals st))))
            /\ objects st' !! dev
               = Some (ObjDevice (physicalDevice (globals st))
                         (CreateLogicalDevice_deviceCreateInfo q))) st.
Proof.
  intros Hs. unfold CreateLogicalDevice. wp_steps.
  apply FindQueueFamilies_spec. intros q. wp_steps.
  apply wp_vkCreate; [wp_rejected |]. wp_steps.
  split; [| split]; [auto 10 with world .. |].
  eexists _, _, _, _. split; [reflexivity |].
  apply (objects_alloc_eq _ (bump _)).
Qed.

Lemma QuerySwapchainSupport_spec drv
    (Q : swapchain_support_details_t -> State -> Prop) st :
  (forall d, Q d st) -> wp (QuerySwapchainSupport drv) Q st.
Proof. intros HQ. unfold QuerySwapchainSupport. wp_steps. apply HQ. Qed.

Lemma wp_new_objects_sound o n (Q : list Z -> State -> Prop) st :
  sound st ->
  (forall hs st',
      length hs = n ->
      (forall i, (i < n)%nat -> hs !! i = Some (fresh st + Z.of_nat i)) ->
      globals st' = globals st ->
      sound st' -> grows st st' ->
      (forall i, (i < n)%nat ->
                 objects st' !! (fresh st + Z.of_nat i) = Some o) ->
      Q hs st') ->
  wp (new_objects n o) Q st.
Proof.
  intros Hs HQ. apply wp_new_objects.
  intros hs st' Hlen Hhs Hg _ Hf Hold Hnew Hsound.
  apply HQ; auto. split; [lia |].
  intros h o' Hh. rewrite Hold; [exact Hh |]. now apply Hs in Hh.
Qed.

Lemma wp_vkCreateSwapchainKHR drv info old (Q : Z * Z -> State -> Prop) st :
  sound st ->
  (forall r, rejected r = true -> Q (r, old) (bump st)) ->
  (forall images st',
      globals st' = globals st -> sound st' -> grows st st' ->
      Q (VK_SUCCESS, fresh st') (alloc (ObjSwapchain info images) st')) ->
  wp (vkCreateSwapchainKHR drv info old) Q st.
Proof.
  intros Hs Hrej Hok. unfold vkCreateSwapchainKHR.
  destruct (family_indices_readable info); [| apply wp_undefined].
  wp_steps.
  destruct (Z.eqb_spec (drv_result drv (w_calls (world st))) VK_SUCCESS)
    as [Heq | Hne].
  - rewrite Heq. wp_steps.
    apply wp_new_objects_sound; [now apply sound_bump |].
    intros images st' _ _ Hg Hs' Hgr _. wp_steps.
    apply wp_new_object. wp_steps. now apply Hok.
  - wp_steps. apply Hrej. unfold rejected.
    now destruct (Z.eqb_spec (drv_result drv (w_calls (world st))) VK_SUCCESS).
Qed.

Lemma wp_vkGetSwapchainImagesKHR h (Q : list Z -> State -> Prop) st :
  (forall info images,
      objects st !! h = Some (ObjSwapchain info images) -> Q images st) ->
  wp (vkGetSwapchainImagesKHR h) Q st.
Proof.
  intros HQ. unfold vkGetSwapchainImagesKHR. wp_steps.
  destruct (objects st !! h) as [[] |] eqn:Hh; wp_steps.
  now apply HQ with (info := info).
Qed.

Lemma CreateSwapChain_spec drv details st :
  sound st ->
  wp (CreateSwapChain drv details)
     (fun _ st' =>
        sound st' /\ grows st st'
        /\ exists surfaceFormat images sc,
            ChooseSwapSurfaceFormat details = Some surfaceFormat
            /\ globals st'
               = set_swapchainExtent (ChooseSwapExtent details)
                   (set_swapchainImageFormat (format surfaceFormat)
                      (set_swapchainImages images
                         (set_swapchainImageCount (Z.of_nat (length images))
                            (set_swapChain sc (globals st)))))
            /\ objects st' !! sc
               = Some (ObjSwapchain
                         (CreateSwapChain_createInfo details surfaceFormat
                            (vulkanSurface (globals st))
                            (queueFamilyIndices (globals st)))
                         images)) st.
Proof.
  intros Hs. unfold CreateSwapChain.
  destruct (ChooseSwapSurfaceFormat details) as [surfaceFormat |];
    [| apply wp_undefined].
  wp_steps. apply wp_vkCreateSwapchainKHR; [exact Hs | wp_rejected |].
  intros images st1 Hg Hs1 Hgr. wp_steps.
  apply wp_vkGetSwapchainImagesKHR. intros info images' Hlook. wp_steps.
  cbn [globals with_globals swapChain set_swapChain alloc] in Hlook.
  change (objects (alloc (ObjSwapchain
            (CreateSwapChain_createInfo details surfaceFormat
               (vulkanSurface (globals st)) (queueFamilyIndices (globals st)))
            images) st1) !! fresh st1 = Some (ObjSwapchain info images'))
    in Hlook.
  rewrite objects_alloc_eq in Hlook. injection Hlook as <- <-.
  split; [| split].
  - now apply sound_alloc.
  - apply grows_trans with st1; [exact Hgr | now apply grows_alloc].
  - exists surfaceFormat, images, (fresh st1).
    split; [reflexivity | split].
    + cbn. rewrite Hg. reflexivity.
    + apply objects_alloc_eq.
Qed.

Lemma length_calloc count : length (calloc count) = Z.to_nat count.
Proof. unfold calloc. now rewrite length_replicate. Qed.

Lemma grows_lookup st st' h o :
  grows st st' -> objects st !! h = Some o -> objects st' !! h = Some o.
Proof. intros [_ H]. apply H. Qed.

Lemma CreateImageViews_spec drv st :
  sound st ->
  wp (CreateImageViews drv)
     (fun _ st' =>
        sound st' /\ grows st st'
        /\ exists views,
            globals st' = set_swapChainImageViews views (globals st)
            /\ length views = Z.to_nat (swapchainImageCount (globals st))
            /\ forall i view,
                views !! i = Some view ->
                exists image info,
                  swapchainImages (globals st) !! i = Some image
                  /\ objects st' !! view = Some (ObjImageView info)
                  /\ iv_image info = image) st.
Proof.
  intros Hs. unfold CreateImageViews. wp_steps.
  set (n := Z.to_nat (swapchainImageCount (globals st))).
  set (Inv := fun (j : nat) (s : State) =>
    sound s /\ grows st s
    /\ exists views,
        globals s = set_swapChainImageViews views (globals st)
        /\ length views = n
        /\ forall i view,
            (i < j)%nat -> views !! i = Some view ->
            exists image info,
              swapchainImages (globals st) !! i = Some image
              /\ objects s !! view = Some (ObjImageView info)
              /\ iv_image info = image).
  eapply wp_mono;
    [| apply (wp_for_loop Inv) with (i := 0%nat)].
  - intros _ st' (Hs' & Hg' & views & Hgl & Hlen & Hviews). cbn beta.
    split; [exact Hs' | split; [exact Hg' |]].
    exists views. split; [exact Hgl | split; [exact Hlen |]].
    intros i view Hi. apply Hviews; [| exact Hi].
    apply lookup_lt_Some in Hi. lia.
  - split; [exact Hs | split; [exact (grows_refl st) |]].
    eexists. split; [reflexivity | split; [apply length_calloc |]].
    intros i view Hi. lia.
  - intros j [gs ws] Hj (Hs' & Hg' & views & Hgl & Hlen & Hviews).
    cbn [globals] in Hgl. subst gs.
    set (s := mkState (set_swapChainImageViews views (globals st)) ws) in *.
    wp_steps. apply wp_vkCreate; [wp_rejected |]. wp_steps.
    cbn in Hx.
    split; [auto 10 with world | split; [auto 10 with world |]].
    exists (<[j := fresh s]> views).
    split; [| split].
    + reflexivity.
    + now rewrite length_insert.
    + intros i view Hi Hview. st_simpl.
      destruct (decide (i = j)) as [-> | Hne].
      * rewrite list_lookup_insert_eq in Hview by lia.
        injection Hview as <-.
        eexists _, _. split; [exact Hx |].
        split; [rewrite <- (fresh_bump s); apply objects_alloc_eq |].
        reflexivity.
      * rewrite list_lookup_insert_ne in Hview by congruence.
        destruct (Hviews i view ltac:(lia) Hview)
          as (image & info & Himg & Hobj & Hinfo).
        exists image, info. split; [exact Himg | split; [| exact Hinfo]].
        rewrite objects_alloc_ne; [exact Hobj |].
        apply Hs' in Hobj. st_simpl. lia.
Qed.

Lemma CreateRenderPass_spec drv st :
  sound st ->
  wp (CreateRenderPass drv)
     (fun _ st' =>
        sound st' /\ grows st st'
        /\ exists v, globals st' = set_renderPass v (globals st)) st.
Proof.
  intros Hs. unfold CreateRenderPass. wp_steps.
  apply wp_vkCreate; [wp_rejected |]. wp_steps.
  split; [| split]; [auto 10 with world .. |].
  eexists. reflexivity.
Qed.

Lemma CreateShaderModule_spec drv resource (Q : Z -> State -> Prop) st :
  Q (fresh st) (alloc (ObjShaderModule resource) (bump st)) ->
  wp (CreateShaderModule drv resource) Q st.
Proof.
  intros HQ. unfold CreateShaderModule. wp_steps.
  apply wp_vkCreate; [wp_rejected |]. wp_steps. exact HQ.
Qed.

Lemma wp_vkDestroyShaderModule h (Q : unit -> State -> Prop) st :
  (forall resource,
      objects st !! h = Some (ObjShaderModule resource) ->
      Q tt (remove h st)) ->
  wp (vkDestroyShaderModule h) Q st.
Proof.
  intros HQ. unfold vkDestroyShaderModule. wp_steps.
  destruct (objects st !! h) as [[] |] eqn:Hh; wp_steps.
  now apply (HQ resource).
Qed.

Lemma grows_remove_r h st0 st :
  sound st0 -> fresh st0 <= h -> grows st0 st -> grows st0 (remove h st).
Proof.
  intros Hs Hh [Hf Hk]. split; [exact Hf |].
  intros k o Hko. rewrite objects_remove_ne; [now apply Hk |].
  apply Hs in Hko. lia.
Qed.

Lemma CreateGraphicsPipeline_spec drv st :
  sound st ->
  wp (CreateGraphicsPipeline drv)
     (fun _ st' =>
        sound st' /\ grows st st'
        /\ exists layout pipeline,
            globals st'
            = set_graphicsPipeline pipeline
                (set_pipelineLayout layout (globals st))) st.
Proof.
  intros Hs. unfold CreateGraphicsPipeline. wp_steps.
  apply CreateShaderModule_spec. wp_steps.
  apply CreateShaderModule_spec. wp_steps.
  apply wp_vkCreate; [wp_rejected |]. wp_steps.
  apply wp_vkCreate; [wp_rejected |]. wp_steps.
  apply wp_vkDestroyShaderModule. intros _ _. wp_steps.
  apply wp_vkDestroyShaderModule. intros _ _.
  split; [| split].
  - auto 20 using sound_remove with world.
  - apply grows_remove_r; [exact Hs | reflexivity |].
    apply grows_remove_r; [exact Hs | st_simpl; lia |].
    auto 20 with world.
  - eexists _, _. reflexivity.
Qed.

Lemma CreateFramebuffers_spec drv st :
  sound st ->
  wp (CreateFramebuffers drv)
     (fun _ st' =>
        sound st' /\ grows st st'
        /\ exists fbs,
            globals st' = set_swapchainFramebuffers fbs (globals st)
            /\ length fbs = Z.to_nat (swapchainImageCount (globals st))
            /\ forall i fb,
                fbs !! i = Some fb ->
                exists view info,
                  swapChainImageViews (globals st) !! i = Some view
                  /\ objects st' !! fb = Some (ObjFramebuffer info)
                  /\ fb_pAttachments info = [view]
                  /\ fb_attachmentCount info = 1) st.
Proof.
  intros Hs. unfold CreateFramebuffers. wp_steps.
  set (n := Z.to_nat (swapchainImageCount (globals st))).
  set (Inv := fun (j : nat) (s : State) =>
    sound s /\ grows st s
    /\ exists fbs,
        globals s = set_swapchainFramebuffers fbs (globals st)
        /\ length fbs = n
        /\ forall i fb,
            (i < j)%nat -> fbs !! i = Some fb ->
            exists view info,
              swapChainImageViews (globals st) !! i = Some view
              /\ objects s !! fb = Some (ObjFramebuffer info)
              /\ fb_pAttachments info = [view]
              /\ fb_attachmentCount info = 1).
  eapply wp_mono;
    [| apply (wp_for_loop Inv) with (i := 0%nat)].
  - intros _ st' (Hs' & Hg' & fbs & Hgl & Hlen & Hfbs). cbn beta.
    split; [exact Hs' | split; [exact Hg' |]].
    exists fbs. split; [exact Hgl | split; [exact Hlen |]].
    intros i fb Hi. apply Hfbs; [| exact Hi].
    apply lookup_lt_Some in Hi. lia.
  - split; [exact Hs | split; [exact (grows_refl st) |]].
    eexists. split; [reflexivity | split; [apply length_calloc |]].
    intros i fb Hi. lia.
  - intros j [gs ws] Hj (Hs' & Hg' & fbs & Hgl & Hlen & Hfbs).
    cbn [globals] in Hgl. subst gs.
    set (s := mkState (set_swapchainFramebuffers fbs (globals st)) ws) in *.
    wp_steps. apply wp_vkCreate; [wp_rejected |]. wp_steps.
    cbn in Hx.
    split; [auto 10 with world | split; [auto 10 with world |]].
    exists (<[j := fresh s]> fbs).
    split; [| split].
    + reflexivity.
    + now rewrite length_insert.
    + intros i fb Hi Hfb. st_simpl.
      destruct (decide (i = j)) as [-> | Hne].
      * rewrite list_lookup_insert_eq in Hfb by lia.
        injection Hfb as <-.
        eexists _, _. split; [exact Hx |].
        split; [rewrite <- (fresh_bump s); apply objects_alloc_eq |].
        split; reflexivity.
      * rewrite list_lookup_insert_ne in Hfb by congruence.
        destruct (Hfbs i fb ltac:(lia) Hfb)
          as (view & info & Hview & Hobj & Hinfo).
        exists view, info. split; [exact Hview | split; [| exact Hinfo]].
        rewrite objects_alloc_ne; [exact Hobj |].
        apply Hs' in Hobj. st_simpl. lia.
Qed.

Lemma CreateCommandPool_spec drv st :
  sound st ->
  wp (CreateCommandPool drv)
     (fun _ st' =>
        sound st' /\ grows st st'
        /\ exists v, globals st' = set_commandPool v (globals st)) st.
Proof.
  intros Hs. unfold CreateCommandPool. wp_steps.
  apply wp_vkCreate; [wp_rejected |]. wp_steps.
  split; [| split]; [auto 10 with world .. |].
  eexists. reflexivity.
Qed.

Lemma CreateSemaphores_spec drv st :
  sound st ->
  wp (CreateSemaphores drv)
     (fun _ st' =>
        sound st' /\ grows st st'
        /\ exists a b,
            globals st'
            = set_renderFinishedSemaphore b
                (set_imageAvailableSemaphore a (globals st))) st.
Proof.
  intros Hs. unfold CreateSemaphores. wp_steps.
  apply wp_vkCreate; [wp_rejected |]. wp_steps.
  apply wp_vkCreate; [wp_rejected |]. wp_steps.
  split; [| split]; [auto 20 with world .. |].
  eexists _, _. reflexivity.
Qed.

(** ** Command buffers *)

Lemma wp_vkAllocateCommandBuffers drv pool count old
    (Q : Z * list Z -> State -> Prop) st :
  sound st ->
  (forall r, rejected r = true -> Q (r, old) (bump st)) ->
  (forall hs st',
      length hs = Z.to_nat count ->
      (forall i, (i < Z.to_nat count)%nat ->
                 hs !! i = Some (fresh st + Z.of_nat i)) ->
      globals st' = globals st ->
      sound st' -> grows st st' ->
      (forall i, (i < Z.to_nat count)%nat ->
                 objects st' !! (fresh st + Z.of_nat i)
                 = Some (ObjCommandBuffer pool [])) ->
      Q (VK_SUCCESS, hs) st') ->
  wp (vkAllocateCommandBuffers drv pool count old) Q st.
Proof.
  intros Hs Hrej Hok. unfold vkAllocateCommandBuffers. wp_steps.
  destruct (Z.eqb_spec (drv_result drv (w_calls (world st))) VK_SUCCESS)
    as [Heq | Hne].
  - rewrite Heq. wp_steps.
    apply wp_new_objects_sound; [now apply sound_bump |].
    intros hs st' Hlen Hhs Hg Hs' Hgr Hnew. wp_steps. now apply Hok.
  - wp_steps. apply Hrej. unfold rejected.
    now destruct (Z.eqb_spec (drv_result drv (w_calls (world st))) VK_SUCCESS).
Qed.

Lemma wp_vkBeginCommandBuffer drv cb pool l (Q : Z -> State -> Prop) st :
  objects st !! cb = Some (ObjCommandBuffer pool l) ->
  (forall r, rejected r = true -> Q r (bump st)) ->
  Q VK_SUCCESS (store cb (ObjCommandBuffer pool []) (bump st)) ->
  wp (vkBeginCommandBuffer drv cb) Q st.
Proof.
  intros Hcb Hrej Hok. unfold vkBeginCommandBuffer. wp_steps.
  rewrite Hcb. wp_steps.
  destruct (Z.eqb_spec (drv_result drv (w_calls (world st))) VK_SUCCESS)
    as [Heq | Hne].
  - rewrite Heq. wp_steps. exact Hok.
  - wp_steps. apply Hrej. unfold rejected.
    now destruct (Z.eqb_spec (drv_result drv (w_calls (world st))) VK_SUCCESS).
Qed.

Lemma wp_vkCmd cb c pool l (Q : unit -> State -> Prop) st :
  objects st !! cb = Some (ObjCommandBuffer pool l) ->
  Q tt (store cb (ObjCommandBuffer pool (l ++ [c])) st) ->
  wp (vkCmd cb c) Q st.
Proof.
  intros Hcb HQ. unfold vkCmd. wp_steps. rewrite Hcb. wp_steps. exact HQ.
Qed.

Lemma wp_vkEndCommandBuffer drv cb pool l (Q : Z -> State -> Prop) st :
  objects st !! cb = Some (ObjCommandBuffer pool l) ->
  Q (drv_result drv (w_calls (world st))) (bump st) ->
  wp (vkEndCommandBuffer drv cb) Q st.
Proof.
  intros Hcb HQ. unfold vkEndCommandBuffer. wp_steps. rewrite Hcb.
  wp_steps. exact HQ.
Qed.

(** One iteration of the recording loop: buffer [j] receives exactly the
    commands for framebuffer [j]; nothing else in the store changes. *)
Lemma CreateCommandBuffers_record_spec drv j cb pool l st :
  commandBuffers (globals st) !! j = Some cb ->
  objects st !! cb = Some (ObjCommandBuffer pool l) ->
  sound st ->
  wp (CreateCommandBuffers_record drv j)
     (fun _ st' =>
        sound st' /\ fresh st' = fresh st /\ globals st' = globals st
        /\ (forall h, h <> cb -> objects st' !! h = objects st !! h)
        /\ exists fb,
            swapchainFramebuffers (globals st) !! j = Some fb
            /\ objects st' !! cb
               = Some (ObjCommandBuffer pool
                         (recorded_commands (globals st) fb))) st.
Proof.
  intros Hj Hcb Hs. unfold CreateCommandBuffers_record. wp_steps.
  rewrite Hj in Hx. injection Hx as <-.
  eapply wp_vkBeginCommandBuffer; [exact Hcb | wp_rejected |]. wp_steps.
  eapply wp_vkCmd; [apply objects_store_eq |]. wp_steps.
  eapply wp_vkCmd; [apply objects_store_eq |]. wp_steps.
  eapply wp_vkCmd; [apply objects_store_eq |]. wp_steps.
  eapply wp_vkCmd; [apply objects_store_eq |]. wp_steps.
  eapply wp_vkEndCommandBuffer; [apply objects_store_eq |]. wp_steps.
  split; [| split; [| split; [| split]]].
  - apply sound_bump.
    repeat (eapply sound_store; [apply objects_store_eq |]).
    eapply sound_store; [exact Hcb |]. exact Hs.
  - reflexivity.
  - reflexivity.
  - intros h Hh. st_simpl. now rewrite !objects_store_ne by exact Hh.
  - match goal with
    | H : swapchainFramebuffers _ !! _ = Some ?fb |- _ =>
        exists fb; split; [exact H |]
    end.
    st_simpl. apply objects_store_eq.
Qed.

Lemma CreateCommandBuffers_spec drv st :
  sound st ->
  wp (CreateCommandBuffers drv)
     (fun _ st' =>
        sound st' /\ grows st st'
        /\ exists cbs,
            globals st' = set_commandBuffers cbs (globals st)
            /\ length cbs = Z.to_nat (swapchainImageCount (globals st))
            /\ forall i cb,
                cbs !! i = Some cb ->
                exists fb,
                  swapchainFramebuffers (globals st) !! i = Some fb
                  /\ objects st' !! cb
                     = Some (ObjCommandBuffer (commandPool (globals st))
                               (recorded_commands (globals st) fb))) st.
Proof.
  intros Hs. unfold CreateCommandBuffers. wp_steps.
  apply wp_vkAllocateCommandBuffers;
    [auto with world | wp_rejected |].
  intros hs [g1 w1] Hlen Hhs Hg Hs1 Hgr Hnew.
  cbn [globals with_globals] in Hg. subst g1.
  set (n := Z.to_nat (swapchainImageCount (globals st))).
  set (pool := commandPool (globals st)).
  assert (Hhs' : forall i, (i < n)%nat -> hs !! i = Some (fresh st + Z.of_nat i))
    by exact Hhs.
  assert (Hnew' : forall i, (i < n)%nat ->
                    w_objects w1 !! (fresh st + Z.of_nat i)
                    = Some (ObjCommandBuffer pool []))
    by exact Hnew.
  assert (Hlen' : length hs = n) by exact Hlen.
  clear Hhs Hnew Hlen.
  wp_steps.
  set (Inv := fun (j : nat) (s : State) =>
    sound s
    /\ fresh s = w_fresh w1
    /\ globals s = set_commandBuffers hs (globals st)
    /\ (forall h, h < fresh st -> objects s !! h = w_objects w1 !! h)
    /\ (forall i, (j <= i < n)%nat ->
                  objects s !! (fresh st + Z.of_nat i)
                  = Some (ObjCommandBuffer pool []))
    /\ (forall i, (i < j)%nat ->
                  exists fb,
                    swapchainFramebuffers (globals st) !! i = Some fb
                    /\ objects s !! (fresh st + Z.of_nat i)
                       = Some (ObjCommandBuffer pool
                                 (recorded_commands (globals st) fb)))).
  eapply wp_mono;
    [| apply (wp_for_loop Inv) with (i := 0%nat) (n := n)].
  - intros _ st' (Hs' & Hf' & Hgl & Hold & _ & Hdone). cbn beta.
    split; [exact Hs' | split; [| exists hs; split; [exact Hgl |]]].
    + destruct Hgr as [Hfr Hkeep]. split.
      * rewrite Hf'. exact Hfr.
      * intros h o Hh. rewrite Hold; [now apply Hkeep |].
        now apply Hs in Hh.
    + split; [exact Hlen' |]. intros i cb Hi.
      assert (Hin : (i < n)%nat)
        by (apply lookup_lt_Some in Hi; rewrite Hlen' in Hi; exact Hi).
      rewrite (Hhs' i Hin) in Hi. injection Hi as <-.
      apply Hdone. lia.
  - split; [exact Hs1 | split; [reflexivity | split; [reflexivity |]]].
    split; [reflexivity | split].
    + intros i Hi. apply Hnew'. lia.
    + intros i Hi. lia.
  - intros j [gs ws] Hj (Hs' & Hf' & Hgl & Hold & Htodo & Hdone).
    cbn [globals] in Hgl. subst gs.
    set (s := mkState (set_commandBuffers hs (globals st)) ws) in *.
    eapply wp_mono;
      [| apply (CreateCommandBuffers_record_spec drv j (fresh st + Z.of_nat j)
                  pool [] s);
         [apply Hhs'; lia | apply Htodo; lia | exact Hs']].
    intros u s' (Hs'' & Hf'' & Hgl' & Hother & fb & Hfb & Hrec). cbn beta.
    split; [exact Hs'' | split; [congruence | split; [exact Hgl' |]]].
    split; [| split].
    + intros h Hh. rewrite Hother by lia. now apply Hold.
    + intros i Hi. rewrite Hother by lia. apply Htodo. lia.
    + intros i Hi. destruct (decide (i = j)) as [-> | Hne].
      * exists fb. split; [exact Hfb | exact Hrec].
      * destruct (Hdone i ltac:(lia)) as (fb' & Hfb' & Hrec').
        exists fb'. split; [exact Hfb' |].
        rewrite Hother by lia. exact Hrec'.
Qed.

(** ** The whole initialisation *)

Lemma sound_initial_state : sound initial_state.
Proof. intros h o Hh. unfold objects in Hh. cbn in Hh. discriminate. Qed.

(** Runs [spec] for the next call of a sequence. *)
Ltac run spec :=
  apply wp_bind; eapply wp_mono; [| apply spec; try assumption]; cbn beta.

Lemma main_initialization_spec drv :
  wp (main_initialization drv)
     (fun _ st => images_consistent st /\ queues_consistent st)
     initial_state.
Proof.
  unfold main_initialization.
  pose proof sound_initial_state as Hs0.
  run InitVulkanInstance_spec.
  intros _ [g1 w1] (Hs1 & _ & v1 & Hg1). cbn [globals] in Hg1. subst g1.
  run CreateVulkanSurface_spec.
  intros _ [g2 w2] (Hs2 & _ & v2 & Hg2). cbn [globals] in Hg2. subst g2.
  run PickPhysicalVulkanDevice_spec.
  intros _ [g3 w3] (Hs3 & _ & v3 & Hg3). cbn [globals] in Hg3. subst g3.
  run CreateLogicalDevice_spec.
  intros _ [g4 w4] (Hs4 & _ & q & dev & gq & pq & Hg4 & Hdev).
  cbn [globals] in Hg4. subst g4.
  apply wp_bind, QuerySwapchainSupport_spec. intros details.
  apply wp_bind, wp_fatal_if. intros _.
  run CreateSwapChain_spec.
  intros _ [g5 w5] (Hs5 & Hgr5 & fmt & images & sc & _ & Hg5 & Hsc).
  cbn [globals] in Hg5. subst g5.
  run CreateImageViews_spec.
  intros _ [g6 w6] (Hs6 & Hgr6 & views & Hg6 & Hlen6 & Hviews).
  cbn [globals] in Hg6. subst g6.
  run CreateRenderPass_spec.
  intros _ [g7 w7] (Hs7 & Hgr7 & rp & Hg7). cbn [globals] in Hg7. subst g7.
  run CreateGraphicsPipeline_spec.
  intros _ [g8 w8] (Hs8 & Hgr8 & layout & pipeline & Hg8).
  cbn [globals] in Hg8. subst g8.
  run CreateFramebuffers_spec.
  intros _ [g9 w9] (Hs9 & Hgr9 & fbs & Hg9 & Hlen9 & Hfbs).
  cbn [globals] in Hg9. subst g9.
  run CreateCommandPool_spec.
  intros _ [g10 w10] (Hs10 & Hgr10 & cp & Hg10).
  cbn [globals] in Hg10. subst g10.
  run CreateCommandBuffers_spec.
  intros _ [g11 w11] (Hs11 & Hgr11 & cbs & Hg11 & Hlen11 & Hcbs).
  cbn [globals] in Hg11. subst g11.
  eapply wp_mono; [| apply CreateSemaphores_spec; assumption]. cbn beta.
  intros _ [g12 w12] (Hs12 & Hgr12 & sa & sb & Hg12).
  cbn [globals] in Hg12. subst g12.
  cbn in Hlen6, Hlen9, Hlen11, Hviews, Hfbs, Hcbs, Hdev, Hsc.
  rewrite Nat2Z.id in Hlen6, Hlen9, Hlen11.
  assert (G11 := Hgr12).
  assert (G10 := grows_trans _ _ _ Hgr11 G11).
  assert (G9 := grows_trans _ _ _ Hgr10 G10).
  assert (G8 := grows_trans _ _ _ Hgr9 G9).
  assert (G7 := grows_trans _ _ _ Hgr8 G8).
  assert (G6 := grows_trans _ _ _ Hgr7 G7).
  assert (G5 := grows_trans _ _ _ Hgr6 G6).
  assert (G4 := grows_trans _ _ _ Hgr5 G5).
  split.
  - unfold images_consistent. cbn. rewrite Nat2Z.id.
    repeat (split; [congruence || reflexivity |]).
    intros i cb Hcb.
    destruct (Hcbs i cb Hcb) as (fb & Hfb & Hrec).
    destruct (Hfbs i fb Hfb) as (view & finfo & Hview & Hfobj & Hatt & Hcnt).
    destruct (Hviews i view Hview) as (image & vinfo & Himg & Hvobj & Hvimg).
    exists image, view, fb, vinfo, finfo.
    repeat (split; [first [assumption | reflexivity] |]); try assumption.
    split; [exact (grows_lookup _ _ _ _ G6 Hvobj) |].
    split; [exact Hvimg |].
    split; [exact (grows_lookup _ _ _ _ G9 Hfobj) |].
    split; [exact Hatt |]. split; [exact Hcnt |].
    exact (grows_lookup _ _ _ _ G11 Hrec).
  - unfold queues_consistent. cbn.
    eexists _, details, fmt, images. split; [| split; [| split]].
    + exact (grows_lookup _ _ _ _ G4 Hdev).
    + exact (grows_lookup _ _ _ _ G5 Hsc).
    + reflexivity.
    + reflexivity.
Qed.

Lemma main_initialization_Ok drv st :
  main_initialization drv initial_state = Ok (tt, st) ->
  images_consistent st /\ queues_consistent st.
Proof.
  intros Hrun.
  exact (wp_Ok _ _ _ _ _ (main_initialization_spec drv) Hrun).
Qed.

Lemma Samples_combined_runs :
  main_initialization Samples.combined initial_state
  = Ok (tt, Samples.ready Samples.combined).
Proof. vm_compute. reflexivity. Qed.

Lemma Samples_separate_undefined :
  main_initialization Samples.separate initial_state = Undefined.
Proof. vm_compute. reflexivity. Qed.

(** C9: after a successful initialisation the image-view, framebuffer and
    command-buffer arrays have the length of the image list read back from
    the swapchain, and at every index [i] framebuffer [i] wraps exactly image
    view [i], which views image [i], and command buffer [i] starts with a
    render pass begun on framebuffer [i] and begins a render pass on no other
    framebuffer. *)
Theorem command_buffer_uses_its_framebuffer (drv : Driver) (st : State) :
  main_initialization drv initial_state = Ok (tt, st) ->
  let g := globals st in
  exists info images,
    objects st !! swapChain g = Some (ObjSwapchain info images)
    /\ swapchainImageCount g = Z.of_nat (length images)
    /\ length (swapChainImageViews g) = length images
    /\ length (swapchainFramebuffers g) = length images
    /\ length (commandBuffers g) = length images
    /\ forall i,
        (i < length images)%nat ->
        exists image view fb cb vinfo finfo pool begin contents rest,
          images !! i = Some image
          /\ swapChainImageViews g !! i = Some view
          /\ swapchainFramebuffers g !! i = Some fb
          /\ commandBuffers g !! i = Some cb
          /\ objects st !! view = Some (ObjImageView vinfo)
          /\ iv_image vinfo = image
          /\ objects st !! fb = Some (ObjFramebuffer finfo)
          /\ fb_pAttachments finfo = [view]
          /\ objects st !! cb
             = Some (ObjCommandBuffer pool
                       (CmdBeginRenderPass begin contents :: rest))
          /\ rp_framebuffer begin = fb
          /\ forall begin' contents',
              CmdBeginRenderPass begin' contents' ∈ rest -> False.
Proof.
  intros Hrun g.
  destruct (main_initialization_Ok drv st Hrun) as [Himg Hq].
  destruct Hq as (physical & details & fmt & images & _ & Hsc & Himages & Hcount).
  destruct Himg as (Hl1 & Hl2 & Hl3 & Hl4 & Hall).
  fold g in Hsc, Himages, Hcount, Hl1, Hl2, Hl3, Hl4, Hall.
  rewrite Hcount, Nat2Z.id in Hl1, Hl2, Hl3, Hl4.
  eexists _, images. split; [exact Hsc |].
  split; [exact Hcount |]. split; [exact Hl2 |]. split; [exact Hl3 |].
  split; [exact Hl4 |].
  intros i Hi.
  destruct (lookup_lt_is_Some_2 (commandBuffers g) i) as [cb Hcb];
    [now rewrite Hl4 |].
  destruct (Hall i cb Hcb)
    as (image & view & fb & vinfo & finfo & Himage & Hview & Hfb & Hvobj
        & Hvimg & Hfobj & Hatt & _ & Hrec).
  rewrite Himages in Himage.
  eexists image, view, fb, cb, vinfo, finfo, _, _, _, _.
  repeat (split; [eassumption || reflexivity |]).
  intros begin' contents' Hin.
  rewrite !elem_of_cons in Hin.
  destruct Hin as [Hin | [Hin | [Hin | Hin]]]; try discriminate.
  inversion Hin.
Qed.

Lemma command_buffer_uses_its_framebuffer_witness :
  exists info images,
    objects (Samples.ready Samples.combined)
      !! swapChain (globals (Samples.ready Samples.combined))
    = Some (ObjSwapchain info images)
    /\ length (commandBuffers (globals (Samples.ready Samples.combined)))
       = length images.
Proof.
  destruct (command_buffer_uses_its_framebuffer
              Samples.combined (Samples.ready Samples.combined)
              Samples_combined_runs)
    as (info & images & Hsc & _ & _ & _ & Hlen & _).
  exists info, images. split; [exact Hsc | exact Hlen].
Defined.

(** ** Sharing mode and queue-create entries *)

Lemma device_entries_same q :
  graphicsFamily q = presentFamily q ->
  queue_create_entries (CreateLogicalDevice_deviceCreateInfo q)
  = [mkQueueCreateInfo (graphicsFamily q) 1 float_1_0].
Proof.
  intros Heq. unfold queue_create_entries, CreateLogicalDevice_deviceCreateInfo.
  cbn [dc_queueCreateInfoCount dc_pQueueCreateInfos].
  rewrite Heq, Z.eqb_refl. reflexivity.
Qed.

Lemma device_entries_distinct q :
  graphicsFamily q <> presentFamily q ->
  queue_create_entries (CreateLogicalDevice_deviceCreateInfo q)
  = [mkQueueCreateInfo (graphicsFamily q) 1 float_1_0;
     mkQueueCreateInfo (presentFamily q) 1 float_1_0].
Proof.
  intros Hne. unfold queue_create_entries, CreateLogicalDevice_deviceCreateInfo.
  cbn [dc_queueCreateInfoCount dc_pQueueCreateInfos].
  destruct (Z.eqb_spec (graphicsFamily q) (presentFamily q));
    [contradiction | reflexivity].
Qed.

Lemma swapchain_sharing_same details fmt surface q :
  graphicsFamily q = presentFamily q ->
  let info := CreateSwapChain_createInfo details fmt surface q in
  sc_imageSharingMode info = VK_SHARING_MODE_EXCLUSIVE
  /\ sc_queueFamilyIndexCount info = 0
  /\ sc_pQueueFamilyIndices info = NullPointer
  /\ family_indices_readable info = true.
Proof.
  intros Heq. unfold CreateSwapChain_createInfo.
  rewrite Heq, Z.eqb_refl. cbn. auto.
Qed.

Lemma swapchain_sharing_distinct details fmt surface q :
  graphicsFamily q <> presentFamily q ->
  let info := CreateSwapChain_createInfo details fmt surface q in
  sc_imageSharingMode info = VK_SHARING_MODE_CONCURRENT
  /\ sc_queueFamilyIndexCount info = 2
  /\ sc_pQueueFamilyIndices info
     = AutomaticArray false [graphicsFamily q; presentFamily q]
  /\ family_indices_readable info = false.
Proof.
  intros Hne. unfold CreateSwapChain_createInfo.
  destruct (Z.eqb_spec (graphicsFamily q) (presentFamily q));
    [contradiction | cbn; auto].
Qed.

(** With two different families [CreateSwapChain] does not get past
    [vkCreateSwapchainKHR], whatever the implementation would answer. *)
Lemma CreateSwapChain_dangling drv details st :
  graphicsFamily (queueFamilyIndices (globals st))
  <> presentFamily (queueFamilyIndices (globals st)) ->
  CreateSwapChain drv details st = Undefined.
Proof.
  intros Hne. unfold CreateSwapChain.
  destruct (ChooseSwapSurfaceFormat details) as [fmt |]; [| reflexivity].
  cbv zeta. unfold bind at 1, get_globals. unfold bind at 1.
  unfold vkCreateSwapchainKHR.
  destruct (swapchain_sharing_distinct details fmt
              (vulkanSurface (globals st)) _ Hne) as (_ & _ & _ & Hdead).
  cbv zeta in Hdead. rewrite Hdead. reflexivity.
Qed.

(** With one family for both roles the create info asks for exclusive
    sharing and the pointer is not read. *)
Lemma CreateSwapChain_exclusive details fmt surface q :
  graphicsFamily q = presentFamily q ->
  let info := CreateSwapChain_createInfo details fmt surface q in
  sc_imageSharingMode info = VK_SHARING_MODE_EXCLUSIVE
  /\ sc_queueFamilyIndexCount info = 0
  /\ sc_pQueueFamilyIndices info = NullPointer
  /\ length (queue_create_entries (CreateLogicalDevice_deviceCreateInfo q))
     = 1%nat.
Proof.
  intros Heq. cbv zeta.
  destruct (swapchain_sharing_same details fmt surface q Heq)
    as (Hmode & Hcount & Hptr & _).
  repeat split; try assumption.
  now rewrite device_entries_same.
Qed.

(** ** Device selection *)

Lemma IsDiscreteGPU_spec drv d :
  IsDiscreteGPU drv d = true
  <-> drv_deviceType drv d = VK_PHYSICAL_DEVICE_TYPE_DISCRETE_GPU.
Proof. unfold IsDiscreteGPU. apply Z.eqb_eq. Qed.

Lemma PickPhysicalVulkanDevice_loop_none drv devices pd :
  (forall e, e ∈ devices ->
             drv_deviceType drv e <> VK_PHYSICAL_DEVICE_TYPE_DISCRETE_GPU) ->
  PickPhysicalVulkanDevice_loop drv devices pd = pd.
Proof.
  induction devices as [| d rest IH]; intros Hnone; cbn; [reflexivity |].
  destruct (IsDiscreteGPU drv d) eqn:Hd.
  - exfalso. apply (Hnone d); [left | now apply IsDiscreteGPU_spec].
  - apply IH. intros e He. apply Hnone. now right.
Qed.

Lemma PickPhysicalVulkanDevice_loop_first drv devices pd i d :
  devices !! i = Some d ->
  drv_deviceType drv d = VK_PHYSICAL_DEVICE_TYPE_DISCRETE_GPU ->
  (forall j e, (j < i)%nat -> devices !! j = Some e ->
               drv_deviceType drv e <> VK_PHYSICAL_DEVICE_TYPE_DISCRETE_GPU) ->
  PickPhysicalVulkanDevice_loop drv devices pd = d.
Proof.
  revert i. induction devices as [| d0 rest IH]; intros i Hi Hd Hbefore;
    [discriminate |].
  cbn. destruct i as [| i].
  - injection Hi as ->. apply IsDiscreteGPU_spec in Hd. now rewrite Hd.
  - destruct (IsDiscreteGPU drv d0) eqn:Hd0.
    + exfalso. apply (Hbefore 0%nat d0); [lia | reflexivity |].
      now apply IsDiscreteGPU_spec.
    + apply (IH i); [exact Hi | exact Hd |].
      intros j e Hj He. apply (Hbefore (S j) e); [lia | exact He].
Qed.

Lemma PickPhysicalVulkanDevice_loop_result drv devices pd :
  PickPhysicalVulkanDevice_loop drv devices pd = pd
  \/ PickPhysicalVulkanDevice_loop drv devices pd ∈ devices.
Proof.
  induction devices as [| d rest IH]; cbn; [now left |].
  destruct (IsDiscreteGPU drv d); [right; left |].
  destruct IH as [IH | IH]; [now left | right; now right].
Qed.

Lemma extension_found_spec name properties :
  extension_found name properties = true <-> name ∈ properties.
Proof.
  induction properties as [| p rest IH]; cbn.
  - split; [discriminate | intros H; inversion H].
  - destruct (String.eqb_spec name p) as [-> | Hne].
    + split; [intros _; left | reflexivity].
    + rewrite IH, elem_of_cons. split; [now right | intros [? | ?]; congruence].
Qed.

(** The run of [PickPhysicalVulkanDevice] on a non-empty device list, step
    by step. *)
Lemma PickPhysicalVulkanDevice_run drv st d0 rest :
  drv_physicalDevices drv = d0 :: rest ->
  PickPhysicalVulkanDevice drv st =
    let pd := PickPhysicalVulkanDevice_loop drv (d0 :: rest)
                (physicalDevice (globals st)) in
    let chosen := if pd =? VK_NULL_HANDLE then d0 else pd in
    let properties := drv_deviceExtensions drv chosen in
    if Z.of_nat (length properties) =? 0 then
      Fatal "Returned zero available extensions for device."
    else if extension_found VK_KHR_SWAPCHAIN_EXTENSION_NAME properties then
      Ok (tt, with_globals (set_physicalDevice chosen) st)
    else
      Fatal ("Could not find required extension "
             ++ VK_KHR_SWAPCHAIN_EXTENSION_NAME ++ ".").
Proof.
  intros Hdevices. unfold PickPhysicalVulkanDevice. rewrite Hdevices.
  assert (Hcount : (Z.of_nat (length (d0 :: rest)) =? 0) = false)
    by reflexivity.
  cbv zeta. rewrite Hcount.
  unfold bind, fatal_if, modify_globals, get_globals, ret, FatalError,
    array_get, with_globals.
  cbn -[PickPhysicalVulkanDevice_loop extension_found String.append length
        Z.of_nat Z.eqb].
  destruct (PickPhysicalVulkanDevice_loop drv (d0 :: rest)
              (physicalDevice (globals st)) =? VK_NULL_HANDLE) eqn:Hpd;
    cbn -[PickPhysicalVulkanDevice_loop extension_found String.append length
          Z.of_nat Z.eqb];
    match goal with
    | |- context [Z.of_nat (length ?l) =? 0] =>
        destruct (Z.of_nat (length l) =? 0); [reflexivity |]
    end;
    match goal with
    | |- context [extension_found ?n ?l] =>
        destruct (extension_found n l); reflexivity
    end.
Qed.

(** In [main] the selection starts from the null handle: the two calls that
    precede it leave [physicalDevice] as it was initialised. *)
Lemma physicalDevice_null_before_selection drv :
  wp (InitVulkanInstance drv ;; CreateVulkanSurface drv)
     (fun _ st => physicalDevice (globals st) = VK_NULL_HANDLE)
     initial_state.
Proof.
  pose proof sound_initial_state as Hs0.
  run InitVulkanInstance_spec.
  intros _ [g1 w1] (Hs1 & _ & v1 & Hg1). cbn [globals] in Hg1. subst g1.
  eapply wp_mono; [| apply CreateVulkanSurface_spec; assumption]. cbn beta.
  intros _ [g2 w2] (_ & _ & v2 & Hg2). cbn [globals] in Hg2. subst g2.
  reflexivity.
Qed.

(** C8: on a non-empty list of enumerated (hence non-null) device handles,
    starting from the initial null [physicalDevice], the device selected is
    the first one in enumeration order whose type is discrete GPU, and the
    device at index 0 when no device is discrete.  The selected device is the
    one whose extensions are then examined: the function returns with
    [physicalDevice] set to it when it offers the swapchain extension and
    ends in a fatal error otherwise. *)
Theorem PickPhysicalVulkanDevice_selection (drv : Driver) (st : State) :
  let devices := drv_physicalDevices drv in
  let discrete d :=
    drv_deviceType drv d = VK_PHYSICAL_DEVICE_TYPE_DISCRETE_GPU in
  devices <> [] ->
  Forall (fun d => d <> VK_NULL_HANDLE) devices ->
  physicalDevice (globals st) = VK_NULL_HANDLE ->
  exists chosen,
    chosen ∈ devices
    /\ (forall i d,
           devices !! i = Some d -> discrete d ->
           (forall j e, (j < i)%nat -> devices !! j = Some e -> ~ discrete e) ->
           chosen = d)
    /\ ((forall e, e ∈ devices -> ~ discrete e) ->
        devices !! 0%nat = Some chosen)
    /\ (VK_KHR_SWAPCHAIN_EXTENSION_NAME ∈ drv_deviceExtensions drv chosen ->
        PickPhysicalVulkanDevice drv st
        = Ok (tt, with_globals (set_physicalDevice chosen) st))
    /\ (VK_KHR_SWAPCHAIN_EXTENSION_NAME ∉ drv_deviceExtensions drv chosen ->
        fails_fatally (PickPhysicalVulkanDevice drv st)).
Proof.
  intros devices discrete Hne Hvalid Hnull.
  destruct devices as [| d0 rest] eqn:Hdevices; [contradiction |].
  subst devices.
  set (pd := PickPhysicalVulkanDevice_loop drv (d0 :: rest)
               (physicalDevice (globals st))).
  exists (if pd =? VK_NULL_HANDLE then d0 else pd).
  pose proof (PickPhysicalVulkanDevice_run drv st d0 rest Hdevices) as Hrun.
  cbv zeta in Hrun. fold pd in Hrun.
  split; [| split; [| split; [| split]]].
  - destruct (Z.eqb_spec pd VK_NULL_HANDLE) as [Hpd | Hpd]; [left |].
    destruct (PickPhysicalVulkanDevice_loop_result drv (d0 :: rest)
                (physicalDevice (globals st))) as [Hres | Hres];
      [| exact Hres].
    fold pd in Hres. congruence.
  - intros i d Hi Hd Hbefore.
    assert (Hpd : pd = d)
      by (apply (PickPhysicalVulkanDevice_loop_first drv _ _ i);
          assumption).
    rewrite Hpd.
    assert (Hd0 : d <> VK_NULL_HANDLE).
    { rewrite Forall_forall in Hvalid. apply Hvalid.
      eapply list_elem_of_lookup_2. exact Hi. }
    now destruct (Z.eqb_spec d VK_NULL_HANDLE).
  - intros Hnone.
    assert (Hpd : pd = VK_NULL_HANDLE).
    { unfold pd. rewrite PickPhysicalVulkanDevice_loop_none by exact Hnone.
      exact Hnull. }
    rewrite Hpd. reflexivity.
  - intros Hext. rewrite Hrun.
    apply extension_found_spec in Hext. rewrite Hext.
    destruct (drv_deviceExtensions drv
                (if pd =? VK_NULL_HANDLE then d0 else pd)) as [| p ps];
      [discriminate | reflexivity].
  - intros Hext. rewrite Hrun.
    destruct (Z.of_nat (length (drv_deviceExtensions drv
                (if pd =? VK_NULL_HANDLE then d0 else pd))) =? 0);
      [eexists; reflexivity |].
    destruct (extension_found VK_KHR_SWAPCHAIN_EXTENSION_NAME
                (drv_deviceExtensions drv
                   (if pd =? VK_NULL_HANDLE then d0 else pd))) eqn:Hfound;
      [| eexists; reflexivity].
    apply extension_found_spec in Hfound. contradiction.
Qed.

Lemma PickPhysicalVulkanDevice_selection_witness :
  PickPhysicalVulkanDevice Samples.three_gpus initial_state
  = Ok (tt, with_globals (set_physicalDevice 7) initial_state).
Proof.
  destruct (PickPhysicalVulkanDevice_selection Samples.three_gpus
              initial_state)
    as (chosen & _ & Hfirst & _ & Hrun & _).
  - discriminate.
  - repeat constructor; discriminate.
  - reflexivity.
  - assert (Hchosen : chosen = 7).
    { apply (Hfirst 1%nat 7); [reflexivity | reflexivity |].
      intros [| j] e Hj He; [| lia].
      injection He as <-. vm_compute. discriminate. }
    subst chosen. apply Hrun.
    cbn. rewrite !elem_of_cons. right. left. reflexivity.
Defined.

(** ** Queue family resolution *)

Lemma FindQueueFamilies_loop_graphics drv pd surface n :
  forall i acc,
    (0 < n)%nat ->
    let r := FindQueueFamilies_loop drv pd surface n i acc in
    graphicsFamily r = i + Z.of_nat n - 1 /\ didSetGraphicsFamily r = true.
Proof.
  induction n as [| n IH]; intros i acc Hn; [lia |].
  cbn [FindQueueFamilies_loop]. destruct n as [| n].
  - cbn [FindQueueFamilies_loop].
    destruct (negb (drv_surfaceSupport drv pd i surface =? 0)); cbn;
      split; (lia || reflexivity).
  - match goal with
    | |- context [FindQueueFamilies_loop _ _ _ _ _ ?a] =>
        destruct (IH (i + 1) a ltac:(lia)) as [Hg Hd]
    end.
    cbv zeta. rewrite Hg, Hd. split; [lia | reflexivity].
Qed.

Lemma FindQueueFamilies_loop_present_none drv pd surface n :
  forall i acc,
    (forall k, i <= k < i + Z.of_nat n ->
               supports_present drv pd surface k = false) ->
    let r := FindQueueFamilies_loop drv pd surface n i acc in
    presentFamily r = presentFamily acc
    /\ didSetPresentFamily r = didSetPresentFamily acc.
Proof.
  induction n as [| n IH]; intros i acc Hnone; [split; reflexivity |].
  cbn [FindQueueFamilies_loop].
  assert (Hi : supports_present drv pd surface i = false)
    by (apply Hnone; lia).
  unfold supports_present in Hi. rewrite Hi.
  match goal with
  | |- context [FindQueueFamilies_loop _ _ _ _ _ ?a] =>
      destruct (IH (i + 1) a) as [Hp Hd]
  end.
  - intros k Hk. apply Hnone. lia.
  - cbv zeta. rewrite Hp, Hd. split; reflexivity.
Qed.

Lemma FindQueueFamilies_loop_present_last drv pd surface n :
  forall i acc k,
    i <= k < i + Z.of_nat n ->
    supports_present drv pd surface k = true ->
    (forall j, k < j < i + Z.of_nat n ->
               supports_present drv pd surface j = false) ->
    let r := FindQueueFamilies_loop drv pd surface n i acc in
    presentFamily r = k /\ didSetPresentFamily r = true.
Proof.
  induction n as [| n IH]; intros i acc k Hk Hyes Hafter; [lia |].
  cbn [FindQueueFamilies_loop].
  destruct (Z.eq_dec k i) as [-> | Hki].
  - unfold supports_present in Hyes. rewrite Hyes.
    match goal with
    | |- context [FindQueueFamilies_loop _ _ _ _ _ ?a] =>
        destruct (FindQueueFamilies_loop_present_none drv pd surface n
                    (i + 1) a) as [Hp Hd]
    end.
    + intros j Hj. apply Hafter. lia.
    + cbv zeta. rewrite Hp, Hd. split; reflexivity.
  - apply IH; [lia | exact Hyes |]. intros j Hj. apply Hafter. lia.
Qed.

Lemma FindQueueFamilies_run drv st :
  FindQueueFamilies drv st =
    let g := globals st in
    let n := length (drv_queueFamilies drv (physicalDevice g)) in
    Ok (match n with
        | O => mkIndices 0 false 0 false
        | S _ => FindQueueFamilies_loop drv (physicalDevice g)
                   (vulkanSurface g) n 0 (mkIndices 0 false 0 false)
        end, st).
Proof.
  unfold FindQueueFamilies, bind, get_globals. cbv zeta.
  destruct (drv_queueFamilies drv (physicalDevice (globals st)))
    as [| q qs]; [reflexivity |].
  cbn [length].
  assert (Hz : (Z.of_nat (S (length qs)) =? 0) = false) by reflexivity.
  rewrite Hz, Nat2Z.id. reflexivity.
Qed.

(** What the scan does record: the graphics family is the last index of the
    list whatever the families can do; the present family is the last index
    that reports presentation support. *)
Lemma FindQueueFamilies_graphics_is_last_index drv st :
  let g := globals st in
  let n := length (drv_queueFamilies drv (physicalDevice g)) in
  (0 < n)%nat ->
  exists q,
    FindQueueFamilies drv st = Ok (q, st)
    /\ graphicsFamily q = Z.of_nat n - 1
    /\ didSetGraphicsFamily q = true.
Proof.
  intros g n Hn. subst g n. rewrite FindQueueFamilies_run. cbv zeta.
  set (g := globals st) in *.
  destruct (length (drv_queueFamilies drv (physicalDevice g)))
    as [| n']; [lia |].
  eexists. split; [reflexivity |]. cbv beta iota.
  destruct (FindQueueFamilies_loop_graphics drv (physicalDevice g)
              (vulkanSurface g) (S n') 0 (mkIndices 0 false 0 false)
              ltac:(lia)) as [Hg Hd].
  split; [rewrite Hg; lia | exact Hd].
Qed.

Lemma FindQueueFamilies_present_is_last_supported drv st k :
  let g := globals st in
  let n := length (drv_queueFamilies drv (physicalDevice g)) in
  last_index_below (supports_present drv (physicalDevice g) (vulkanSurface g))
                   (Z.of_nat n) k ->
  exists q,
    FindQueueFamilies drv st = Ok (q, st)
    /\ presentFamily q = k
    /\ didSetPresentFamily q = true.
Proof.
  intros g n (Hk & Hyes & Hafter). subst g n.
  rewrite FindQueueFamilies_run. cbv zeta.
  set (g := globals st) in *.
  destruct (length (drv_queueFamilies drv (physicalDevice g)))
    as [| n']; [lia |].
  eexists. split; [reflexivity |]. cbv beta iota.
  apply FindQueueFamilies_loop_present_last; [lia | exact Hyes |].
  intros j Hj. apply Hafter. lia.
Qed.

Lemma FindQueueFamilies_present_unset drv st :
  let g := globals st in
  let n := length (drv_queueFamilies drv (physicalDevice g)) in
  (forall k, 0 <= k < Z.of_nat n ->
             supports_present drv (physicalDevice g) (vulkanSurface g) k
             = false) ->
  exists q,
    FindQueueFamilies drv st = Ok (q, st)
    /\ didSetPresentFamily q = false.
Proof.
  intros g n Hnone. subst g n. rewrite FindQueueFamilies_run. cbv zeta.
  set (g := globals st) in *.
  destruct (length (drv_queueFamilies drv (physicalDevice g)))
    as [| n']; [eexists; split; reflexivity |].
  eexists. split; [reflexivity |]. cbv beta iota.
  destruct (FindQueueFamilies_loop_present_none drv (physicalDevice g)
              (vulkanSurface g) (S n') 0 (mkIndices 0 false 0 false))
    as [_ Hd]; [| exact Hd].
  intros k Hk. apply Hnone. lia.
Qed.

(** The two ways [CreateLogicalDevice] does stop on the families it is
    given: there is no family at all, or none can present. *)
Lemma CreateLogicalDevice_no_families drv st :
  drv_queueFamilies drv (physicalDevice (globals st)) = [] ->
  CreateLogicalDevice drv st = Fatal "Failed to find graphics queue family.".
Proof.
  intros Hnone. unfold CreateLogicalDevice.
  unfold bind at 1. rewrite FindQueueFamilies_run. cbv zeta.
  rewrite Hnone. reflexivity.
Qed.

Lemma CreateLogicalDevice_no_present drv st :
  let g := globals st in
  let n := length (drv_queueFamilies drv (physicalDevice g)) in
  (0 < n)%nat ->
  (forall k, 0 <= k < Z.of_nat n ->
             supports_present drv (physicalDevice g) (vulkanSurface g) k
             = false) ->
  CreateLogicalDevice drv st = Fatal "Failed to find present queue family.".
Proof.
  intros g n Hn Hnone.
  destruct (FindQueueFamilies_graphics_is_last_index drv st Hn)
    as (q & Hrun & _ & Hgraphics).
  destruct (FindQueueFamilies_present_unset drv st Hnone)
    as (q' & Hrun' & Hpresent).
  rewrite Hrun in Hrun'. injection Hrun' as <-.
  unfold CreateLogicalDevice. unfold bind at 1. rewrite Hrun.
  unfold bind, modify_globals, get_globals, fatal_if. cbn.
  rewrite Hgraphics, Hpresent. reflexivity.
Qed.

(** C1, the code at a list whose last family has no graphics capability:
    the scan records index 1 as the graphics family although family 1 does
    not expose graphics and the last family that does is family 0.  The
    present family, 0, is the last one reporting presentation support. *)
Theorem FindQueueFamilies_graphics_family_ignores_capability :
  let drv := Samples.compute_last in
  forall st : State,
    let families := drv_queueFamilies drv (physicalDevice (globals st)) in
    FindQueueFamilies drv st = Ok (mkIndices 1 true 0 true, st)
    /\ graphics_at families 1 = false
    /\ last_index_below (graphics_at families)
                        (Z.of_nat (length families)) 0
    /\ last_index_below
         (supports_present drv (physicalDevice (globals st))
                           (vulkanSurface (globals st)))
         (Z.of_nat (length families)) 0.
Proof.
  intros drv st families.
  split; [rewrite FindQueueFamilies_run; reflexivity |].
  split; [reflexivity |].
  split.
  - split; [cbn; lia |]. split; [reflexivity |].
    intros j Hj. cbn in Hj. assert (j = 1) as -> by lia. reflexivity.
  - split; [cbn; lia |]. split; [reflexivity |].
    intros j Hj. cbn in Hj. assert (j = 1) as -> by lia. reflexivity.
Qed.

Lemma Samples_compute_only_runs :
  main_initialization Samples.compute_only initial_state
  = Ok (tt, Samples.ready Samples.compute_only).
Proof. vm_compute. reflexivity. Qed.

(** C2, the code at a list in which no family supports graphics: the only
    family is compute-only and can present.  [CreateLogicalDevice] does not
    end in a fatal error; it records family 0 as the graphics family, and the
    whole initialisation runs to completion with it. *)
Theorem CreateLogicalDevice_accepts_family_without_graphics :
  let drv := Samples.compute_only in
  (forall st q,
      q ∈ drv_queueFamilies drv (physicalDevice (globals st)) ->
      supports_graphics q = false)
  /\ (forall st, ~ fails_fatally (CreateLogicalDevice drv st))
  /\ main_initialization drv initial_state = Ok (tt, Samples.ready drv)
  /\ queueFamilyIndices (globals (Samples.ready drv))
     = mkIndices 0 true 0 true.
Proof.
  intros drv. split; [| split; [| split]].
  - intros st q Hq. cbn in Hq. apply list_elem_of_singleton in Hq.
    subst q. reflexivity.
  - intros st [msg Hmsg]. revert Hmsg.
    unfold CreateLogicalDevice. unfold bind at 1.
    rewrite FindQueueFamilies_run.
    unfold bind, modify_globals, get_globals, fatal_if, vkCreate,
      next_result, get_world, put_world, new_object, ret.
    cbn. discriminate.
  - exact Samples_compute_only_runs.
  - vm_compute. reflexivity.
Qed.

(** A single graphics family that cannot present: the run ends on the
    present family. *)
Example CreateLogicalDevice_graphics_only st :
  CreateLogicalDevice Samples.graphics_only st
  = Fatal "Failed to find present queue family.".
Proof.
  apply CreateLogicalDevice_no_present.
  - cbn. lia.
  - intros k _. reflexivity.
Qed.

(** ** The family indices of a concurrent swapchain *)

(** C5, the code on a platform whose graphics and present families differ:
    family 1 is recorded for graphics and family 0 for presentation.  The
    device create info has two queue-create entries, one per family, and the
    swapchain create info asks for concurrent sharing between two families,
    as the claim has it.  But the array holding the two indices is declared
    inside the block of the [if], and when [vkCreateSwapchainKHR] reads
    [pQueueFamilyIndices] that block has been left: the pointer refers to an
    array whose lifetime is over.  No swapchain listing both indices is
    created; the initialisation runs into undefined behaviour, and so does
    [CreateSwapChain] for every driver and every two different families. *)
Theorem CreateSwapChain_family_indices_dangle :
  let drv := Samples.separate in
  let q := mkIndices 1 true 0 true in
  (forall st, FindQueueFamilies drv st = Ok (q, st))
  /\ queue_create_entries (CreateLogicalDevice_deviceCreateInfo q)
     = [mkQueueCreateInfo 1 1 float_1_0; mkQueueCreateInfo 0 1 float_1_0]
  /\ (forall details fmt surface,
        let info := CreateSwapChain_createInfo details fmt surface q in
        sc_imageSharingMode info = VK_SHARING_MODE_CONCURRENT
        /\ sc_queueFamilyIndexCount info = 2
        /\ sc_pQueueFamilyIndices info = AutomaticArray false [1; 0]
        /\ family_indices_readable info = false)
  /\ main_initialization drv initial_state = Undefined
  /\ (forall drv' details st,
        graphicsFamily (queueFamilyIndices (globals st))
        <> presentFamily (queueFamilyIndices (globals st)) ->
        CreateSwapChain drv' details st = Undefined).
Proof.
  intros drv q.
  split; [intros st; rewrite FindQueueFamilies_run; reflexivity |].
  split; [reflexivity |].
  split.
  { intros details fmt surface.
    apply (swapchain_sharing_distinct details fmt surface q). discriminate. }
  split; [exact Samples_separate_undefined |].
  intros drv' details st Hne. now apply CreateSwapChain_dangling.
Qed.

(** * Further properties of the negotiation functions *)

(** X1: [ChooseSwapSurfaceFormat] never invents a format: whatever it
    returns is an entry of the list it was given, and the only list on which
    it returns nothing (the read of [formats[0]] is out of bounds) is the
    empty list. *)
Theorem ChooseSwapSurfaceFormat_member (details : swapchain_support_details_t) :
  (ChooseSwapSurfaceFormat details = None <-> formats details = [])
  /\ forall f : VkSurfaceFormatKHR,
      ChooseSwapSurfaceFormat details = Some f -> f ∈ formats details.
Proof.
  unfold ChooseSwapSurfaceFormat.
  destruct (ChooseSwapSurfaceFormat_loop (formats details)) as [f' |] eqn:Hloop.
  - destruct (ChooseSwapSurfaceFormat_loop_found _ _ Hloop) as [Hin _].
    split.
    + split; [discriminate |].
      intros Hnil. rewrite Hnil in Hin. inversion Hin.
    + intros f [= <-]. exact Hin.
  - split.
    + destruct (formats details); [tauto | split; discriminate].
    + intros f Hf. eapply list_elem_of_lookup_2. exact Hf.
Qed.

Lemma ChooseSwapSurfaceFormat_member_witness :
  mkSurfaceFormat 44 0
  ∈ [mkSurfaceFormat 50 0; mkSurfaceFormat 44 0; mkSurfaceFormat 44 0].
Proof.
  destruct (ChooseSwapSurfaceFormat_member
              (mkDetails Samples.caps_free
                 [mkSurfaceFormat 50 0; mkSurfaceFormat 44 0;
                  mkSurfaceFormat 44 0] [2])) as [_ Hin].
  apply (Hin (mkSurfaceFormat 44 0)). reflexivity.
Defined.

(** X2: [ChoosePresentMode] answers mailbox or FIFO and nothing else,
    whatever the list holds; and whenever the list contains FIFO (which the
    API guarantees) the answer is an entry of the list. *)
Theorem ChoosePresentMode_member (details : swapchain_support_details_t) :
  (ChoosePresentMode details = VK_PRESENT_MODE_MAILBOX_KHR
   \/ ChoosePresentMode details = VK_PRESENT_MODE_FIFO_KHR)
  /\ (VK_PRESENT_MODE_FIFO_KHR ∈ presentModes details ->
      ChoosePresentMode details ∈ presentModes details).
Proof.
  unfold ChoosePresentMode.
  destruct (ChoosePresentMode_loop (presentModes details)) as [m |] eqn:Hloop.
  - destruct (ChoosePresentMode_loop_found _ _ Hloop) as [-> Hin].
    split; [now left | intros _; exact Hin].
  - split; [now right | intros Hfifo; exact Hfifo].
Qed.

Lemma ChoosePresentMode_member_witness :
  ChoosePresentMode (mkDetails Samples.caps_free [] [0; 2; 3]) ∈ [0; 2; 3].
Proof.
  apply (ChoosePresentMode_member (mkDetails Samples.caps_free [] [0; 2; 3])).
  cbn. rewrite !elem_of_cons. right. left. reflexivity.
Defined.

(** X3: the image count requested from the swapchain is one the surface
    allows.  For [uint32_t] counts with [minImageCount] below [UINT32_MAX]
    and, when [maxImageCount] is nonzero, not above it, the request is at
    least [minImageCount], at most a nonzero [maxImageCount], and itself a
    [uint32_t] value. *)
Theorem CreateSwapChain_imageCount_bounds (caps : VkSurfaceCapabilitiesKHR) :
  U32.in_range (minImageCount caps) ->
  U32.in_range (maxImageCount caps) ->
  minImageCount caps < U32.UINT32_MAX ->
  (maxImageCount caps = 0 \/ minImageCount caps <= maxImageCount caps) ->
  minImageCount caps <= CreateSwapChain_imageCount caps
  /\ (maxImageCount caps <> 0 ->
      CreateSwapChain_imageCount caps <= maxImageCount caps)
  /\ U32.in_range (CreateSwapChain_imageCount caps).
Proof.
  unfold U32.in_range, U32.UINT32_MAX. intros Hmin Hmax Hlt Hord.
  unfold CreateSwapChain_imageCount.
  rewrite U32_add_small by lia.
  destruct (Z.gtb_spec (maxImageCount caps) 0);
    destruct (Z.gtb_spec (minImageCount caps + 1) (maxImageCount caps));
    cbn [andb]; lia.
Qed.

Lemma CreateSwapChain_imageCount_bounds_witness :
  3 <= CreateSwapChain_imageCount
         (mkCapabilities 3 3 Samples.undefined_extent
                         (mkExtent 1 1) (mkExtent 4096 4096) 1).
Proof.
  destruct (CreateSwapChain_imageCount_bounds
              (mkCapabilities 3 3 Samples.undefined_extent
                              (mkExtent 1 1) (mkExtent 4096 4096) 1))
    as (Hlow & _ & _).
  - vm_compute. split; [discriminate | reflexivity].
  - vm_compute. split; [discriminate | reflexivity].
  - reflexivity.
  - right. cbn. lia.
  - exact Hlow.
Defined.

(** X4: when [ChooseSwapExtent] clamps, the lower bound has the last word:
    the result is never below [minImageExtent], whatever the bounds are, and
    in a component whose maximum lies below its minimum the result is the
    minimum. *)
Theorem ChooseSwapExtent_minimum_wins (details : swapchain_support_details_t) :
  let caps := capabilities details in
  extent_undefined (currentExtent caps) ->
  extent_le (minImageExtent caps) (ChooseSwapExtent details)
  /\ (width (maxImageExtent caps) < width (minImageExtent caps) ->
      width (ChooseSwapExtent details) = width (minImageExtent caps))
  /\ (height (maxImageExtent caps) < height (minImageExtent caps) ->
      height (ChooseSwapExtent details) = height (minImageExtent caps)).
Proof.
  intros caps Hu. rewrite (ChooseSwapExtent_clamped details Hu). fold caps.
  unfold extent_le. cbn [width height]. repeat split; lia.
Qed.

Lemma ChooseSwapExtent_minimum_wins_witness :
  ChooseSwapExtent (Samples.details_of Samples.caps_inverted)
  = mkExtent 1000 1000.
Proof.
  destruct (ChooseSwapExtent_minimum_wins
              (Samples.details_of Samples.caps_inverted))
    as (_ & Hw & Hh); [reflexivity |].
  specialize (Hw ltac:(reflexivity)). specialize (Hh ltac:(reflexivity)).
  destruct (ChooseSwapExtent (Samples.details_of Samples.caps_inverted))
    as [w h].
  cbn in Hw, Hh. now subst.
Defined.

(** X5: the queue-create entries handed to [vkCreateDevice] never name a
    queue family twice, name exactly the graphics and the present family, and
    each ask for one queue. *)
Theorem CreateLogicalDevice_entries_unique (q : queue_family_indices_t) :
  let entries :=
    queue_create_entries (CreateLogicalDevice_deviceCreateInfo q) in
  NoDup (map dq_queueFamilyIndex entries)
  /\ (forall family,
         family ∈ map dq_queueFamilyIndex entries
         <-> family = graphicsFamily q \/ family = presentFamily q)
  /\ Forall (fun e => dq_queueCount e = 1) entries.
Proof.
  intros entries. subst entries.
  destruct (Z.eq_dec (graphicsFamily q) (presentFamily q)) as [Heq | Hne].
  - rewrite (device_entries_same q Heq). cbn. split; [| split].
    + apply NoDup_singleton.
    + intros family. rewrite list_elem_of_singleton, <- Heq. tauto.
    + repeat constructor.
  - rewrite (device_entries_distinct q Hne). cbn. split; [| split].
    + apply NoDup_cons. split; [| apply NoDup_singleton].
      rewrite list_elem_of_singleton. exact Hne.
    + intros family. rewrite elem_of_cons, list_elem_of_singleton. tauto.
    + repeat constructor.
Qed.

(** * Further properties of queue family resolution *)

(** X7: the present family is resolved by presentation support alone.  When
    [k] is the last family index reporting presentation support,
    [FindQueueFamilies] returns [presentFamily = k] with its flag set; when no
    family reports support, the flag stays unset and [presentFamily] stays 0.
    In both cases the program state is left as it was. *)
Theorem FindQueueFamilies_present_family (drv : Driver) (st : State) :
  let g := globals st in
  let n := Z.of_nat (length (drv_queueFamilies drv (physicalDevice g))) in
  let present := supports_present drv (physicalDevice g) (vulkanSurface g) in
  (forall k,
      last_index_below present n k ->
      exists q,
        FindQueueFamilies drv st = Ok (q, st)
        /\ presentFamily q = k /\ didSetPresentFamily q = true)
  /\ ((forall k, 0 <= k < n -> present k = false) ->
      exists q,
        FindQueueFamilies drv st = Ok (q, st)
        /\ presentFamily q = 0 /\ didSetPresentFamily q = false).
Proof.
  intros g n present. split.
  - intros k Hk. now apply FindQueueFamilies_present_is_last_supported.
  - intros Hnone. subst g n present.
    rewrite FindQueueFamilies_run. cbv zeta.
    set (g := globals st) in *.
    destruct (length (drv_queueFamilies drv (physicalDevice g)))
      as [| n']; [eexists; repeat split; reflexivity |].
    eexists. split; [reflexivity |]. cbv beta iota.
    apply (FindQueueFamilies_loop_present_none drv (physicalDevice g)
             (vulkanSurface g) (S n') 0 (mkIndices 0 false 0 false)).
    intros k Hk. apply Hnone. lia.
Qed.

Lemma FindQueueFamilies_present_family_witness :
  exists q,
    FindQueueFamilies Samples.separate initial_state = Ok (q, initial_state)
    /\ presentFamily q = 0 /\ didSetPresentFamily q = true.
Proof.
  destruct (FindQueueFamilies_present_family Samples.separate initial_state)
    as [Hlast _].
  apply (Hlast 0). split; [cbn; lia |]. split; [reflexivity |].
  intros j Hj. cbn in Hj. assert (j = 1) as -> by lia. reflexivity.
Defined.

(** X8: what the scan records for the graphics role.  On a non-empty family
    list [FindQueueFamilies] returns the index of the last family of the list
    as [graphicsFamily], with its flag set, whatever the families' flags and
    presentation support are; on an empty list it returns the zeroed record
    with both flags unset.  It never fails and never changes the state. *)
Theorem FindQueueFamilies_graphics_family (drv : Driver) (st : State) :
  let g := globals st in
  let n := length (drv_queueFamilies drv (physicalDevice g)) in
  exists q,
    FindQueueFamilies drv st = Ok (q, st)
    /\ (n = 0%nat -> q = mkIndices 0 false 0 false)
    /\ ((0 < n)%nat ->
        graphicsFamily q = Z.of_nat n - 1 /\ didSetGraphicsFamily q = true).
Proof.
  intros g n.
  destruct n as [| n'] eqn:Hn.
  - subst g n. rewrite FindQueueFamilies_run. cbv zeta. rewrite Hn.
    eexists. split; [reflexivity |]. split; [reflexivity | lia].
  - destruct (FindQueueFamilies_graphics_is_last_index drv st)
      as (q & Hrun & Hg & Hd).
    + fold g. fold n. lia.
    + exists q. split; [exact Hrun |]. split; [discriminate |].
      intros _. fold g in Hg. fold n in Hg. rewrite Hn in Hg.
      split; [exact Hg | exact Hd].
Qed.

Lemma FindQueueFamilies_graphics_family_witness :
  exists q,
    FindQueueFamilies Samples.separate initial_state = Ok (q, initial_state)
    /\ graphicsFamily q = 1.
Proof.
  destruct (FindQueueFamilies_graphics_family Samples.separate initial_state)
    as (q & Hrun & _ & Hlast).
  exists q. split; [exact Hrun |].
  destruct Hlast as [Hg _]; [cbn; lia | exact Hg].
Defined.

(** X9: the two ways [CreateLogicalDevice] refuses the families.  With no
    queue family at all it ends in the fatal error on the graphics family;
    with at least one family and none that can present to the surface it
    ends in the fatal error on the present family. *)
Theorem CreateLogicalDevice_refuses (drv : Driver) (st : State) :
  let g := globals st in
  let families := drv_queueFamilies drv (physicalDevice g) in
  (families = [] ->
   CreateLogicalDevice drv st
   = Fatal "Failed to find graphics queue family.")
  /\ (families <> [] ->
      (forall k, 0 <= k < Z.of_nat (length families) ->
                 supports_present drv (physicalDevice g) (vulkanSurface g) k
                 = false) ->
      CreateLogicalDevice drv st
      = Fatal "Failed to find present queue family.").
Proof.
  intros g families. split.
  - apply CreateLogicalDevice_no_families.
  - intros Hne Hnone. apply CreateLogicalDevice_no_present; [| exact Hnone].
    fold g. fold families. destruct families; [contradiction | cbn; lia].
Qed.

Lemma CreateLogicalDevice_refuses_witness :
  CreateLogicalDevice Samples.graphics_only initial_state
  = Fatal "Failed to find present queue family.".
Proof.
  destruct (CreateLogicalDevice_refuses Samples.graphics_only initial_state)
    as [_ Hpresent].
  apply Hpresent; [discriminate |]. intros k _. reflexivity.
Defined.

(** * The whole run, within defined behaviour *)

(** ** Rules for [safe] *)

Section SafeRules.

Context {A B : Type}.

Lemma safe_ret (a : A) (Q : A -> State -> Prop) st :
  Q a st -> safe (ret a) Q st.
Proof. intros H. exact H. Qed.

Lemma safe_bind (m : M A) (k : A -> M B) (Q : B -> State -> Prop) st :
  safe m (fun a st' => safe (k a) Q st') st -> safe (bind m k) Q st.
Proof.
  unfold safe, bind. destruct (m st) as [[a st'] | msg |]; auto.
Qed.

Lemma safe_mono (m : M A) (Q Q' : A -> State -> Prop) st :
  (forall a st', Q a st' -> Q' a st') -> safe m Q st -> safe m Q' st.
Proof.
  unfold safe. intros HQ. destruct (m st) as [[a st'] | msg |]; auto.
Qed.

Lemma safe_Ok (m : M A) (Q : A -> State -> Prop) st a st' :
  safe m Q st -> m st = Ok (a, st') -> Q a st'.
Proof. unfold safe. intros H Hrun. now rewrite Hrun in H. Qed.

Lemma safe_defined (m : M A) (Q : A -> State -> Prop) st :
  safe m Q st -> m st <> Undefined.
Proof. unfold safe. intros H Hrun. now rewrite Hrun in H. Qed.

Lemma safe_FatalError (msg : string) (Q : A -> State -> Prop) st :
  safe (FatalError msg) Q st.
Proof. exact I. Qed.

Lemma safe_array_get (a : list A) i x (Q : A -> State -> Prop) st :
  a !! i = Some x -> Q x st -> safe (array_get a i) Q st.
Proof. intros Hx HQ. unfold array_get. rewrite Hx. exact HQ. Qed.

End SafeRules.

Lemma safe_get_globals (Q : Globals -> State -> Prop) st :
  Q (globals st) st -> safe get_globals Q st.
Proof. intros H. exact H. Qed.

Lemma safe_modify_globals f (Q : unit -> State -> Prop) st :
  Q tt (with_globals f st) -> safe (modify_globals f) Q st.
Proof. intros H. exact H. Qed.

Lemma safe_get_world (Q : World -> State -> Prop) st :
  Q (world st) st -> safe get_world Q st.
Proof. intros H. exact H. Qed.

Lemma safe_fatal_if c msg (Q : unit -> State -> Prop) st :
  (c = false -> Q tt st) -> safe (fatal_if c msg) Q st.
Proof. intros H. destruct c; [exact I | now apply H]. Qed.

Lemma safe_for_loop (Inv : nat -> State -> Prop) body n :
  forall i st,
    Inv i st ->
    (forall j st', (i <= j < i + n)%nat -> Inv j st' ->
                   safe (body j) (fun _ st'' => Inv (S j) st'') st') ->
    safe (for_loop n i body) (fun _ st' => Inv (i + n)%nat st') st.
Proof.
  induction n as [| n IH]; intros i st Hi Hbody; cbn [for_loop].
  - apply safe_ret. now rewrite Nat.add_0_r.
  - apply safe_bind. eapply safe_mono; [| apply (Hbody i st); [lia | exact Hi]].
    intros u st' Hst'. cbn beta in *.
    replace (i + S n)%nat with (S i + n)%nat by lia.
    apply IH; [exact Hst' |].
    intros j st'' Hj. apply Hbody. lia.
Qed.

Lemma safe_next_result drv (Q : Z -> State -> Prop) st :
  Q (drv_result drv (w_calls (world st))) (bump st) ->
  safe (next_result drv) Q st.
Proof. intros H. exact H. Qed.

Lemma safe_new_object o (Q : Z -> State -> Prop) st :
  Q (fresh st) (alloc o st) -> safe (new_object o) Q st.
Proof. intros H. exact H. Qed.

Lemma safe_lookup_object h (Q : option Object -> State -> Prop) st :
  Q (objects st !! h) st -> safe (lookup_object h) Q st.
Proof. intros H. exact H. Qed.

Lemma safe_store_object h o (Q : unit -> State -> Prop) st :
  Q tt (store h o st) -> safe (store_object h o) Q st.
Proof. intros H. exact H. Qed.

Lemma rejected_spec r : rejected r = false <-> r = VK_SUCCESS.
Proof.
  unfold rejected. destruct (Z.eqb_spec r VK_SUCCESS); split;
    (congruence || discriminate || auto).
Qed.

(** A creation call: either it is rejected, or the oracle accepted it and
    the new object sits at the handle that was fresh. *)
Lemma safe_vkCreate drv o old (Q : Z * Z -> State -> Prop) st :
  (forall r, rejected r = true -> Q (r, old) (bump st)) ->
  (drv_result drv (w_calls (world st)) = VK_SUCCESS ->
   Q (VK_SUCCESS, fresh st) (alloc o (bump st))) ->
  safe (vkCreate drv o old) Q st.
Proof.
  intros Hrej Hok. unfold vkCreate. apply safe_bind, safe_next_result.
  destruct (Z.eqb_spec (drv_result drv (w_calls (world st))) VK_SUCCESS)
    as [Heq | Hne].
  - rewrite Heq. apply safe_bind, safe_new_object, safe_ret. now apply Hok.
  - apply safe_ret, Hrej. unfold rejected.
    now destruct (Z.eqb_spec (drv_result drv (w_calls (world st))) VK_SUCCESS).
Qed.

Ltac safe_step :=
  lazymatch goal with
  | |- safe (bind _ _) _ _ => apply safe_bind
  | |- safe get_globals _ _ => apply safe_get_globals
  | |- safe get_world _ _ => apply safe_get_world
  | |- safe (modify_globals _) _ _ => apply safe_modify_globals
  | |- safe (ret _) _ _ => apply safe_ret
  | |- safe (FatalError _) _ _ => apply safe_FatalError
  | |- safe (fatal_if _ _) _ _ =>
      let Hc := fresh "Hc" in apply safe_fatal_if; intros Hc
  | |- safe (lookup_object _) _ _ => apply safe_lookup_object
  | |- safe (store_object _ _) _ _ => apply safe_store_object
  | |- safe (next_result _) _ _ => apply safe_next_result
  end.

Ltac safe_steps := repeat (safe_step; cbn beta).

Ltac safe_rejected :=
  let r := fresh "r" in
  let Hr := fresh "Hr" in
  intros r Hr; safe_steps; cbn [fst snd] in *; congruence.

(** ** Accepted calls *)

Lemma accepted_with_globals drv f st :
  accepted drv st -> accepted drv (with_globals f st).
Proof. intros H. exact H. Qed.

Lemma accepted_alloc drv o st : accepted drv st -> accepted drv (alloc o st).
Proof. intros H. exact H. Qed.

Lemma accepted_store drv h o st :
  accepted drv st -> accepted drv (store h o st).
Proof. intros H. exact H. Qed.

Lemma accepted_remove drv h st : accepted drv st -> accepted drv (remove h st).
Proof. intros H. exact H. Qed.

Lemma accepted_bump drv st :
  accepted drv st ->
  drv_result drv (w_calls (world st)) = VK_SUCCESS ->
  accepted drv (bump st).
Proof.
  intros Hacc Hnew k Hk. cbn in Hk.
  destruct (decide (k = w_calls (world st))) as [-> | Hne]; [exact Hnew |].
  apply Hacc. lia.
Qed.

#[local] Hint Resolve accepted_with_globals accepted_alloc accepted_store
  accepted_remove accepted_bump : world.

Lemma sound_lookup_fresh st h :
  sound st -> fresh st <= h -> objects st !! h = None.
Proof.
  intros Hs Hh. destruct (objects st !! h) as [o |] eqn:Ho; [| reflexivity].
  apply Hs in Ho. lia.
Qed.

(** The shape shared by the steps that create one object and store its
    handle in one global. *)
Lemma stage_create drv o (set : Z -> Globals -> Globals) st :
  sound st -> accepted drv st ->
  drv_result drv (w_calls (world st)) = VK_SUCCESS ->
  let st' := with_globals (set (fresh st)) (alloc o (bump st)) in
  stage drv st st' 1 /\ objects st' !! fresh st = Some o.
Proof.
  intros Hs Hacc Hok st'. split; [split; [| split; [| split]] |].
  - subst st'. auto 10 with world.
  - subst st'. auto 10 with world.
  - reflexivity.
  - intros h Hh. subst st'. st_simpl.
    rewrite objects_alloc_ne by (st_simpl; lia). reflexivity.
  - subst st'. st_simpl. rewrite <- (fresh_bump st). apply objects_alloc_eq.
Qed.

Lemma stage_refl drv st : sound st -> accepted drv st -> stage drv st st 0.
Proof.
  intros Hs Hacc. split; [exact Hs | split; [exact Hacc | split]];
    [lia | auto].
Qed.

Lemma stage_trans drv st1 st2 st3 k1 k2 :
  0 <= k1 ->
  stage drv st1 st2 k1 -> stage drv st2 st3 k2 ->
  stage drv st1 st3 (k1 + k2).
Proof.
  intros Hk (_ & _ & Hf1 & Hold1) (Hs & Hacc & Hf2 & Hold2).
  split; [exact Hs | split; [exact Hacc | split]]; [lia |].
  intros h Hh. rewrite Hold2 by lia. now apply Hold1.
Qed.

Lemma length_handles base n : length (handles base n) = n.
Proof. unfold handles. now rewrite length_map, length_seq. Qed.

Lemma handles_lookup base n i :
  (i < n)%nat -> handles base n !! i = Some (base + Z.of_nat i).
Proof.
  intros Hi. unfold handles. rewrite list_lookup_fmap.
  rewrite lookup_seq_lt by exact Hi. reflexivity.
Qed.

Lemma handles_lookup_inv base n i h :
  handles base n !! i = Some h -> (i < n)%nat /\ h = base + Z.of_nat i.
Proof.
  intros Hh.
  assert (Hi : (i < n)%nat)
    by (apply lookup_lt_Some in Hh; now rewrite length_handles in Hh).
  rewrite handles_lookup in Hh by exact Hi. split; [exact Hi | congruence].
Qed.

Lemma handles_eq base n (l : list Z) :
  length l = n ->
  (forall i, (i < n)%nat -> l !! i = Some (base + Z.of_nat i)) ->
  l = handles base n.
Proof.
  intros Hlen Hl. apply list_eq. intros i.
  destruct (decide (i < n)%nat) as [Hi | Hi].
  - now rewrite Hl, handles_lookup.
  - rewrite !lookup_ge_None_2; [reflexivity | |]; rewrite ?length_handles; lia.
Qed.

Lemma NoDup_handles base n : NoDup (handles base n).
Proof.
  unfold handles. apply NoDup_fmap_2; [| apply NoDup_seq].
  intros i j Hij. lia.
Qed.

Lemma elem_of_handles base n h :
  h ∈ handles base n <-> base <= h < base + Z.of_nat n.
Proof.
  unfold handles. rewrite list_elem_of_fmap. split.
  - intros (i & -> & Hi). apply elem_of_seq in Hi. lia.
  - intros Hh. exists (Z.to_nat (h - base)). split; [lia |].
    apply elem_of_seq. lia.
Qed.

(** ** Each step of the initialisation, with defined behaviour *)

Lemma InitVulkanInstance_safe drv st :
  sound st -> accepted drv st ->
  safe (InitVulkanInstance drv)
       (fun _ st' =>
          stage drv st st' 1
          /\ globals st' = set_vulkanInstance (fresh st) (globals st)
          /\ objects st' !! fresh st
             = Some (ObjInstance (drv_instanceExtensions drv))) st.
Proof.
  intros Hs Hacc. unfold InitVulkanInstance. safe_steps.
  apply safe_vkCreate; [safe_rejected |]. intros Hok. safe_steps.
  destruct (stage_create drv (ObjInstance (drv_instanceExtensions drv))
              set_vulkanInstance st Hs Hacc Hok) as [Hst Hobj].
  split; [exact Hst | split; [reflexivity | exact Hobj]].
Qed.

Lemma CreateVulkanSurface_safe drv st :
  sound st -> accepted drv st ->
  safe (CreateVulkanSurface drv)
       (fun _ st' =>
          stage drv st st' 1
          /\ globals st' = set_vulkanSurface (fresh st) (globals st)
          /\ objects st' !! fresh st
             = Some (ObjSurface (vulkanInstance (globals st)))) st.
Proof.
  intros Hs Hacc. unfold CreateVulkanSurface. safe_steps.
  apply safe_vkCreate; [safe_rejected |]. intros Hok. safe_steps.
  destruct (stage_create drv (ObjSurface (vulkanInstance (globals st)))
              set_vulkanSurface st Hs Hacc Hok) as [Hst Hobj].
  split; [exact Hst | split; [reflexivity | exact Hobj]].
Qed.

Lemma check_required_extensions_safe required properties
    (Q : unit -> State -> Prop) st :
  Q tt st -> safe (check_required_extensions required properties) Q st.
Proof.
  intros HQ. induction required as [| name rest IH];
    cbn [check_required_extensions]; safe_steps; assumption.
Qed.

Lemma PickPhysicalVulkanDevice_safe drv st :
  safe (PickPhysicalVulkanDevice drv)
       (fun _ st' =>
          world st' = world st
          /\ exists v, globals st' = set_physicalDevice v (globals st)) st.
Proof.
  unfold PickPhysicalVulkanDevice. safe_steps.
  destruct (drv_physicalDevices drv) as [| d0 rest] eqn:Hdevices;
    [discriminate |].
  match goal with
  | |- context [if ?c then _ else _] => destruct c
  end; safe_steps.
  - eapply safe_array_get; [reflexivity |]. safe_steps.
    apply check_required_extensions_safe.
    split; [reflexivity | eexists; reflexivity].
  - apply check_required_extensions_safe.
    split; [reflexivity | eexists; reflexivity].
Qed.

Lemma FindQueueFamilies_safe drv (Q : queue_family_indices_t -> State -> Prop)
    st :
  (forall q, Q q st) -> safe (FindQueueFamilies drv) Q st.
Proof.
  intros HQ. unfold FindQueueFamilies. safe_steps.
  match goal with
  | |- context [if ?c then _ else _] => destruct c
  end; safe_steps; apply HQ.
Qed.

Lemma CreateLogicalDevice_safe drv st :
  sound st -> accepted drv st ->
  safe (CreateLogicalDevice drv)
       (fun _ st' =>
          stage drv st st' 1
          /\ exists q gq pq,
              globals st'
              = set_presentQueue pq
                  (set_graphicsQueue gq
                     (set_logicalDevice (fresh st)
                        (set_queueFamilyIndices q (globals st))))
              /\ objects st' !! fresh st
                 = Some (ObjDevice (physicalDevice (globals st))
                           (CreateLogicalDevice_deviceCreateInfo q))) st.
Proof.
  intros Hs Hacc. unfold CreateLogicalDevice. safe_steps.
  apply FindQueueFamilies_safe. intros q. safe_steps.
  apply safe_vkCreate; [safe_rejected |]. intros Hok. safe_steps.
  set (st1 := with_globals (set_queueFamilyIndices q) st).
  destruct (stage_create drv
              (ObjDevice (physicalDevice (globals st))
                 (CreateLogicalDevice_deviceCreateInfo q))
              set_logicalDevice st1 Hs Hacc Hok) as [Hst Hobj].
  split; [| eexists q, _, _; split; [reflexivity | exact Hobj]].
  destruct Hst as (Hs' & Hacc' & Hf & Hold).
  split; [exact Hs' | split; [exact Hacc' | split; [exact Hf | exact Hold]]].
Qed.

Lemma QuerySwapchainSupport_safe drv
    (Q : swapchain_support_details_t -> State -> Prop) st :
  (forall d, Q d st) -> safe (QuerySwapchainSupport drv) Q st.
Proof. intros HQ. unfold QuerySwapchainSupport. safe_steps. apply HQ. Qed.

Lemma CreateRenderPass_safe drv st :
  sound st -> accepted drv st ->
  safe (CreateRenderPass drv)
       (fun _ st' =>
          stage drv st st' 1
          /\ globals st' = set_renderPass (fresh st) (globals st)
          /\ objects st' !! fresh st
             = Some (ObjRenderPass (swapchainImageFormat (globals st)))) st.
Proof.
  intros Hs Hacc. unfold CreateRenderPass. safe_steps.
  apply safe_vkCreate; [safe_rejected |]. intros Hok. safe_steps.
  destruct (stage_create drv
              (ObjRenderPass (swapchainImageFormat (globals st)))
              set_renderPass st Hs Hacc Hok) as [Hst Hobj].
  split; [exact Hst | split; [reflexivity | exact Hobj]].
Qed.

Lemma CreateCommandPool_safe drv st :
  sound st -> accepted drv st ->
  safe (CreateCommandPool drv)
       (fun _ st' =>
          stage drv st st' 1
          /\ globals st' = set_commandPool (fresh st) (globals st)
          /\ objects st' !! fresh st
             = Some (ObjCommandPool
                       (graphicsFamily (queueFamilyIndices (globals st))))) st.
Proof.
  intros Hs Hacc. unfold CreateCommandPool. safe_steps.
  apply safe_vkCreate; [safe_rejected |]. intros Hok. safe_steps.
  destruct (stage_create drv
              (ObjCommandPool
                 (graphicsFamily (queueFamilyIndices (globals st))))
              set_commandPool st Hs Hacc Hok) as [Hst Hobj].
  split; [exact Hst | split; [reflexivity | exact Hobj]].
Qed.

Lemma CreateSemaphores_safe drv st :
  sound st -> accepted drv st ->
  safe (CreateSemaphores drv)
       (fun _ st' =>
          stage drv st st' 2
          /\ globals st'
             = set_renderFinishedSemaphore (fresh st + 1)
                 (set_imageAvailableSemaphore (fresh st) (globals st))
          /\ objects st' !! fresh st = Some ObjSemaphore
          /\ objects st' !! (fresh st + 1) = Some ObjSemaphore) st.
Proof.
  intros Hs Hacc. unfold CreateSemaphores. safe_steps.
  apply safe_vkCreate; [safe_rejected |]. intros Hok1. safe_steps.
  destruct (stage_create drv ObjSemaphore set_imageAvailableSemaphore st
              Hs Hacc Hok1) as [Hst1 Hobj1].
  set (st1 := with_globals (set_imageAvailableSemaphore (fresh st))
                (alloc ObjSemaphore (bump st))) in *.
  apply safe_vkCreate; [safe_rejected |]. intros Hok2. safe_steps.
  pose proof Hst1 as (Hs1 & Hacc1 & Hf1 & Hold1).
  destruct (stage_create drv ObjSemaphore set_renderFinishedSemaphore st1
              Hs1 Hacc1 Hok2) as [Hst2 Hobj2].
  pose proof Hst2 as (_ & _ & _ & Hold2).
  pose proof (stage_trans drv _ _ _ 1 1 ltac:(lia) Hst1 Hst2) as Hst.
  rewrite Hf1 in Hobj2.
  specialize (Hold2 (fresh st) ltac:(lia)). rewrite Hobj1 in Hold2.
  split; [exact Hst | split; [reflexivity | split]];
    [exact Hold2 | exact Hobj2].
Qed.

Lemma safe_vkDestroyShaderModule h resource (Q : unit -> State -> Prop) st :
  objects st !! h = Some (ObjShaderModule resource) ->
  Q tt (remove h st) ->
  safe (vkDestroyShaderModule h) Q st.
Proof.
  intros Hh HQ. unfold vkDestroyShaderModule. safe_steps. rewrite Hh.
  safe_steps. exact HQ.
Qed.

Lemma objects_remove_eq h st : objects (remove h st) !! h = None.
Proof. apply lookup_delete_eq. Qed.

Lemma CreateGraphicsPipeline_safe drv st :
  sound st -> accepted drv st ->
  safe (CreateGraphicsPipeline drv)
       (fun _ st' =>
          stage drv st st' 4
          /\ globals st'
             = set_graphicsPipeline (fresh st + 3)
                 (set_pipelineLayout (fresh st + 2) (globals st))
          /\ objects st' !! fresh st = None
          /\ objects st' !! (fresh st + 1) = None
          /\ objects st' !! (fresh st + 2) = Some ObjPipelineLayout
          /\ objects st' !! (fresh st + 3)
             = Some (ObjPipeline (fresh st + 2) (renderPass (globals st))
                       (CreateGraphicsPipeline_viewport
                          (swapchainExtent (globals st)))
                       (swapchainExtent (globals st))
                       [fresh st; fresh st + 1])) st.
Proof.
  intros Hs Hacc. unfold CreateGraphicsPipeline, CreateShaderModule.
  safe_steps.
  apply safe_vkCreate; [safe_rejected |]. intros Hok1. safe_steps.
  set (s1 := alloc (ObjShaderModule "vertex.spv") (bump st)) in *.
  apply safe_vkCreate; [safe_rejected |]. intros Hok2. safe_steps.
  set (s2 := alloc (ObjShaderModule "fragment.spv") (bump s1)) in *.
  apply safe_vkCreate; [safe_rejected |]. intros Hok3. safe_steps.
  set (s3 := with_globals (set_pipelineLayout (fresh s2))
               (alloc ObjPipelineLayout (bump s2))) in *.
  apply safe_vkCreate; [safe_rejected |]. intros Hok4. safe_steps.
  set (s4 := with_globals (set_graphicsPipeline (fresh s3))
               (alloc (ObjPipeline (fresh s2) (renderPass (globals st))
                         (CreateGraphicsPipeline_viewport
                            (swapchainExtent (globals st)))
                         (swapchainExtent (globals st))
                         [fresh st; fresh s1]) (bump s3))) in *.
  assert (Hf1 : fresh s1 = fresh st + 1) by reflexivity.
  assert (Hf2 : fresh s2 = fresh st + 2) by (subst s2; st_simpl; lia).
  assert (Hf3 : fresh s3 = fresh st + 3) by (subst s3; st_simpl; lia).
  assert (Hf4 : fresh s4 = fresh st + 4) by (subst s4; st_simpl; lia).
  assert (Hobj : forall h,
             objects s4 !! h
             = if decide (h = fresh st + 3) then
                 Some (ObjPipeline (fresh s2) (renderPass (globals st))
                         (CreateGraphicsPipeline_viewport
                            (swapchainExtent (globals st)))
                         (swapchainExtent (globals st)) [fresh st; fresh s1])
               else if decide (h = fresh st + 2) then Some ObjPipelineLayout
               else if decide (h = fresh st + 1) then
                 Some (ObjShaderModule "fragment.spv")
               else if decide (h = fresh st) then
                 Some (ObjShaderModule "vertex.spv")
               else objects st !! h).
  { intros h. subst s4 s3 s2 s1. unfold objects, alloc, bump, with_globals.
    cbn [world globals w_objects w_fresh w_calls].
    change (w_fresh (world st)) with (fresh st).
    replace (fresh st + 1 + 1) with (fresh st + 2) by lia.
    replace (fresh st + 2 + 1) with (fresh st + 3) by lia.
    rewrite !lookup_insert. repeat case_decide; try lia; reflexivity. }
  match goal with |- safe _ _ ?S => change S with s4 end.
  cbn [fst snd].
  eapply safe_vkDestroyShaderModule.
  { rewrite Hobj. repeat case_decide; try lia. reflexivity. }
  safe_steps.
  eapply safe_vkDestroyShaderModule.
  { rewrite objects_remove_ne by lia. rewrite Hobj.
    repeat case_decide; try lia. reflexivity. }
  assert (Hs4 : sound s4) by (subst s4 s3 s2 s1; auto 20 with world).
  assert (Hacc4 : accepted drv s4)
    by (subst s4 s3 s2 s1; auto 20 with world).
  split; [| split; [| split; [| split; [| split]]]].
  - split; [auto using sound_remove | split; [exact Hacc4 | split]].
    + st_simpl. lia.
    + intros h Hh. rewrite !objects_remove_ne by lia. rewrite Hobj.
      repeat case_decide; try lia. reflexivity.
  - cbn. unfold fresh. f_equal; [lia | f_equal; lia].
  - apply objects_remove_eq.
  - rewrite objects_remove_ne by lia. rewrite Hf1. apply objects_remove_eq.
  - rewrite !objects_remove_ne by lia. rewrite Hobj.
    repeat case_decide; try lia. reflexivity.
  - rewrite !objects_remove_ne by lia. rewrite Hobj.
    repeat case_decide; try lia. rewrite Hf2, Hf1. reflexivity.
Qed.

Lemma accepted_same_calls drv st st' :
  w_calls (world st') = w_calls (world st) ->
  accepted drv st -> accepted drv st'.
Proof. intros Hc Hacc k Hk. apply Hacc. now rewrite <- Hc. Qed.

Lemma safe_new_objects o n :
  forall (Q : list Z -> State -> Prop) st,
    (forall st',
        globals st' = globals st ->
        w_calls (world st') = w_calls (world st) ->
        fresh st' = fresh st + Z.of_nat n ->
        (forall h, h < fresh st -> objects st' !! h = objects st !! h) ->
        (forall i, (i < n)%nat ->
                   objects st' !! (fresh st + Z.of_nat i) = Some o) ->
        (sound st -> sound st') ->
        Q (handles (fresh st) n) st') ->
    safe (new_objects n o) Q st.
Proof.
  intros Q st HQ. unfold safe.
  pose proof (wp_new_objects o n
                (fun hs st' =>
                   hs = handles (fresh st) n
                   /\ globals st' = globals st
                   /\ w_calls (world st') = w_calls (world st)
                   /\ fresh st' = fresh st + Z.of_nat n
                   /\ (forall h, h < fresh st ->
                                 objects st' !! h = objects st !! h)
                   /\ (forall i, (i < n)%nat ->
                                 objects st' !! (fresh st + Z.of_nat i)
                                 = Some o)
                   /\ (sound st -> sound st')) st) as Hwp.
  assert (Hdef : forall st0, exists hs st', new_objects n o st0 = Ok (hs, st')).
  { clear. induction n as [| n IH]; intros st0; cbn [new_objects].
    - eexists _, _. reflexivity.
    - unfold bind at 1. unfold new_object at 1.
      unfold bind, get_world, put_world, ret. cbn.
      match goal with
      | |- context [new_objects n o ?s] =>
          destruct (IH s) as (hs & st' & Hrun)
      end.
      rewrite Hrun. eexists _, _. reflexivity. }
  destruct (Hdef st) as (hs & st' & Hrun).
  unfold wp in Hwp. rewrite Hrun in *.
  destruct Hwp as (-> & Hg & Hc & Hf & Hold & Hnew & Hsound).
  - intros hs0 st0 Hlen Hhs Hg Hc Hf Hold Hnew Hsound.
    split; [now apply handles_eq | auto 10].
  - now apply HQ.
Qed.

Lemma safe_vkCreateSwapchainKHR drv info old (Q : Z * Z -> State -> Prop) st :
  sound st -> accepted drv st ->
  family_indices_readable info = true ->
  (forall r, rejected r = true -> Q (r, old) (bump st)) ->
  (forall st1,
      let n := drv_swapchainImages drv info in
      let st' := alloc (ObjSwapchain info (handles (fresh st) n)) st1 in
      globals st1 = globals st ->
      fresh st1 = fresh st + Z.of_nat n ->
      stage drv st st' (Z.of_nat n + 1) ->
      (forall i, (i < n)%nat ->
                 objects st' !! (fresh st + Z.of_nat i) = Some ObjImage) ->
      objects st' !! (fresh st + Z.of_nat n)
      = Some (ObjSwapchain info (handles (fresh st) n)) ->
      Q (VK_SUCCESS, fresh st + Z.of_nat n) st') ->
  safe (vkCreateSwapchainKHR drv info old) Q st.
Proof.
  intros Hs Hacc Hread Hrej Hok. unfold vkCreateSwapchainKHR.
  rewrite Hread. safe_steps.
  destruct (Z.eqb_spec (drv_result drv (w_calls (world st))) VK_SUCCESS)
    as [Heq | Hne].
  - rewrite Heq. safe_steps. apply safe_new_objects.
    intros st1 Hg Hc Hf Hold Hnew Hsound. safe_steps.
    apply safe_new_object. safe_steps.
    rewrite fresh_bump in *. rewrite Hf.
    assert (Hs1 : sound st1) by (apply Hsound; auto with world).
    assert (Hacc1 : accepted drv st1).
    { apply (accepted_same_calls drv (bump st)); [exact Hc |].
      auto with world. }
    apply Hok; [exact Hg | exact Hf | | |].
    + split; [auto with world | split; [auto with world | split]].
      * rewrite fresh_alloc, Hf. lia.
      * intros h Hh. rewrite objects_alloc_ne by lia.
        rewrite Hold by exact Hh. reflexivity.
    + intros i Hi. rewrite objects_alloc_ne by lia. now apply Hnew.
    + rewrite <- Hf. apply objects_alloc_eq.
  - safe_steps. apply Hrej. unfold rejected.
    now destruct (Z.eqb_spec (drv_result drv (w_calls (world st))) VK_SUCCESS).
Qed.

Lemma safe_vkGetSwapchainImagesKHR h info images
    (Q : list Z -> State -> Prop) st :
  objects st !! h = Some (ObjSwapchain info images) ->
  Q images st ->
  safe (vkGetSwapchainImagesKHR h) Q st.
Proof.
  intros Hh HQ. unfold vkGetSwapchainImagesKHR. safe_steps. rewrite Hh.
  safe_steps. exact HQ.
Qed.

Lemma ChooseSwapSurfaceFormat_defined details :
  formats details <> [] ->
  exists surfaceFormat, ChooseSwapSurfaceFormat details = Some surfaceFormat.
Proof.
  intros Hne. unfold ChooseSwapSurfaceFormat.
  destruct (ChooseSwapSurfaceFormat_loop (formats details)) as [f |];
    [now exists f |].
  destruct (formats details) as [| f0 rest]; [contradiction | now exists f0].
Qed.

Lemma CreateSwapChain_safe drv details st :
  sound st -> accepted drv st ->
  formats details <> [] ->
  graphicsFamily (queueFamilyIndices (globals st))
  = presentFamily (queueFamilyIndices (globals st)) ->
  safe (CreateSwapChain drv details)
       (fun _ st' =>
          exists surfaceFormat,
            ChooseSwapSurfaceFormat details = Some surfaceFormat
            /\ let info :=
                 CreateSwapChain_createInfo details surfaceFormat
                   (vulkanSurface (globals st))
                   (queueFamilyIndices (globals st)) in
               let n := drv_swapchainImages drv info in
               stage drv st st' (Z.of_nat n + 1)
               /\ globals st'
                  = set_swapchainExtent (ChooseSwapExtent details)
                      (set_swapchainImageFormat (format surfaceFormat)
                         (set_swapchainImages (handles (fresh st) n)
                            (set_swapchainImageCount (Z.of_nat n)
                               (set_swapChain (fresh st + Z.of_nat n)
                                  (globals st)))))
               /\ (forall i, (i < n)%nat ->
                             objects st' !! (fresh st + Z.of_nat i)
                             = Some ObjImage)
               /\ objects st' !! (fresh st + Z.of_nat n)
                  = Some (ObjSwapchain info (handles (fresh st) n))) st.
Proof.
  intros Hs Hacc Hne Hsame. unfold CreateSwapChain.
  destruct (ChooseSwapSurfaceFormat_defined details Hne) as (fmt & Hfmt).
  rewrite Hfmt. safe_steps.
  apply safe_vkCreateSwapchainKHR;
    [exact Hs | exact Hacc
    | apply (swapchain_sharing_same details fmt _ _ Hsame)
    | safe_rejected |].
  intros st1 n st' Hg Hf Hst Himages Hsc. safe_steps.
  eapply safe_vkGetSwapchainImagesKHR; [exact Hsc |]. safe_steps.
  exists fmt. split; [reflexivity |]. cbv zeta. fold n.
  rewrite length_handles.
  split; [exact Hst |]. split; [| split; [exact Himages | exact Hsc]].
  cbn. rewrite Hg. reflexivity.
Qed.

Lemma CreateImageViews_safe drv st :
  sound st -> accepted drv st ->
  length (swapchainImages (globals st))
  = Z.to_nat (swapchainImageCount (globals st)) ->
  safe (CreateImageViews drv)
       (fun _ st' =>
          let n := Z.to_nat (swapchainImageCount (globals st)) in
          stage drv st st' (Z.of_nat n)
          /\ globals st'
             = set_swapChainImageViews (handles (fresh st) n) (globals st)
          /\ forall i image,
              swapchainImages (globals st) !! i = Some image ->
              objects st' !! (fresh st + Z.of_nat i)
              = Some (ObjImageView
                        (image_view_info image
                           (swapchainImageFormat (globals st))))) st.
Proof.
  intros Hs Hacc Hlen. unfold CreateImageViews. safe_steps.
  set (n := Z.to_nat (swapchainImageCount (globals st))) in *.
  set (Inv := fun (j : nat) (s : State) =>
    stage drv st s (Z.of_nat j)
    /\ exists views,
        globals s = set_swapChainImageViews views (globals st)
        /\ length views = n
        /\ (forall i, (i < j)%nat ->
                      views !! i = Some (fresh st + Z.of_nat i))
        /\ forall i image,
            (i < j)%nat ->
            swapchainImages (globals st) !! i = Some image ->
            objects s !! (fresh st + Z.of_nat i)
            = Some (ObjImageView
                      (image_view_info image
                         (swapchainImageFormat (globals st))))).
  eapply safe_mono;
    [| apply (safe_for_loop Inv) with (i := 0%nat) (n := n)].
  - intros u st' (Hst & views & Hgl & Hlenv & Hviews & Hobjs). cbn beta zeta.
    split; [exact Hst | split].
    + rewrite Hgl. f_equal. now apply handles_eq.
    + intros i image Hi. apply Hobjs; [| exact Hi].
      apply lookup_lt_Some in Hi. lia.
  - split; [exact (stage_refl drv st Hs Hacc) |].
    eexists. split; [reflexivity | split; [apply length_calloc |]].
    split; intros; lia.
  - intros j [gs ws] Hj (Hst & views & Hgl & Hlenv & Hviews & Hobjs).
    cbn [globals] in Hgl. subst gs.
    set (s := mkState (set_swapChainImageViews views (globals st)) ws) in *.
    pose proof Hst as (Hss & Haccs & Hfs & Holds).
    destruct (lookup_lt_is_Some_2 (swapchainImages (globals st)) j)
      as [image Himage]; [lia |].
    destruct (lookup_lt_is_Some_2 views j) as [old Hold]; [lia |].
    safe_steps.
    eapply safe_array_get; [exact Himage |]. safe_steps.
    eapply safe_array_get; [exact Hold |]. safe_steps.
    apply safe_vkCreate; [safe_rejected |]. intros Hok. safe_steps.
    destruct (stage_create drv
                (ObjImageView
                   (image_view_info image (swapchainImageFormat (globals st))))
                (fun h g =>
                   set_swapChainImageViews (<[j := h]> (swapChainImageViews g))
                                           g)
                s Hss Haccs Hok) as [Hst1 Hobj1].
    pose proof Hst1 as (_ & _ & _ & Hold1).
    split.
    + replace (Z.of_nat (S j)) with (Z.of_nat j + 1) by lia.
      exact (stage_trans drv st s _ (Z.of_nat j) 1 ltac:(lia) Hst Hst1).
    + exists (<[j := fresh s]> views).
      split; [reflexivity | split; [now rewrite length_insert | split]].
      * intros i Hi. destruct (decide (i = j)) as [-> | Hne].
        -- rewrite list_lookup_insert_eq by lia. now rewrite Hfs.
        -- rewrite list_lookup_insert_ne by congruence. apply Hviews. lia.
      * intros i image' Hi Himage'.
        destruct (decide (i = j)) as [-> | Hne].
        -- rewrite Himage in Himage'. injection Himage' as <-.
           rewrite <- Hfs. exact Hobj1.
        -- etransitivity; [apply Hold1; lia |].
           apply Hobjs; [lia | exact Himage'].
Qed.

Lemma CreateFramebuffers_safe drv st :
  sound st -> accepted drv st ->
  length (swapChainImageViews (globals st))
  = Z.to_nat (swapchainImageCount (globals st)) ->
  safe (CreateFramebuffers drv)
       (fun _ st' =>
          let n := Z.to_nat (swapchainImageCount (globals st)) in
          stage drv st st' (Z.of_nat n)
          /\ globals st'
             = set_swapchainFramebuffers (handles (fresh st) n) (globals st)
          /\ forall i view,
              swapChainImageViews (globals st) !! i = Some view ->
              objects st' !! (fresh st + Z.of_nat i)
              = Some (ObjFramebuffer
                        (framebuffer_info (renderPass (globals st)) view
                           (swapchainExtent (globals st))))) st.
Proof.
  intros Hs Hacc Hlen. unfold CreateFramebuffers. safe_steps.
  set (n := Z.to_nat (swapchainImageCount (globals st))) in *.
  set (Inv := fun (j : nat) (s : State) =>
    stage drv st s (Z.of_nat j)
    /\ exists fbs,
        globals s = set_swapchainFramebuffers fbs (globals st)
        /\ length fbs = n
        /\ (forall i, (i < j)%nat -> fbs !! i = Some (fresh st + Z.of_nat i))
        /\ forall i view,
            (i < j)%nat ->
            swapChainImageViews (globals st) !! i = Some view ->
            objects s !! (fresh st + Z.of_nat i)
            = Some (ObjFramebuffer
                      (framebuffer_info (renderPass (globals st)) view
                         (swapchainExtent (globals st))))).
  eapply safe_mono;
    [| apply (safe_for_loop Inv) with (i := 0%nat) (n := n)].
  - intros u st' (Hst & fbs & Hgl & Hlenf & Hfbs & Hobjs). cbn beta zeta.
    split; [exact Hst | split].
    + rewrite Hgl. f_equal. now apply handles_eq.
    + intros i view Hi. apply Hobjs; [| exact Hi].
      apply lookup_lt_Some in Hi. lia.
  - split; [exact (stage_refl drv st Hs Hacc) |].
    eexists. split; [reflexivity | split; [apply length_calloc |]].
    split; intros; lia.
  - intros j [gs ws] Hj (Hst & fbs & Hgl & Hlenf & Hfbs & Hobjs).
    cbn [globals] in Hgl. subst gs.
    set (s := mkState (set_swapchainFramebuffers fbs (globals st)) ws) in *.
    pose proof Hst as (Hss & Haccs & Hfs & Holds).
    destruct (lookup_lt_is_Some_2 (swapChainImageViews (globals st)) j)
      as [view Hview]; [lia |].
    destruct (lookup_lt_is_Some_2 fbs j) as [old Hold]; [lia |].
    safe_steps.
    eapply safe_array_get; [exact Hview |]. safe_steps.
    eapply safe_array_get; [exact Hold |]. safe_steps.
    apply safe_vkCreate; [safe_rejected |]. intros Hok. safe_steps.
    destruct (stage_create drv
                (ObjFramebuffer
                   (framebuffer_info (renderPass (globals st)) view
                      (swapchainExtent (globals st))))
                (fun h g =>
                   set_swapchainFramebuffers
                     (<[j := h]> (swapchainFramebuffers g)) g)
                s Hss Haccs Hok) as [Hst1 Hobj1].
    pose proof Hst1 as (_ & _ & _ & Hold1).
    split.
    + replace (Z.of_nat (S j)) with (Z.of_nat j + 1) by lia.
      exact (stage_trans drv st s _ (Z.of_nat j) 1 ltac:(lia) Hst Hst1).
    + exists (<[j := fresh s]> fbs).
      split; [reflexivity | split; [now rewrite length_insert | split]].
      * intros i Hi. destruct (decide (i = j)) as [-> | Hne].
        -- rewrite list_lookup_insert_eq by lia. now rewrite Hfs.
        -- rewrite list_lookup_insert_ne by congruence. apply Hfbs. lia.
      * intros i view' Hi Hview'.
        destruct (decide (i = j)) as [-> | Hne].
        -- rewrite Hview in Hview'. injection Hview' as <-.
           rewrite <- Hfs. exact Hobj1.
        -- etransitivity; [apply Hold1; lia |].
           apply Hobjs; [lia | exact Hview'].
Qed.

Lemma safe_vkAllocateCommandBuffers drv pool count old
    (Q : Z * list Z -> State -> Prop) st :
  sound st -> accepted drv st ->
  (forall r, rejected r = true -> Q (r, old) (bump st)) ->
  (forall st1,
      let n := Z.to_nat count in
      globals st1 = globals st ->
      stage drv st st1 (Z.of_nat n) ->
      (forall i, (i < n)%nat ->
                 objects st1 !! (fresh st + Z.of_nat i)
                 = Some (ObjCommandBuffer pool [])) ->
      Q (VK_SUCCESS, handles (fresh st) n) st1) ->
  safe (vkAllocateCommandBuffers drv pool count old) Q st.
Proof.
  intros Hs Hacc Hrej Hok. unfold vkAllocateCommandBuffers. safe_steps.
  destruct (Z.eqb_spec (drv_result drv (w_calls (world st))) VK_SUCCESS)
    as [Heq | Hne].
  - rewrite Heq. safe_steps. apply safe_new_objects.
    intros st1 Hg Hc Hf Hold Hnew Hsound. safe_steps.
    rewrite fresh_bump in *.
    apply Hok; [exact Hg | | exact Hnew].
    split; [apply Hsound; auto with world | split; [| split]].
    + apply (accepted_same_calls drv (bump st)); [exact Hc |].
      auto with world.
    + exact Hf.
    + exact Hold.
  - safe_steps. apply Hrej. unfold rejected.
    now destruct (Z.eqb_spec (drv_result drv (w_calls (world st))) VK_SUCCESS).
Qed.

Lemma safe_vkBeginCommandBuffer drv cb pool l (Q : Z -> State -> Prop) st :
  objects st !! cb = Some (ObjCommandBuffer pool l) ->
  (forall r, rejected r = true -> Q r (bump st)) ->
  (drv_result drv (w_calls (world st)) = VK_SUCCESS ->
   Q VK_SUCCESS (store cb (ObjCommandBuffer pool []) (bump st))) ->
  safe (vkBeginCommandBuffer drv cb) Q st.
Proof.
  intros Hcb Hrej Hok. unfold vkBeginCommandBuffer. safe_steps.
  rewrite Hcb. safe_steps.
  destruct (Z.eqb_spec (drv_result drv (w_calls (world st))) VK_SUCCESS)
    as [Heq | Hne].
  - rewrite Heq. safe_steps. now apply Hok.
  - safe_steps. apply Hrej. unfold rejected.
    now destruct (Z.eqb_spec (drv_result drv (w_calls (world st))) VK_SUCCESS).
Qed.

Lemma safe_vkCmd cb c pool l (Q : unit -> State -> Prop) st :
  objects st !! cb = Some (ObjCommandBuffer pool l) ->
  Q tt (store cb (ObjCommandBuffer pool (l ++ [c])) st) ->
  safe (vkCmd cb c) Q st.
Proof.
  intros Hcb HQ. unfold vkCmd. safe_steps. rewrite Hcb. safe_steps. exact HQ.
Qed.

Lemma safe_vkEndCommandBuffer drv cb pool l (Q : Z -> State -> Prop) st :
  objects st !! cb = Some (ObjCommandBuffer pool l) ->
  Q (drv_result drv (w_calls (world st))) (bump st) ->
  safe (vkEndCommandBuffer drv cb) Q st.
Proof.
  intros Hcb HQ. unfold vkEndCommandBuffer. safe_steps. rewrite Hcb.
  safe_steps. exact HQ.
Qed.

Lemma CreateCommandBuffers_record_safe drv j cb fb pool l st :
  commandBuffers (globals st) !! j = Some cb ->
  swapchainFramebuffers (globals st) !! j = Some fb ->
  objects st !! cb = Some (ObjCommandBuffer pool l) ->
  sound st -> accepted drv st ->
  safe (CreateCommandBuffers_record drv j)
       (fun _ st' =>
          sound st' /\ accepted drv st'
          /\ fresh st' = fresh st /\ globals st' = globals st
          /\ (forall h, h <> cb -> objects st' !! h = objects st !! h)
          /\ objects st' !! cb
             = Some (ObjCommandBuffer pool
                       (recorded_commands (globals st) fb))) st.
Proof.
  intros Hj Hfb Hcb Hs Hacc. unfold CreateCommandBuffers_record. safe_steps.
  eapply safe_array_get; [exact Hj |]. safe_steps.
  eapply safe_vkBeginCommandBuffer; [exact Hcb | safe_rejected |].
  intros Hok1. safe_steps.
  eapply safe_array_get; [exact Hfb |]. safe_steps.
  eapply safe_vkCmd; [apply objects_store_eq |]. safe_steps.
  eapply safe_vkCmd; [apply objects_store_eq |]. safe_steps.
  eapply safe_vkCmd; [apply objects_store_eq |]. safe_steps.
  eapply safe_vkCmd; [apply objects_store_eq |]. safe_steps.
  eapply safe_vkEndCommandBuffer; [apply objects_store_eq |]. safe_steps.
  apply rejected_spec in Hc0.
  split; [| split; [| split; [| split; [| split]]]].
  - apply sound_bump.
    repeat (eapply sound_store; [apply objects_store_eq |]).
    eapply sound_store; [exact Hcb |]. exact Hs.
  - apply accepted_bump; [| exact Hc0].
    repeat apply accepted_store. now apply accepted_bump.
  - reflexivity.
  - reflexivity.
  - intros h Hh. st_simpl. now rewrite !objects_store_ne by exact Hh.
  - st_simpl. apply objects_store_eq.
Qed.

Lemma CreateCommandBuffers_safe drv st :
  sound st -> accepted drv st ->
  length (swapchainFramebuffers (globals st))
  = Z.to_nat (swapchainImageCount (globals st)) ->
  safe (CreateCommandBuffers drv)
       (fun _ st' =>
          let n := Z.to_nat (swapchainImageCount (globals st)) in
          stage drv st st' (Z.of_nat n)
          /\ globals st'
             = set_commandBuffers (handles (fresh st) n) (globals st)
          /\ forall i fb,
              swapchainFramebuffers (globals st) !! i = Some fb ->
              objects st' !! (fresh st + Z.of_nat i)
              = Some (ObjCommandBuffer (commandPool (globals st))
                        (recorded_commands (globals st) fb))) st.
Proof.
  intros Hs Hacc Hlen. unfold CreateCommandBuffers. safe_steps.
  apply safe_vkAllocateCommandBuffers;
    [auto with world | auto with world | safe_rejected |].
  intros [g1 w1] n Hg Hst1 Hnew. cbn [globals with_globals] in Hg. subst g1.
  rewrite fresh_with_globals in *.
  pose proof Hst1 as (Hs1 & Hacc1 & Hf1 & Hold1).
  set (pool := commandPool (globals st)).
  assert (Hnew' : forall i, (i < n)%nat ->
                    w_objects w1 !! (fresh st + Z.of_nat i)
                    = Some (ObjCommandBuffer pool []))
    by exact Hnew.
  assert (Hlen' : length (swapchainFramebuffers (globals st)) = n)
    by exact Hlen.
  clear Hnew. safe_steps.
  set (Inv := fun (j : nat) (s : State) =>
    sound s /\ accepted drv s
    /\ fresh s = fresh st + Z.of_nat n
    /\ globals s = set_commandBuffers (handles (fresh st) n) (globals st)
    /\ (forall h, h < fresh st -> objects s !! h = objects st !! h)
    /\ (forall i, (j <= i < n)%nat ->
                  objects s !! (fresh st + Z.of_nat i)
                  = Some (ObjCommandBuffer pool []))
    /\ (forall i fb, (i < j)%nat ->
                     swapchainFramebuffers (globals st) !! i = Some fb ->
                     objects s !! (fresh st + Z.of_nat i)
                     = Some (ObjCommandBuffer pool
                               (recorded_commands (globals st) fb)))).
  eapply safe_mono;
    [| apply (safe_for_loop Inv) with (i := 0%nat) (n := n)].
  - intros u st' (Hs' & Hacc' & Hf' & Hgl & Hold & _ & Hdone).
    cbn beta zeta.
    split; [| split; [exact Hgl |]].
    + split; [exact Hs' | split; [exact Hacc' | split; [exact Hf' | exact Hold]]].
    + intros i fb Hi. apply Hdone; [| exact Hi].
      apply lookup_lt_Some in Hi. lia.
  - split; [exact Hs1 | split; [exact Hacc1 | split; [exact Hf1 |]]].
    split; [reflexivity | split; [exact Hold1 | split]].
    + intros i Hi. apply Hnew'. lia.
    + intros i fb Hi. lia.
  - intros j [gs ws] Hj (Hs' & Hacc' & Hf' & Hgl & Hold & Htodo & Hdone).
    cbn [globals] in Hgl. subst gs.
    set (s := mkState (set_commandBuffers (handles (fresh st) n) (globals st))
                      ws) in *.
    destruct (lookup_lt_is_Some_2 (swapchainFramebuffers (globals st)) j)
      as [fb Hfb]; [lia |].
    eapply safe_mono;
      [| apply (CreateCommandBuffers_record_safe drv j
                  (fresh st + Z.of_nat j) fb pool [] s);
         [apply handles_lookup; lia | exact Hfb | apply Htodo; lia
         | exact Hs' | exact Hacc']].
    intros u s' (Hs'' & Hacc'' & Hf'' & Hgl' & Hother & Hrec). cbn beta.
    split; [exact Hs'' | split; [exact Hacc'' | split; [congruence |]]].
    split; [exact Hgl' | split; [| split]].
    + intros h Hh. rewrite Hother by lia. now apply Hold.
    + intros i Hi. rewrite Hother by lia. apply Htodo. lia.
    + intros i fb' Hi Hfb'. destruct (decide (i = j)) as [-> | Hne].
      * rewrite Hfb in Hfb'. injection Hfb' as <-. exact Hrec.
      * rewrite Hother by lia. apply Hdone; [lia | exact Hfb'].
Qed.

(** ** The whole initialisation, exactly *)

Lemma safe_bind_run {A B} (m : M A) (k : A -> M B)
    (Q : B -> State -> Prop) st :
  m st <> Undefined ->
  (forall a st', m st = Ok (a, st') -> safe (k a) Q st') ->
  safe (bind m k) Q st.
Proof.
  unfold safe, bind. intros Hdef Hk.
  destruct (m st) as [[a st'] | msg |]; [now apply Hk | exact I | easy].
Qed.

Lemma PickPhysicalVulkanDevice_chosen drv st u st' :
  physicalDevice (globals st) = VK_NULL_HANDLE ->
  PickPhysicalVulkanDevice drv st = Ok (u, st') ->
  exists d, d ∈ drv_physicalDevices drv
            /\ VK_KHR_SWAPCHAIN_EXTENSION_NAME ∈ drv_deviceExtensions drv d
            /\ st' = with_globals (set_physicalDevice d) st.
Proof.
  intros Hnull Hrun.
  destruct (drv_physicalDevices drv) as [| d0 rest] eqn:Hlist.
  { unfold PickPhysicalVulkanDevice in Hrun. rewrite Hlist in Hrun.
    discriminate. }
  rewrite (PickPhysicalVulkanDevice_run drv st d0 rest Hlist) in Hrun.
  cbv zeta in Hrun. rewrite Hnull in Hrun.
  set (pd := PickPhysicalVulkanDevice_loop drv (d0 :: rest) VK_NULL_HANDLE)
    in *.
  set (chosen := if pd =? VK_NULL_HANDLE then d0 else pd) in *.
  assert (Hin : chosen ∈ d0 :: rest).
  { unfold chosen. destruct (Z.eqb_spec pd VK_NULL_HANDLE) as [Hz | Hnz].
    - apply elem_of_cons. now left.
    - destruct (PickPhysicalVulkanDevice_loop_result drv (d0 :: rest)
                  VK_NULL_HANDLE) as [Hsame | Hmem]; [| exact Hmem].
      now fold pd in Hsame. }
  destruct (Z.of_nat (length (drv_deviceExtensions drv chosen)) =? 0);
    [discriminate |].
  destruct (extension_found VK_KHR_SWAPCHAIN_EXTENSION_NAME
              (drv_deviceExtensions drv chosen)) eqn:Hfound; [| discriminate].
  injection Hrun as _ <-. exists chosen.
  split; [exact Hin |]. split; [| reflexivity].
  now apply extension_found_spec.
Qed.


Section SafeUnless.

Context {A B : Type} (U : Prop).

Lemma safe_unless_of_safe (m : M A) (Q : A -> State -> Prop) st :
  safe m Q st -> safe_unless U m Q st.
Proof.
  unfold safe, safe_unless. destruct (m st) as [[a st'] | msg |]; easy.
Qed.

Lemma safe_unless_bind (m : M A) (k : A -> M B) (Q : B -> State -> Prop) st :
  safe_unless U m (fun a st' => safe_unless U (k a) Q st') st ->
  safe_unless U (bind m k) Q st.
Proof.
  unfold safe_unless, bind. destruct (m st) as [[a st'] | msg |]; auto.
Qed.

Lemma safe_unless_mono (m : M A) (Q Q' : A -> State -> Prop) st :
  (forall a st', Q a st' -> Q' a st') ->
  safe_unless U m Q st -> safe_unless U m Q' st.
Proof.
  unfold safe_unless. intros HQ. destruct (m st) as [[a st'] | msg |]; auto.
Qed.

Lemma safe_unless_bind_run (m : M A) (k : A -> M B)
    (Q : B -> State -> Prop) st :
  m st <> Undefined ->
  (forall a st', m st = Ok (a, st') -> safe_unless U (k a) Q st') ->
  safe_unless U (bind m k) Q st.
Proof.
  unfold safe_unless, bind. intros Hdef Hk.
  destruct (m st) as [[a st'] | msg |]; [now apply Hk | exact I | easy].
Qed.

Lemma safe_unless_Ok (m : M A) (Q : A -> State -> Prop) st a st' :
  safe_unless U m Q st -> m st = Ok (a, st') -> Q a st'.
Proof. unfold safe_unless. intros H Hrun. now rewrite Hrun in H. Qed.


End SafeUnless.

Lemma wp_FindQueueFamilies drv
    (Q : queue_family_indices_t -> State -> Prop) st :
  Q (scanned_families drv (physicalDevice (globals st))
       (vulkanSurface (globals st))) st ->
  wp (FindQueueFamilies drv) Q st.
Proof.
  intros HQ. unfold wp. rewrite FindQueueFamilies_run. exact HQ.
Qed.

(** The indices [CreateLogicalDevice] leaves in [queueFamilyIndices] are
    those of the scan. *)
Lemma CreateLogicalDevice_indices drv st u st' :
  CreateLogicalDevice drv st = Ok (u, st') ->
  queueFamilyIndices (globals st')
  = scanned_families drv (physicalDevice (globals st))
      (vulkanSurface (globals st)).
Proof.
  intros Hrun.
  assert (Hwp : wp (CreateLogicalDevice drv)
                  (fun _ st' =>
                     queueFamilyIndices (globals st')
                     = scanned_families drv (physicalDevice (globals st))
                         (vulkanSurface (globals st))) st).
  { unfold CreateLogicalDevice. wp_steps. apply wp_FindQueueFamilies.
    wp_steps. apply wp_vkCreate; [wp_rejected |]. wp_steps. reflexivity. }
  exact (wp_Ok _ _ _ _ _ Hwp Hrun).
Qed.

Lemma accepted_initial_state drv : accepted drv initial_state.
Proof. intros k Hk. cbn in Hk. lia. Qed.

Ltac srun spec :=
  apply safe_unless_bind; eapply safe_unless_mono;
  [| apply safe_unless_of_safe; apply spec; try assumption];
  cbn beta.

(** Brings a fact about a state given by its components into a fact about
    the components. *)
Ltac flatten H := unfold stage, fresh, objects in H; cbn in H.

Ltac flatten_goal :=
  unfold fresh, objects; cbn [world globals w_fresh w_objects].

Ltac back :=
  repeat match goal with
         | H : forall h : Z, h < _ -> _ !! h = _ |- _ => rewrite H by lia
         end.

Lemma main_initialization_safe drv :
  safe_unless (~ one_family drv) (main_initialization drv)
    (fun _ st =>
       exists n,
         laid_out drv n st
         /\ graphicsFamily (queueFamilyIndices (globals st))
            = presentFamily (queueFamilyIndices (globals st)))
    initial_state.
Proof.
  unfold main_initialization, initial_state, initial_world.
  pose proof sound_initial_state as Hs0.
  pose proof (accepted_initial_state drv) as Ha0.
  unfold initial_state, initial_world in Hs0, Ha0.
  set (g0 := initial_globals) in *.
  srun InitVulkanInstance_safe.
  intros _ [g1 [c1 f1 o1]] ((Hs1 & Ha1 & Hf1 & Hold1) & Hg1 & Hobj1).
  cbn [globals] in Hg1. subst g1. flatten Hf1. flatten Hold1. flatten Hobj1.
  flatten_goal.
  assert (F1 : f1 = 2) by lia. clear Hf1. subst f1.
  srun CreateVulkanSurface_safe.
  intros _ [g2 [c2 f2 o2]] ((Hs2 & Ha2 & Hf2 & Hold2) & Hg2 & Hobj2).
  cbn [globals] in Hg2. subst g2. flatten Hf2. flatten Hold2. flatten Hobj2.
  flatten_goal.
  assert (F2 : f2 = 3) by lia. clear Hf2. subst f2.
  apply safe_unless_bind_run;
    [exact (safe_defined _ _ _ (PickPhysicalVulkanDevice_safe drv _)) |].
  intros u3 st3 Hpick.
  pose proof (fun Hnull => PickPhysicalVulkanDevice_chosen drv _ _ _ Hnull
                             Hpick) as Hchosen.
  destruct (Hchosen eq_refl) as (pd & Hpd & Hext & ->). clear Hchosen.
  unfold with_globals. cbn [globals world].
  match goal with
  | |- safe_unless _ _ _ ?s =>
      assert (Hs3 : sound s) by exact Hs2;
      assert (Ha3 : accepted drv s) by exact Ha2
  end.
  apply safe_unless_bind_run;
    [exact (safe_defined _ _ _
              (CreateLogicalDevice_safe drv _ Hs3 Ha3)) |].
  intros u4 st4 Hdevice.
  pose proof (CreateLogicalDevice_indices drv _ _ _ Hdevice) as Hscan.
  cbn in Hscan.
  pose proof (safe_Ok _ _ _ _ _ (CreateLogicalDevice_safe drv _ Hs3 Ha3)
                Hdevice) as Hpost4.
  cbn beta in Hpost4. clear Hdevice Hpick. revert u4 st4 Hscan Hpost4.
  intros _ [g4 [c4 f4 o4]] Hscan
    ((Hs4 & Ha4 & Hf4 & Hold4) & q & gq & pq & Hg4 & Hobj4).
  cbn [globals] in Hg4. subst g4. cbn in Hscan.
  flatten Hf4. flatten Hold4. flatten Hobj4.
  flatten_goal.
  assert (F4 : f4 = 4) by lia. clear Hf4. subst f4.
  apply safe_unless_bind_run; [discriminate |].
  intros details st4' Hquery. injection Hquery as <- <-.
  cbn [globals].
  match goal with
  | |- safe_unless _ (bind (fatal_if (_ (formatCount ?d =? _) _) _) _) _ _ =>
      set (details := d) in *
  end.
  apply safe_unless_bind_run; [now destruct (_ || _) |].
  intros u5 st5 Hcheck.
  assert (Hc : (formatCount details =? 0) || (presentModeCount details =? 0)
               = false).
  { destruct (_ || _); [discriminate | reflexivity]. }
  rewrite Hc in Hcheck. injection Hcheck as _ <-. clear u5.
  rename Hc into Hcheck.
  destruct (Z.eq_dec (graphicsFamily q) (presentFamily q)) as [Hsame | Hdiff].
  2: { match goal with
       | |- safe_unless _ (bind (CreateSwapChain _ _) _) _ ?s =>
           pose proof (CreateSwapChain_dangling drv details s Hdiff) as Hdead
       end.
       unfold safe_unless, bind. rewrite Hdead.
       intros Hone. apply Hdiff. rewrite Hscan. exact (Hone pd 2 Hpd). }
  assert (Hformats : formats details <> []).
  { apply orb_false_iff in Hcheck. destruct Hcheck as [Hfc _].
    unfold formatCount in Hfc. intros Hnil. rewrite Hnil in Hfc.
    discriminate. }
  assert (Hmodes : presentModes details <> []).
  { apply orb_false_iff in Hcheck. destruct Hcheck as [_ Hmc].
    unfold presentModeCount in Hmc. intros Hnil. rewrite Hnil in Hmc.
    discriminate. }
  srun CreateSwapChain_safe.
  intros _ [g5 [c5 f5 o5]] (fmt & Hfmt & Hpost).
  cbv zeta in Hpost. flatten Hpost.
  set (info := CreateSwapChain_createInfo details fmt 2 q) in *.
  set (n := drv_swapchainImages drv info) in *.
  destruct Hpost as ((Hs5 & Ha5 & Hf5 & Hold5) & Hg5 & Himages & Hobj5).
  subst g5. flatten_goal.
  assert (F5 : f5 = 5 + Z.of_nat n) by lia. clear Hf5. subst f5.
  srun CreateImageViews_safe;
    [| cbn; rewrite length_handles, Nat2Z.id; reflexivity].
  intros _ [g6 [c6 f6 o6]] Hpost.
  cbv zeta in Hpost. flatten Hpost. rewrite Nat2Z.id in Hpost.
  destruct Hpost as ((Hs6 & Ha6 & Hf6 & Hold6) & Hg6 & Hobj6).
  subst g6. flatten_goal.
  assert (F6 : f6 = 5 + 2 * Z.of_nat n) by lia. clear Hf6. subst f6.
  srun CreateRenderPass_safe.
  intros _ [g7 [c7 f7 o7]] ((Hs7 & Ha7 & Hf7 & Hold7) & Hg7 & Hobj7).
  cbn [globals] in Hg7. subst g7. flatten Hf7. flatten Hold7. flatten Hobj7.
  flatten_goal.
  assert (F7 : f7 = 6 + 2 * Z.of_nat n) by lia. clear Hf7. subst f7.
  srun CreateGraphicsPipeline_safe.
  intros _ [g8 [c8 f8 o8]]
    ((Hs8 & Ha8 & Hf8 & Hold8) & Hg8 & Hsh1 & Hsh2 & Hlayout & Hpipe).
  cbn [globals] in Hg8. subst g8. flatten Hf8. flatten Hold8.
  flatten Hsh1. flatten Hsh2. flatten Hlayout. flatten Hpipe.
  flatten_goal.
  assert (F8 : f8 = 10 + 2 * Z.of_nat n) by lia. clear Hf8. subst f8.
  srun CreateFramebuffers_safe;
    [| cbn; rewrite length_handles, Nat2Z.id; reflexivity].
  intros _ [g9 [c9 f9 o9]] Hpost.
  cbv zeta in Hpost. flatten Hpost. rewrite Nat2Z.id in Hpost.
  destruct Hpost as ((Hs9 & Ha9 & Hf9 & Hold9) & Hg9 & Hobj9).
  subst g9. flatten_goal.
  assert (F9 : f9 = 10 + 3 * Z.of_nat n) by lia. clear Hf9. subst f9.
  srun CreateCommandPool_safe.
  intros _ [g10 [c10 f10 o10]] ((Hs10 & Ha10 & Hf10 & Hold10) & Hg10 & Hobj10).
  cbn [globals] in Hg10. subst g10. flatten Hf10. flatten Hold10.
  flatten Hobj10. flatten_goal.
  assert (F10 : f10 = 11 + 3 * Z.of_nat n) by lia. clear Hf10. subst f10.
  srun CreateCommandBuffers_safe;
    [| cbn; rewrite length_handles, Nat2Z.id; reflexivity].
  intros _ [g11 [c11 f11 o11]] Hpost.
  cbv zeta in Hpost. flatten Hpost. rewrite Nat2Z.id in Hpost.
  destruct Hpost as ((Hs11 & Ha11 & Hf11 & Hold11) & Hg11 & Hobj11).
  subst g11. flatten_goal.
  assert (F11 : f11 = 11 + 4 * Z.of_nat n) by lia. clear Hf11. subst f11.
  eapply safe_unless_mono;
    [| apply safe_unless_of_safe, CreateSemaphores_safe; assumption].
  cbn beta.
  intros _ [g12 [c12 f12 o12]]
    ((Hs12 & Ha12 & Hf12 & Hold12) & Hg12 & Hsem1 & Hsem2).
  cbn [globals] in Hg12. subst g12. flatten Hf12. flatten Hold12.
  flatten Hsem1. flatten Hsem2.
  assert (F12 : f12 = 13 + 4 * Z.of_nat n) by lia. clear Hf12. subst f12.
  exists n. split; [| exact Hsame].
  unfold laid_out. cbv zeta.
  split; [exact Ha12 |].
  flatten_goal.
  repeat (split; [cbn; first [reflexivity | lia] |]).
  exists fmt. cbv zeta.
  split; [exact Hfmt |]. split; [reflexivity |]. split; [reflexivity |].
  split; [reflexivity |].
  intros h. unfold inventory. cbv zeta.
  pose proof (Nat2Z.is_nonneg n) as Hn.
  assert (Hend : forall k, 13 + 4 * Z.of_nat n <= k -> o12 !! k = None).
  { intros k Hk. apply (sound_lookup_fresh _ k Hs12). exact Hk. }
  clearbody n.
  destruct (Z.ltb_spec h 1) as [H1 | H1].
  { back. apply lookup_empty. }
  destruct (Z.eqb_spec h 1) as [E1 | E1].
  { subst h. back. exact Hobj1. }
  destruct (Z.eqb_spec h 2) as [E2 | E2].
  { subst h. back. exact Hobj2. }
  destruct (Z.eqb_spec h 3) as [E3 | E3].
  { subst h. back. exact Hobj4. }
  destruct (Z.ltb_spec h (4 + Z.of_nat n)) as [H4 | H4].
  { back. replace h with (4 + Z.of_nat (Z.to_nat (h - 4))) by lia.
    apply Himages. lia. }
  destruct (Z.eqb_spec h (4 + Z.of_nat n)) as [E5 | E5].
  { subst h. back. exact Hobj5. }
  destruct (Z.ltb_spec h (5 + 2 * Z.of_nat n)) as [H6 | H6].
  { back.
    replace h with (5 + Z.of_nat n + Z.of_nat (Z.to_nat (h - (5 + Z.of_nat n))))
      at 1 by lia.
    rewrite (Hobj6 _ (4 + Z.of_nat (Z.to_nat (h - (5 + Z.of_nat n)))))
      by (apply handles_lookup; lia).
    do 2 f_equal. f_equal. lia. }
  destruct (Z.eqb_spec h (5 + 2 * Z.of_nat n)) as [E7 | E7].
  { subst h. back. exact Hobj7. }
  destruct (Z.ltb_spec h (8 + 2 * Z.of_nat n)) as [H8 | H8].
  { back.
    destruct (Z.eq_dec h (6 + 2 * Z.of_nat n)) as [-> | Hne];
      [exact Hsh1 |].
    replace h with (6 + 2 * Z.of_nat n + 1) by lia. exact Hsh2. }
  destruct (Z.eqb_spec h (8 + 2 * Z.of_nat n)) as [E8 | E8].
  { subst h. back.
    replace (8 + 2 * Z.of_nat n) with (6 + 2 * Z.of_nat n + 2) by lia.
    exact Hlayout. }
  destruct (Z.eqb_spec h (9 + 2 * Z.of_nat n)) as [E9 | E9].
  { subst h. back.
    replace (9 + 2 * Z.of_nat n) with (6 + 2 * Z.of_nat n + 3) by lia.
    rewrite Hpipe.
    replace (6 + 2 * Z.of_nat n + 2) with (8 + 2 * Z.of_nat n) by lia.
    replace (6 + 2 * Z.of_nat n + 1) with (7 + 2 * Z.of_nat n) by lia.
    reflexivity. }
  destruct (Z.ltb_spec h (10 + 3 * Z.of_nat n)) as [H10 | H10].
  { back.
    replace h
      with (10 + 2 * Z.of_nat n
            + Z.of_nat (Z.to_nat (h - (10 + 2 * Z.of_nat n)))) at 1 by lia.
    rewrite (Hobj9 _ (5 + Z.of_nat n
                      + Z.of_nat (Z.to_nat (h - (10 + 2 * Z.of_nat n)))))
      by (apply handles_lookup; lia).
    do 2 f_equal. f_equal. lia. }
  destruct (Z.eqb_spec h (10 + 3 * Z.of_nat n)) as [E10 | E10].
  { subst h. back. exact Hobj10. }
  destruct (Z.ltb_spec h (11 + 4 * Z.of_nat n)) as [H11 | H11].
  { back.
    replace h
      with (11 + 3 * Z.of_nat n
            + Z.of_nat (Z.to_nat (h - (11 + 3 * Z.of_nat n)))) at 1 by lia.
    rewrite (Hobj11 _ (10 + 2 * Z.of_nat n
                       + Z.of_nat (Z.to_nat (h - (11 + 3 * Z.of_nat n)))))
      by (apply handles_lookup; lia).
    do 2 f_equal.
    replace (h - (1 + Z.of_nat n))
      with (10 + 2 * Z.of_nat n
            + Z.of_nat (Z.to_nat (h - (11 + 3 * Z.of_nat n)))) by lia.
    reflexivity. }
  destruct (Z.ltb_spec h (13 + 4 * Z.of_nat n)) as [H13 | H13].
  { destruct (Z.eq_dec h (11 + 4 * Z.of_nat n)) as [-> | Hne];
      [exact Hsem1 |].
    replace h with (11 + 4 * Z.of_nat n + 1) by lia. exact Hsem2. }
  apply Hend. exact H13.
Qed.

Lemma main_initialization_laid_out drv st :
  main_initialization drv initial_state = Ok (tt, st) ->
  exists n, laid_out drv n st.
Proof.
  intros Hrun.
  destruct (safe_unless_Ok _ _ _ _ _ _ (main_initialization_safe drv) Hrun)
    as (n & Hn & _).
  now exists n.
Qed.

(** A run of the initialisation that returned got past
    [vkCreateSwapchainKHR]: it recorded one family for both roles. *)
Lemma main_initialization_exclusive drv st :
  main_initialization drv initial_state = Ok (tt, st) ->
  graphicsFamily (queueFamilyIndices (globals st))
  = presentFamily (queueFamilyIndices (globals st)).
Proof.
  intros Hrun.
  destruct (safe_unless_Ok _ _ _ _ _ _ (main_initialization_safe drv) Hrun)
    as (n & _ & Hn).
  exact Hn.
Qed.

(** Splits the tests of handle ranges, dropping the impossible cases. *)
Ltac zcases :=
  repeat match goal with
         | |- context [?a <? ?b] =>
             destruct (Z.ltb_spec a b); try (exfalso; lia)
         | |- context [?a =? ?b] =>
             destruct (Z.eqb_spec a b); try (exfalso; lia)
         | |- context [?a <=? ?b] =>
             destruct (Z.leb_spec a b); try (exfalso; lia)
         end.





Lemma inventory_is_Some drv g info n h :
  let m := Z.of_nat n in
  is_Some (inventory drv g info n h)
  <-> (h = 1 \/ h = 2 \/ h = 3 \/ 4 <= h < 4 + m \/ h = 4 + m
       \/ 5 + m <= h < 5 + 2 * m \/ h = 5 + 2 * m
       \/ h = 8 + 2 * m \/ h = 9 + 2 * m
       \/ 10 + 2 * m <= h < 10 + 3 * m \/ h = 10 + 3 * m
       \/ 11 + 3 * m <= h < 11 + 4 * m
       \/ 11 + 4 * m <= h < 13 + 4 * m).
Proof.
  cbv zeta. unfold inventory. cbv zeta.
  pose proof (Nat2Z.is_nonneg n) as Hn.
  zcases; (split; [intros [x Hx]; first [discriminate | lia]
                  | intros Hh; first [eexists; reflexivity | exfalso; lia]]).
Qed.

Ltac in_handles :=
  repeat first [ rewrite elem_of_app | rewrite elem_of_cons
               | rewrite elem_of_nil | rewrite elem_of_handles ].

(** X11: when the initialisation returns, the handles held by the globals
    (instance, surface, device, swapchain, render pass, pipeline layout,
    pipeline, command pool, the two semaphores and the four per-image
    arrays) are exactly the objects alive in the implementation: every
    global refers to a live object, and nothing the initialisation created
    is left without an owner (the two shader modules are destroyed
    again). *)
Theorem main_initialization_owns_store (drv : Driver) (st : State) :
  main_initialization drv initial_state = Ok (tt, st) ->
  forall h, is_Some (objects st !! h) <-> h ∈ owned (globals st).
Proof.
  intros Hrun. destruct (main_initialization_laid_out drv st Hrun) as (n & H).
  destruct st as [g w]. unfold laid_out in H. cbn [globals] in *.
  destruct H as (_ & _ & Hi & Hsf & Hd & Himg & _ & Hsc & Hv & Hrp & Hpl & Hp
                 & Hfb & Hcp & Hcb & Hs1 & Hs2 & fmt & _ & _ & _ & _ & Hinv).
  unfold owned.
  rewrite Hi, Hsf, Hd, Himg, Hsc, Hv, Hrp, Hpl, Hp, Hfb, Hcp, Hcb, Hs1, Hs2.
  pose proof (Nat2Z.is_nonneg n) as Hn.
  intros h. rewrite Hinv, inventory_is_Some. in_handles. lia.
Qed.

Lemma float_of_uint32_exact x : x < 2 ^ 24 -> float_of_uint32 x = x.
Proof.
  intros Hx. unfold float_of_uint32.
  destruct (Z.ltb_spec x (2 ^ 24)); [reflexivity | lia].
Qed.

Ltac in_handles_in H :=
  repeat first [ rewrite elem_of_app in H | rewrite elem_of_cons in H
               | rewrite elem_of_nil in H | rewrite elem_of_handles in H ].

(** Reads [inventory] at a handle whose range the context fixes. *)
Ltac read_inventory Hinv :=
  rewrite Hinv; unfold inventory; cbv zeta; zcases.

(** X12: when the initialisation returns, what the three choosers picked
    out of the support details the implementation reports for the selected
    device and surface is what the objects are made of.  The swapchain was
    created for the surface with the chosen surface format, extent, present
    mode and image count and owns the images in [swapchainImages]; the
    render pass attachment and every image view have the swapchain's image
    format; every framebuffer is built for the render pass with the
    swapchain's extent; the pipeline uses the pipeline layout and the
    render pass, its scissor is the swapchain's extent, its viewport starts
    at the origin with depth range 0 to 1 and has the extent's width and
    height converted to [float] (the same numbers whenever they are below
    2^24, the nearest [float] otherwise), and its two shader modules are no
    longer alive; the command pool belongs to the recorded graphics
    family. *)
Theorem main_initialization_formats_agree (drv : Driver) (st : State) :
  main_initialization drv initial_state = Ok (tt, st) ->
  let g := globals st in
  let details := reported_details drv g in
  (exists surfaceFormat info,
      ChooseSwapSurfaceFormat details = Some surfaceFormat
      /\ objects st !! swapChain g
         = Some (ObjSwapchain info (swapchainImages g))
      /\ sc_surface info = vulkanSurface g
      /\ sc_imageFormat info = format surfaceFormat
      /\ sc_imageColorSpace info = colorSpace surfaceFormat
      /\ sc_imageExtent info = ChooseSwapExtent details
      /\ sc_presentMode info = ChoosePresentMode details
      /\ sc_minImageCount info
         = CreateSwapChain_imageCount (capabilities details)
      /\ swapchainImageFormat g = format surfaceFormat
      /\ length (swapchainImages g) = drv_swapchainImages drv info)
  /\ swapchainExtent g = ChooseSwapExtent details
  /\ objects st !! renderPass g
     = Some (ObjRenderPass (swapchainImageFormat g))
  /\ (forall view, view ∈ swapChainImageViews g ->
        exists info, objects st !! view = Some (ObjImageView info)
                     /\ iv_format info = swapchainImageFormat g)
  /\ (forall fb, fb ∈ swapchainFramebuffers g ->
        exists info, objects st !! fb = Some (ObjFramebuffer info)
                     /\ fb_renderPass info = renderPass g
                     /\ fb_width info = width (swapchainExtent g)
                     /\ fb_height info = height (swapchainExtent g))
  /\ (exists stages,
        objects st !! graphicsPipeline g
        = Some (ObjPipeline (pipelineLayout g) (renderPass g)
                  (mkViewport 0 0
                     (float_of_uint32 (width (swapchainExtent g)))
                     (float_of_uint32 (height (swapchainExtent g))) 0 1)
                  (swapchainExtent g) stages)
        /\ length stages = 2%nat
        /\ forall s, s ∈ stages -> objects st !! s = None)
  /\ (width (swapchainExtent g) < 2 ^ 24 ->
      float_of_uint32 (width (swapchainExtent g))
      = width (swapchainExtent g))
  /\ (height (swapchainExtent g) < 2 ^ 24 ->
      float_of_uint32 (height (swapchainExtent g))
      = height (swapchainExtent g))
  /\ objects st !! commandPool g
     = Some (ObjCommandPool (graphicsFamily (queueFamilyIndices g))).
Proof.
  intros Hrun. destruct (main_initialization_laid_out drv st Hrun) as (n & H).
  destruct st as [g w]. unfold laid_out in H. cbn [globals] in *.
  destruct H as (_ & _ & Hi & Hsf & Hd & Himg & _ & Hsc & Hv & Hrp & Hpl & Hp
                 & Hfb & Hcp & Hcb & Hs1 & Hs2 & fmt & H).
  cbv zeta in H. destruct H as (Hfmt & Hformat & Hextent & Hcount & Hinv).
  pose proof (Nat2Z.is_nonneg n) as Hn.
  rewrite Hsc, Hv, Hrp, Hpl, Hp, Hfb, Hcp, Himg, Hsf.
  split; [| split; [exact Hextent
                   | split; [| split; [| split; [| split; [| split;
                       [apply float_of_uint32_exact
                       | split; [apply float_of_uint32_exact |]]]]]]]].
  - eexists fmt, _. split; [exact Hfmt |].
    split; [read_inventory Hinv; reflexivity |].
    repeat match goal with |- _ /\ _ => split end;
      try exact Hformat;
      try (rewrite length_handles; exact Hcount);
      unfold CreateSwapChain_createInfo; destruct (negb _); reflexivity.
  - read_inventory Hinv. reflexivity.
  - intros view Hin. apply elem_of_handles in Hin.
    read_inventory Hinv. eexists. split; reflexivity.
  - intros fb Hin. apply elem_of_handles in Hin.
    read_inventory Hinv. eexists. repeat split; reflexivity.
  - eexists. split; [read_inventory Hinv; reflexivity |].
    split; [reflexivity |].
    intros s Hin. in_handles_in Hin.
    read_inventory Hinv; reflexivity.
  - read_inventory Hinv. reflexivity.
Qed.

(** ** The frame *)

(** The calls of a frame drawn from the globals [g] with the command buffer
    [cb] for the image [idx]. *)
Lemma DrawFrame_run drv idx st cb pool rec :
  0 <= idx ->
  commandBuffers (globals st) !! Z.to_nat idx = Some cb ->
  objects st !! cb = Some (ObjCommandBuffer pool rec) ->
  let g := globals st in
  let c := w_calls (world st) in
  DrawFrame drv idx st
  = if acquire_stores (drv_result drv c) then
      if rejected (drv_result drv (S c)) then
        Fatal "Failed to submit draw command buffer."
      else
        Ok ([ AcquireNextImage (logicalDevice g) (swapChain g) UINT64_MAX
                (imageAvailableSemaphore g) VK_NULL_HANDLE;
              QueueSubmit (graphicsQueue g) 1
                (mkSubmitInfo 1 [imageAvailableSemaphore g]
                   [VK_PIPELINE_STAGE_COLOR_ATTACHMENT_OUTPUT_BIT] 1 [cb] 1
                   [renderFinishedSemaphore g])
                VK_NULL_HANDLE;
              QueuePresent (presentQueue g)
                (mkPresentInfo 1 [renderFinishedSemaphore g] 1 [swapChain g]
                   [idx]) ],
            mkState g (mkWorld (S (S (S c))) (w_fresh (world st))
                               (w_objects (world st))))
    else Undefined.
Proof.
  intros Hidx Hcb Hobj. cbv zeta.
  destruct st as [g [c f o]]. unfold objects in Hobj. cbn in Hcb, Hobj.
  cbv [DrawFrame bind get_globals next_result get_world put_world ret
       globals world w_calls w_fresh w_objects undefined].
  destruct (acquire_stores (drv_result drv c)); [| reflexivity].
  cbv [array_get_u32]. destruct (Z.ltb_spec idx 0) as [Hneg | _]; [lia |].
  cbv [array_get]. rewrite Hcb.
  cbv [vkQueueSubmit lookup_object bind get_globals next_result get_world
       put_world ret globals world w_calls w_fresh w_objects undefined].
  rewrite Hobj.
  cbv [fatal_if FatalError bind get_globals next_result get_world
       put_world ret globals world w_calls w_fresh w_objects undefined].
  destruct (rejected (drv_result drv (S c))); reflexivity.
Qed.

Lemma DrawFrame_Ok_index drv idx st trace st' :
  DrawFrame drv idx st = Ok (trace, st') ->
  0 <= idx
  /\ exists cb, commandBuffers (globals st) !! Z.to_nat idx = Some cb.
Proof.
  destruct st as [g [c f o]].
  cbv [DrawFrame bind get_globals next_result get_world put_world ret
       globals world w_calls w_fresh w_objects undefined].
  destruct (acquire_stores (drv_result drv c)); [| discriminate].
  cbv [array_get_u32]. destruct (Z.ltb_spec idx 0) as [Hneg | Hpos];
    [discriminate |].
  cbv [array_get].
  destruct (commandBuffers g !! Z.to_nat idx) as [cb |] eqn:Hcb;
    [| discriminate].
  intros _. split; [exact Hpos | now exists cb].
Qed.

(** What a laid-out state holds at the index [i] of the per-image arrays. *)
Lemma laid_out_at drv n st i :
  laid_out drv n st -> (i < n)%nat ->
  let g := globals st in
  let m := Z.of_nat n in
  let k := Z.of_nat i in
  commandBuffers g !! i = Some (11 + 3 * m + k)
  /\ objects st !! (11 + 3 * m + k)
     = Some (ObjCommandBuffer (commandPool g)
               (recorded_commands g (10 + 2 * m + k)))
  /\ swapchainFramebuffers g !! i = Some (10 + 2 * m + k)
  /\ objects st !! (10 + 2 * m + k)
     = Some (ObjFramebuffer
               (framebuffer_info (renderPass g) (5 + m + k)
                  (swapchainExtent g)))
  /\ swapChainImageViews g !! i = Some (5 + m + k)
  /\ objects st !! (5 + m + k)
     = Some (ObjImageView (image_view_info (4 + k) (swapchainImageFormat g)))
  /\ swapchainImages g !! i = Some (4 + k)
  /\ objects st !! (4 + k) = Some ObjImage.
Proof.
  intros H Hi. destruct st as [g w]. unfold laid_out in H.
  cbn [globals] in *.
  destruct H as (_ & _ & _ & _ & _ & Himg & _ & _ & Hv & Hrp & _ & _
                 & Hfb & Hcp & Hcb & _ & _ & fmt & H).
  cbv zeta in H. destruct H as (_ & _ & _ & _ & Hinv).
  cbv zeta. rewrite Himg, Hv, Hfb, Hcb, Hrp, Hcp.
  rewrite !handles_lookup by exact Hi.
  repeat match goal with |- _ /\ _ => split end; try reflexivity;
    read_inventory Hinv; do 2 f_equal; try reflexivity.
  - f_equal. lia.
  - f_equal. lia.
  - f_equal. lia.
Qed.

Lemma rejected_spec_true r : rejected r = true <-> r <> VK_SUCCESS.
Proof.
  unfold rejected. destruct (Z.eqb_spec r VK_SUCCESS); split;
    (congruence || discriminate || auto).
Qed.

Lemma laid_out_count drv n st :
  laid_out drv n st -> swapchainImageCount (globals st) = Z.of_nat n.
Proof. intros H. unfold laid_out in H. cbv zeta in H. tauto. Qed.

(** X13: the ways a frame drawn after the initialisation can end, for an
    image index within the swapchain's image count.  [DrawFrame] never looks
    at the result of [vkAcquireNextImageKHR]: when the acquire fails, the
    local [imageIndex] was never written and the command buffer to submit is
    picked with it all the same, which is undefined.  When the acquire
    hands out the index, a rejected [vkQueueSubmit] ends in the fatal error
    of the source, and an accepted one makes [DrawFrame] return whatever
    [vkQueuePresentKHR] answers, with the globals and every object as they
    were. *)
Theorem DrawFrame_outcome (drv : Driver) (st : State) (idx : Z) :
  main_initialization drv initial_state = Ok (tt, st) ->
  0 <= idx < swapchainImageCount (globals st) ->
  let c := w_calls (world st) in
  (acquire_stores (drv_result drv c) = false ->
   DrawFrame drv idx st = Undefined)
  /\ (acquire_stores (drv_result drv c) = true ->
      drv_result drv (S c) <> VK_SUCCESS ->
      DrawFrame drv idx st = Fatal "Failed to submit draw command buffer.")
  /\ (acquire_stores (drv_result drv c) = true ->
      drv_result drv (S c) = VK_SUCCESS ->
      exists trace st',
        DrawFrame drv idx st = Ok (trace, st')
        /\ globals st' = globals st
        /\ objects st' = objects st
        /\ w_calls (world st') = S (S (S c))).
Proof.
  intros Hrun Hidx. destruct (main_initialization_laid_out drv st Hrun) as (n & H).
  rewrite (laid_out_count _ _ _ H) in Hidx.
  destruct (laid_out_at drv n st (Z.to_nat idx) H ltac:(lia))
    as (Hcb & Hobj & _).
  cbv zeta.
  rewrite (DrawFrame_run drv idx st _ _ _ ltac:(lia) Hcb Hobj). cbv zeta.
  split; [| split].
  - intros ->. reflexivity.
  - intros -> Hrej. apply rejected_spec_true in Hrej. now rewrite Hrej.
  - intros -> Hacc. apply rejected_spec in Hacc. rewrite Hacc.
    eexists _, _. split; [reflexivity |]. repeat split.
Qed.

(** X14: a frame that [DrawFrame] draws after the initialisation renders
    into the image it presents.  The index [idx] handed out by the acquire is
    within the arrays; the one command buffer submitted is
    [commandBuffers[idx]], a live buffer of the command pool whose recording
    begins the render pass on [swapchainFramebuffers[idx]], which wraps
    [swapChainImageViews[idx]], a view of [swapchainImages[idx]]; the present
    names the swapchain that owns these images and the same index.  The
    submit waits for the semaphore the acquire signals and signals the one
    the present waits for, and the two are different semaphores. *)
Theorem DrawFrame_presents_rendered_image (drv : Driver) (st st' : State)
    (idx : Z) (trace : list QueueCall) :
  main_initialization drv initial_state = Ok (tt, st) ->
  DrawFrame drv idx st = Ok (trace, st') ->
  let g := globals st in
  exists cb fb view image info,
    0 <= idx < swapchainImageCount g
    /\ trace
       = [ AcquireNextImage (logicalDevice g) (swapChain g) UINT64_MAX
             (imageAvailableSemaphore g) VK_NULL_HANDLE;
           QueueSubmit (graphicsQueue g) 1
             (mkSubmitInfo 1 [imageAvailableSemaphore g]
                [VK_PIPELINE_STAGE_COLOR_ATTACHMENT_OUTPUT_BIT] 1 [cb] 1
                [renderFinishedSemaphore g])
             VK_NULL_HANDLE;
           QueuePresent (presentQueue g)
             (mkPresentInfo 1 [renderFinishedSemaphore g] 1 [swapChain g]
                [idx]) ]
    /\ commandBuffers g !! Z.to_nat idx = Some cb
    /\ objects st !! cb
       = Some (ObjCommandBuffer (commandPool g) (recorded_commands g fb))
    /\ swapchainFramebuffers g !! Z.to_nat idx = Some fb
    /\ objects st !! fb
       = Some (ObjFramebuffer
                 (framebuffer_info (renderPass g) view (swapchainExtent g)))
    /\ swapChainImageViews g !! Z.to_nat idx = Some view
    /\ objects st !! view
       = Some (ObjImageView
                 (image_view_info image (swapchainImageFormat g)))
    /\ swapchainImages g !! Z.to_nat idx = Some image
    /\ objects st !! swapChain g
       = Some (ObjSwapchain info (swapchainImages g))
    /\ objects st !! imageAvailableSemaphore g = Some ObjSemaphore
    /\ objects st !! renderFinishedSemaphore g = Some ObjSemaphore
    /\ imageAvailableSemaphore g <> renderFinishedSemaphore g.
Proof.
  intros Hrun Hdraw. cbv zeta.
  destruct (main_initialization_laid_out drv st Hrun) as (n & H).
  destruct (DrawFrame_Ok_index _ _ _ _ _ Hdraw) as (Hpos & cb & Hcb).
  assert (Hlt : (Z.to_nat idx < n)%nat).
  { apply lookup_lt_Some in Hcb.
    unfold laid_out in H. cbv zeta in H.
    destruct H as (_ & _ & _ & _ & _ & _ & _ & _ & _ & _ & _ & _ & _ & _
                   & Hcbs & _).
    rewrite Hcbs, length_handles in Hcb. exact Hcb. }
  destruct (laid_out_at drv n st (Z.to_nat idx) H Hlt)
    as (Hcb' & Hobj & Hfb & Hfbo & Hv & Hvo & Himg & _).
  cbv zeta in *.
  rewrite (DrawFrame_run drv idx st _ _ _ Hpos Hcb' Hobj) in Hdraw.
  cbv zeta in Hdraw.
  destruct (acquire_stores _); [| discriminate].
  destruct (rejected _); [discriminate |].
  injection Hdraw as Htrace _.
  pose proof (laid_out_count _ _ _ H) as Hcount.
  destruct st as [g w]. unfold laid_out in H. cbn [globals] in *.
  destruct H as (_ & _ & _ & _ & _ & Himgs & _ & Hsc & _ & _ & _ & _
                 & _ & _ & _ & Hs1 & Hs2 & fmt & H).
  cbv zeta in H. destruct H as (_ & _ & _ & _ & Hinv).
  pose proof (Nat2Z.is_nonneg n) as Hn.
  eexists _, _, _, _, _.
  split; [lia |]. split; [symmetry; exact Htrace |].
  split; [exact Hcb' |]. split; [exact Hobj |].
  split; [exact Hfb |]. split; [exact Hfbo |].
  split; [exact Hv |]. split; [exact Hvo |].
  split; [exact Himg |].
  split; [rewrite Hsc, Himgs; read_inventory Hinv; reflexivity |].
  split; [rewrite Hs1; read_inventory Hinv; reflexivity |].
  split; [rewrite Hs2; read_inventory Hinv; reflexivity |].
  rewrite Hs1, Hs2. lia.
Qed.

(** ** The teardown *)

Section ReturnsRules.

Context {A B : Type}.

Lemma returns_ret (a : A) (Q : A -> State -> Prop) st :
  Q a st -> returns (ret a) Q st.
Proof. intros H. exact H. Qed.

Lemma returns_bind (m : M A) (k : A -> M B) (Q : B -> State -> Prop) st :
  returns m (fun a st' => returns (k a) Q st') st -> returns (bind m k) Q st.
Proof.
  unfold returns, bind. destruct (m st) as [[a st'] | msg |]; auto.
Qed.

Lemma returns_mono (m : M A) (Q Q' : A -> State -> Prop) st :
  (forall a st', Q a st' -> Q' a st') -> returns m Q st -> returns m Q' st.
Proof.
  unfold returns. intros HQ. destruct (m st) as [[a st'] | msg |]; auto.
Qed.

Lemma returns_Ok (m : M A) (Q : A -> State -> Prop) st :
  returns m Q st -> exists a st', m st = Ok (a, st') /\ Q a st'.
Proof.
  unfold returns. destruct (m st) as [[a st'] | msg |]; [| easy | easy].
  intros H. now exists a, st'.
Qed.

Lemma returns_array_get (a : list A) i x (Q : A -> State -> Prop) st :
  a !! i = Some x -> Q x st -> returns (array_get a i) Q st.
Proof. intros Hx HQ. unfold array_get. rewrite Hx. exact HQ. Qed.

End ReturnsRules.

Lemma returns_get_globals (Q : Globals -> State -> Prop) st :
  Q (globals st) st -> returns get_globals Q st.
Proof. intros H. exact H. Qed.

Lemma returns_for_loop (Inv : nat -> State -> Prop) body n :
  forall i st,
    Inv i st ->
    (forall j st', (i <= j < i + n)%nat -> Inv j st' ->
                   returns (body j) (fun _ st'' => Inv (S j) st'') st') ->
    returns (for_loop n i body) (fun _ st' => Inv (i + n)%nat st') st.
Proof.
  induction n as [| n IH]; intros i st Hi Hbody; cbn [for_loop].
  - apply returns_ret. now rewrite Nat.add_0_r.
  - apply returns_bind.
    eapply returns_mono; [| apply (Hbody i st); [lia | exact Hi]].
    intros u st' Hst'. cbn beta in *.
    replace (i + S n)%nat with (S i + n)%nat by lia.
    apply IH; [exact Hst' |].
    intros j st'' Hj. apply Hbody. lia.
Qed.

Lemma described_ext g f f' st :
  described g f st -> (forall h, f' h = f h) -> described g f' st.
Proof.
  intros [Hg Hf] Heq. split; [exact Hg |]. intros h. now rewrite Heq.
Qed.

(** Destroying the live object [h0] takes it, and nothing else, out of the
    store. *)
Lemma returns_destroy_object kind h0 x g f f' (Q : unit -> State -> Prop) st :
  described g f st ->
  h0 <> VK_NULL_HANDLE ->
  f h0 = Some x -> kind x = true ->
  (forall h, f' h = if h =? h0 then None else f h) ->
  (forall st', described g f' st' -> Q tt st') ->
  returns (destroy_object kind h0) Q st.
Proof.
  intros [Hg Hf] Hnull Hx Hkind Hf' HQ.
  unfold destroy_object. destruct (Z.eqb_spec h0 VK_NULL_HANDLE); [easy |].
  unfold returns.
  cbv [bind lookup_object get_world ret put_objects put_world].
  pose proof (Hf h0) as Hlook. unfold objects in Hlook. rewrite Hlook, Hx, Hkind.
  apply HQ. split; [exact Hg |].
  intros h. rewrite Hf'. unfold objects. cbn.
  destruct (Z.eqb_spec h h0) as [-> | Hne].
  - apply lookup_delete_eq.
  - rewrite lookup_delete_ne by congruence. apply Hf.
Qed.

Lemma returns_vkDestroyCommandPool h0 q g f f'
    (Q : unit -> State -> Prop) st :
  described g f st ->
  h0 <> VK_NULL_HANDLE ->
  f h0 = Some (ObjCommandPool q) ->
  (forall h, f' h
             = if h =? h0 then None
               else x ← f h; if allocated_from h0 x then None else Some x) ->
  (forall st', described g f' st' -> Q tt st') ->
  returns (vkDestroyCommandPool h0) Q st.
Proof.
  intros [Hg Hf] Hnull Hx Hf' HQ.
  unfold vkDestroyCommandPool.
  destruct (Z.eqb_spec h0 VK_NULL_HANDLE); [easy |].
  unfold returns.
  cbv [bind lookup_object get_world ret put_objects put_world].
  pose proof (Hf h0) as Hlook. unfold objects in Hlook. rewrite Hlook, Hx.
  apply HQ. split; [exact Hg |].
  intros h. rewrite Hf'. unfold objects. cbn. rewrite lookup_omap.
  destruct (Z.eqb_spec h h0) as [-> | Hne].
  - now rewrite lookup_delete_eq.
  - rewrite lookup_delete_ne by congruence.
    pose proof (Hf h) as Hh. unfold objects in Hh. now rewrite Hh.
Qed.

Lemma lookup_foldr_delete_handles (m : gmap Z Object) (l : list Z) k :
  foldr delete m l !! k = if decide (k ∈ l) then None else m !! k.
Proof.
  induction l as [| a l IH]; cbn [foldr].
  - destruct (decide (k ∈ [])) as [Hin | _]; [| reflexivity].
    now apply elem_of_nil in Hin.
  - destruct (decide (k = a)) as [-> | Hne].
    + rewrite lookup_delete_eq.
      destruct (decide (a ∈ a :: l)) as [_ | Hnot]; [reflexivity |].
      exfalso. apply Hnot. apply elem_of_cons. now left.
    + rewrite lookup_delete_ne by congruence. rewrite IH.
      destruct (decide (k ∈ l)) as [Hin | Hnin];
        destruct (decide (k ∈ a :: l)) as [Hin' | Hnin']; try reflexivity.
      * exfalso. apply Hnin'. apply elem_of_cons. now right.
      * exfalso. apply elem_of_cons in Hin'. destruct Hin'; congruence.
Qed.

Lemma returns_vkDestroySwapchainKHR h0 info images g f f'
    (Q : unit -> State -> Prop) st :
  described g f st ->
  h0 <> VK_NULL_HANDLE ->
  f h0 = Some (ObjSwapchain info images) ->
  (forall h, h = h0 \/ h ∈ images -> f' h = None) ->
  (forall h, h <> h0 -> h ∉ images -> f' h = f h) ->
  (forall st', described g f' st' -> Q tt st') ->
  returns (vkDestroySwapchainKHR h0) Q st.
Proof.
  intros [Hg Hf] Hnull Hx Hgone Hkept HQ.
  unfold vkDestroySwapchainKHR.
  destruct (Z.eqb_spec h0 VK_NULL_HANDLE); [easy |].
  unfold returns.
  cbv [bind lookup_object get_world ret put_objects put_world].
  pose proof (Hf h0) as Hlook. unfold objects in Hlook. rewrite Hlook, Hx.
  apply HQ. split; [exact Hg |].
  intros h. unfold objects. cbn. rewrite lookup_foldr_delete_handles.
  destruct (decide (h ∈ images)) as [Hin | Hnin].
  - symmetry. apply Hgone. now right.
  - destruct (Z.eq_dec h h0) as [-> | Hne].
    + rewrite lookup_delete_eq. symmetry. apply Hgone. now left.
    + rewrite lookup_delete_ne by congruence.
      rewrite Hkept by assumption. apply Hf.
Qed.

Lemma surface_unused_true h0 (objs : gmap Z Object) :
  (forall k info images,
      objs !! k = Some (ObjSwapchain info images) -> sc_surface info <> h0) ->
  surface_unused h0 objs = true.
Proof.
  intros H. unfold surface_unused. apply forallb_forall.
  intros [k o] Hin. apply list_elem_of_In, elem_of_map_to_list in Hin.
  destruct o; try reflexivity.
  apply negb_true_iff, Z.eqb_neq. exact (H _ _ _ Hin).
Qed.

Lemma only_left_true keep h0 (objs : gmap Z Object) :
  (forall k o, objs !! k = Some o -> k = h0 \/ keep o = true) ->
  only_left keep h0 objs = true.
Proof.
  intros H. unfold only_left. apply forallb_forall.
  intros [k o] Hin. apply list_elem_of_In, elem_of_map_to_list in Hin.
  apply orb_true_iff. destruct (H _ _ Hin) as [-> | Hkeep].
  - left. apply Z.eqb_refl.
  - now right.
Qed.

Lemma returns_vkDestroySurfaceKHR h0 x g f f'
    (Q : unit -> State -> Prop) st :
  described g f st ->
  h0 <> VK_NULL_HANDLE ->
  f h0 = Some x -> is_surface x = true ->
  (forall k info images,
      f k = Some (ObjSwapchain info images) -> sc_surface info <> h0) ->
  (forall h, f' h = if h =? h0 then None else f h) ->
  (forall st', described g f' st' -> Q tt st') ->
  returns (vkDestroySurfaceKHR h0) Q st.
Proof.
  intros Hd Hnull Hx Hkind Hunused Hf' HQ.
  unfold vkDestroySurfaceKHR.
  destruct (Z.eqb_spec h0 VK_NULL_HANDLE); [easy |].
  apply returns_bind. unfold returns at 1. cbv [get_world].
  rewrite surface_unused_true.
  - exact (returns_destroy_object _ _ _ _ _ _ _ _ Hd Hnull Hx Hkind Hf' HQ).
  - intros k info images Hk. apply (Hunused k info images).
    destruct Hd as [_ Hf]. rewrite <- Hf. exact Hk.
Qed.

Lemma returns_vkDestroyDevice h0 x g f f' (Q : unit -> State -> Prop) st :
  described g f st ->
  h0 <> VK_NULL_HANDLE ->
  f h0 = Some x -> is_device x = true ->
  (forall k o, f k = Some o -> k = h0 \/ instance_level o = true) ->
  (forall h, f' h = if h =? h0 then None else f h) ->
  (forall st', described g f' st' -> Q tt st') ->
  returns (vkDestroyDevice h0) Q st.
Proof.
  intros Hd Hnull Hx Hkind Hleft Hf' HQ.
  unfold vkDestroyDevice.
  destruct (Z.eqb_spec h0 VK_NULL_HANDLE); [easy |].
  apply returns_bind. unfold returns at 1. cbv [get_world].
  rewrite only_left_true.
  - exact (returns_destroy_object _ _ _ _ _ _ _ _ Hd Hnull Hx Hkind Hf' HQ).
  - intros k o Hk. apply Hleft.
    destruct Hd as [_ Hf]. rewrite <- Hf. exact Hk.
Qed.

Lemma returns_vkDestroyInstance h0 x g f f' (Q : unit -> State -> Prop) st :
  described g f st ->
  h0 <> VK_NULL_HANDLE ->
  f h0 = Some x -> is_instance x = true ->
  (forall k o, f k = Some o -> k = h0) ->
  (forall h, f' h = if h =? h0 then None else f h) ->
  (forall st', described g f' st' -> Q tt st') ->
  returns (vkDestroyInstance h0) Q st.
Proof.
  intros Hd Hnull Hx Hkind Hleft Hf' HQ.
  unfold vkDestroyInstance.
  destruct (Z.eqb_spec h0 VK_NULL_HANDLE); [easy |].
  apply returns_bind. unfold returns at 1. cbv [get_world].
  rewrite only_left_true.
  - exact (returns_destroy_object _ _ _ _ _ _ _ _ Hd Hnull Hx Hkind Hf' HQ).
  - intros k o Hk. left. apply Hleft with o.
    destruct Hd as [_ Hf]. rewrite <- Hf. exact Hk.
Qed.

(** A loop that destroys the [n] objects of an array of consecutive
    handles, in increasing order: the part of the store below the array is
    what remains. *)
Lemma returns_destroy_loop kind g (I : Z -> option Object) lo hi n
    (arr : Globals -> list Z) (Q : unit -> State -> Prop) st :
  described g (cut I hi) st ->
  arr g = handles lo n -> hi = lo + Z.of_nat n -> 0 < lo ->
  (forall h, lo <= h < hi -> exists x, I h = Some x /\ kind x = true) ->
  (forall st', described g (cut I lo) st' -> Q tt st') ->
  returns (for_loop n 0 (fun i =>
             g0 <- get_globals ;;
             x <- array_get (arr g0) i ;;
             destroy_object kind x)) Q st.
Proof.
  intros Hd Harr Hhi Hlo Hkind HQ.
  eapply returns_mono;
    [| apply (returns_for_loop
                (fun j st' => described g (gap I lo (Z.of_nat j) hi) st'))].
  - cbn beta. intros [] st' Hd'. apply HQ.
    apply (described_ext _ _ _ _ Hd'). intros h. unfold gap, cut.
    zcases; reflexivity.
  - apply (described_ext _ _ _ _ Hd). intros h. unfold gap, cut.
    zcases; reflexivity.
  - intros j st' Hj Hd'. cbn beta.
    apply returns_bind, returns_get_globals.
    destruct Hd' as [Hg' Hf']. rewrite Hg'.
    apply returns_bind.
    eapply returns_array_get; [rewrite Harr; apply handles_lookup; lia |].
    destruct (Hkind (lo + Z.of_nat j) ltac:(lia)) as (x & Hx & Hk).
    apply (returns_destroy_object kind _ x g
             (gap I lo (Z.of_nat j) hi) (gap I lo (Z.of_nat (S j)) hi)
             _ _ (conj Hg' Hf')).
    + unfold VK_NULL_HANDLE. lia.
    + unfold gap, cut. zcases. exact Hx.
    + exact Hk.
    + intros h. unfold gap, cut. zcases; reflexivity.
    + intros st'' Hd''. exact Hd''.
Qed.

(** Compares two descriptions of a store at every handle. *)
Ltac pointwise :=
  let h := fresh "h" in
  intros h; unfold gap, cut, inventory; cbv zeta; zcases;
  cbn [andb orb mbind option_bind allocated_from]; zcases;
  try reflexivity.

Ltac at_handle :=
  unfold gap, cut, inventory; cbv zeta; zcases;
  cbn [andb orb]; try reflexivity.

Lemma main_teardown_returns drv n st0 st :
  laid_out drv n st0 ->
  globals st = globals st0 -> objects st = objects st0 ->
  returns main_teardown
          (fun _ st' => globals st' = globals st /\ objects st' = ∅) st.
Proof.
  intros H Hg Ho. destruct st0 as [g w0]. destruct st as [gs w].
  cbn [globals] in Hg. subst gs.
  unfold laid_out in H. cbn [globals] in H.
  destruct H as (_ & _ & Hi & Hsf & Hd & Himg & Hcount & Hsc & Hv & Hrp & Hpl
                 & Hp & Hfb & Hcp & Hcb & Hs1 & Hs2 & fmt & H).
  cbv zeta in H. destruct H as (_ & _ & _ & _ & Hinv).
  set (info := CreateSwapChain_createInfo (reported_details drv g) fmt 2
                 (queueFamilyIndices g)) in *.
  set (I := inventory drv g info n).
  assert (Hd0 : described g I {| globals := g; world := w |}).
  { split; [reflexivity |]. intros h. rewrite Ho. apply Hinv. }
  clear Hinv Ho.
  pose proof (Nat2Z.is_nonneg n) as Hn.
  unfold main_teardown.
  apply returns_bind, returns_get_globals. cbn [globals].
  rewrite Hs2, Hs1, Hcp, Hcount, Nat2Z.id.
  (* the two semaphores *)
  apply returns_bind.
  apply (returns_destroy_object is_semaphore _ ObjSemaphore g I
           (cut I (12 + 4 * Z.of_nat n)) _ _ Hd0);
    [unfold VK_NULL_HANDLE; lia | unfold I; at_handle | reflexivity | unfold I; pointwise |].
  intros st1 Hd1.
  apply returns_bind.
  apply (returns_destroy_object is_semaphore _ ObjSemaphore g _
           (cut I (11 + 4 * Z.of_nat n)) _ _ Hd1);
    [unfold VK_NULL_HANDLE; lia | unfold I; at_handle | reflexivity | unfold I; pointwise |].
  clear st1 Hd1. intros st1 Hd1.
  (* the command pool, and its command buffers with it *)
  apply returns_bind.
  apply (returns_vkDestroyCommandPool _
           (graphicsFamily (queueFamilyIndices g)) g _
           (cut I (10 + 3 * Z.of_nat n)) _ _ Hd1);
    [unfold VK_NULL_HANDLE; lia | unfold I; at_handle | unfold I; pointwise |].
  clear st1 Hd1. intros st1 Hd1.
  (* the framebuffers *)
  apply returns_bind.
  apply (returns_destroy_loop is_framebuffer g I (10 + 2 * Z.of_nat n)
           (10 + 3 * Z.of_nat n) n swapchainFramebuffers _ _ Hd1 Hfb);
    [lia | lia | intros h Hh; eexists; unfold I; split; [at_handle |];
                 reflexivity |].
  clear st1 Hd1. intros st1 Hd1.
  (* the pipeline, its layout and the render pass *)
  apply returns_bind, returns_get_globals.
  rewrite (proj1 Hd1), Hp, Hpl, Hrp, Hcount, Nat2Z.id.
  apply returns_bind.
  apply (returns_destroy_object is_pipeline _
           (ObjPipeline (8 + 2 * Z.of_nat n) (5 + 2 * Z.of_nat n)
              (CreateGraphicsPipeline_viewport (swapchainExtent g))
              (swapchainExtent g)
              [6 + 2 * Z.of_nat n; 7 + 2 * Z.of_nat n]) g _
           (cut I (9 + 2 * Z.of_nat n)) _ _ Hd1);
    [unfold VK_NULL_HANDLE; lia | unfold I; at_handle | reflexivity
    | unfold I; pointwise |].
  clear st1 Hd1. intros st1 Hd1.
  apply returns_bind.
  apply (returns_destroy_object is_pipeline_layout _ ObjPipelineLayout g _
           (cut I (8 + 2 * Z.of_nat n)) _ _ Hd1);
    [unfold VK_NULL_HANDLE; lia | unfold I; at_handle | reflexivity
    | unfold I; pointwise |].
  clear st1 Hd1. intros st1 Hd1.
  apply returns_bind.
  apply (returns_destroy_object is_render_pass _
           (ObjRenderPass (swapchainImageFormat g)) g _
           (cut I (5 + 2 * Z.of_nat n)) _ _ Hd1);
    [unfold VK_NULL_HANDLE; lia | unfold I; at_handle | reflexivity
    | unfold I; pointwise |].
  clear st1 Hd1. intros st1 Hd1.
  (* the image views *)
  apply returns_bind.
  apply (returns_destroy_loop is_image_view g I (5 + Z.of_nat n)
           (5 + 2 * Z.of_nat n) n swapChainImageViews _ _ Hd1 Hv);
    [lia | lia | intros h Hh; eexists; unfold I; split; [at_handle |];
                 reflexivity |].
  clear st1 Hd1. intros st1 Hd1.
  (* the swapchain and its images, the surface, the device, the instance *)
  apply returns_bind, returns_get_globals.
  rewrite (proj1 Hd1), Hsc, Hsf, Hd, Hi.
  apply returns_bind.
  apply (returns_vkDestroySwapchainKHR _ info (handles 4 n) g _
           (cut I 4) _ _ Hd1);
    [unfold VK_NULL_HANDLE; lia | unfold I; at_handle | | |].
  { intros h Hh. in_handles_in Hh. unfold cut. zcases. reflexivity. }
  { intros h Hne Hnin. in_handles_in Hnin. unfold cut. zcases; reflexivity. }
  clear st1 Hd1. intros st1 Hd1.
  apply returns_bind.
  apply (returns_vkDestroySurfaceKHR 2 (ObjSurface 1) g _
           (fun h => if h =? 2 then None else cut I 4 h) _ _ Hd1);
    [unfold VK_NULL_HANDLE; lia | unfold I; at_handle | reflexivity | |
     reflexivity |].
  { intros k sinfo images. unfold I. at_handle; discriminate. }
  clear st1 Hd1. intros st1 Hd1.
  apply returns_bind.
  apply (returns_vkDestroyDevice 3
           (ObjDevice (physicalDevice g)
              (CreateLogicalDevice_deviceCreateInfo (queueFamilyIndices g)))
           g _ (fun h => if h =? 1 then I 1 else None) _ _ Hd1);
    [unfold VK_NULL_HANDLE; lia | unfold I; at_handle | reflexivity | | |].
  { intros k o. unfold I. at_handle; try discriminate.
    - intros Ho. injection Ho as <-. now right.
    - intros _. now left. }
  { unfold I. pointwise. }
  clear st1 Hd1. intros st1 Hd1.
  apply (returns_vkDestroyInstance 1
           (ObjInstance (drv_instanceExtensions drv))
           g _ (fun _ => None) _ _ Hd1);
    [unfold VK_NULL_HANDLE; lia | unfold I; at_handle | reflexivity | | |].
  { intros k o. destruct (Z.eqb_spec k 1); [easy | discriminate]. }
  { intros h. zcases; reflexivity. }
  clear st1 Hd1. intros st1 [Hg1 Hf1].
  split; [exact Hg1 |].
  apply map_eq. intros h. rewrite lookup_empty. apply Hf1.
Qed.

(** ** Platforms on which the initialisation goes through *)

Section UnfailingRules.

Context {A B : Type}.






End UnfailingRules.






Section Unfailing.

Variable drv : Driver.
Hypothesis accepts : forall k, drv_result drv k = VK_SUCCESS.
























End Unfailing.





(** X17: the teardown of [main] destroys everything, once.  From any state
    whose globals and objects are those the initialisation left (a frame
    drawn in between changes neither), the sequence from
    [vkDestroySemaphore] to [vkDestroyInstance] returns: every handle it
    passes is a live object of the kind the call destroys (nothing is
    destroyed twice), the surface goes after its swapchain, the device after
    every object created on it and the instance last; and afterwards no
    object is left alive. *)
Theorem main_teardown_destroys_everything (drv : Driver) (st0 st : State) :
  main_initialization drv initial_state = Ok (tt, st0) ->
  globals st = globals st0 -> objects st = objects st0 ->
  exists st',
    main_teardown st = Ok (tt, st')
    /\ objects st' = ∅
    /\ globals st' = globals st.
Proof.
  intros Hrun Hg Ho.
  destruct (main_initialization_laid_out drv st0 Hrun) as (n & Hn).
  destruct (returns_Ok _ _ _ (main_teardown_returns drv n st0 st Hn Hg Ho))
    as ([] & st' & Hdown & Hg' & Ho').
  now exists st'.
Qed.


(** ** The statements above on a concrete platform *)

Lemma Samples_combined_draws :
  DrawFrame Samples.combined 0 (Samples.ready Samples.combined)
  = Ok ((ready_frame Samples.combined).1, (ready_frame Samples.combined).2).
Proof. vm_compute. reflexivity. Qed.


Lemma main_initialization_owns_store_witness :
  let st := Samples.ready Samples.combined in
  (is_Some (objects st !! graphicsPipeline (globals st))
   <-> graphicsPipeline (globals st) ∈ owned (globals st))
  /\ (is_Some (objects st !! (graphicsPipeline (globals st) - 2))
      <-> graphicsPipeline (globals st) - 2 ∈ owned (globals st)).
Proof.
  split;
    apply (main_initialization_owns_store Samples.combined _
             Samples_combined_runs).
Defined.

Lemma main_initialization_formats_agree_witness :
  exists stages,
    objects (Samples.ready Samples.combined)
    !! graphicsPipeline (globals (Samples.ready Samples.combined))
    = Some (ObjPipeline
              (pipelineLayout (globals (Samples.ready Samples.combined)))
              (renderPass (globals (Samples.ready Samples.combined)))
              (mkViewport 0 0 (float_of_uint32 WIDTH)
                 (float_of_uint32 HEIGHT) 0 1)
              (mkExtent WIDTH HEIGHT)
              stages)
    /\ length stages = 2%nat
    /\ forall s, s ∈ stages ->
                 objects (Samples.ready Samples.combined) !! s = None.
Proof.
  destruct (main_initialization_formats_agree Samples.combined _
              Samples_combined_runs)
    as (_ & _ & _ & _ & _ & Hpipeline & _).
  exact Hpipeline.
Defined.

Lemma DrawFrame_outcome_witness :
  exists trace st',
    DrawFrame Samples.combined 0 (Samples.ready Samples.combined)
    = Ok (trace, st')
    /\ globals st' = globals (Samples.ready Samples.combined)
    /\ objects st' = objects (Samples.ready Samples.combined)
    /\ w_calls (world st')
       = S (S (S (w_calls (world (Samples.ready Samples.combined))))).
Proof.
  destruct (DrawFrame_outcome Samples.combined
              (Samples.ready Samples.combined) 0 Samples_combined_runs)
    as (_ & _ & Hok).
  - vm_compute. split; [discriminate | reflexivity].
  - apply Hok; vm_compute; reflexivity.
Defined.

Lemma DrawFrame_presents_rendered_image_witness :
  exists cb fb view image info,
    let st := Samples.ready Samples.combined in
    let g := globals st in
    0 <= 0 < swapchainImageCount g
    /\ (ready_frame Samples.combined).1
       = [ AcquireNextImage (logicalDevice g) (swapChain g) UINT64_MAX
             (imageAvailableSemaphore g) VK_NULL_HANDLE;
           QueueSubmit (graphicsQueue g) 1
             (mkSubmitInfo 1 [imageAvailableSemaphore g]
                [VK_PIPELINE_STAGE_COLOR_ATTACHMENT_OUTPUT_BIT] 1 [cb] 1
                [renderFinishedSemaphore g])
             VK_NULL_HANDLE;
           QueuePresent (presentQueue g)
             (mkPresentInfo 1 [renderFinishedSemaphore g] 1 [swapChain g]
                [0]) ]
    /\ commandBuffers g !! Z.to_nat 0 = Some cb
    /\ objects st !! cb
       = Some (ObjCommandBuffer (commandPool g) (recorded_commands g fb))
    /\ swapchainFramebuffers g !! Z.to_nat 0 = Some fb
    /\ objects st !! fb
       = Some (ObjFramebuffer
                 (framebuffer_info (renderPass g) view (swapchainExtent g)))
    /\ swapChainImageViews g !! Z.to_nat 0 = Some view
    /\ objects st !! view
       = Some (ObjImageView
                 (image_view_info image (swapchainImageFormat g)))
    /\ swapchainImages g !! Z.to_nat 0 = Some image
    /\ objects st !! swapChain g
       = Some (ObjSwapchain info (swapchainImages g))
    /\ objects st !! imageAvailableSemaphore g = Some ObjSemaphore
    /\ objects st !! renderFinishedSemaphore g = Some ObjSemaphore
    /\ imageAvailableSemaphore g <> renderFinishedSemaphore g.
Proof.
  exact (DrawFrame_presents_rendered_image Samples.combined _ _ 0 _
           Samples_combined_runs Samples_combined_draws).
Defined.


Lemma main_teardown_destroys_everything_witness :
  exists st',
    main_teardown (ready_frame Samples.combined).2 = Ok (tt, st')
    /\ objects st' = ∅
    /\ globals st' = globals (ready_frame Samples.combined).2.
Proof.
  apply (main_teardown_destroys_everything Samples.combined
           (Samples.ready Samples.combined) _ Samples_combined_runs);
    vm_compute; reflexivity.
Defined.
